(** * papert-claw: agent orchestration core

    A shallow embedding of the orchestration core of the papert-claw server
    (per-channel queue, scheduler routing and bridge, tool-output queue,
    upload-selection policy, session persistence) together with the
    properties its design document states about it.

    Conventions.
    - A JavaScript string is a [string]: a sequence of code units, each an
      [ascii] (code units 0..255, i.e. Latin-1 text).
    - A JavaScript [Map] keyed by strings is a [gmap string _]; a [Set] of
      strings used for deduplication is the list of its elements in insertion
      order.
    - A value that may be [undefined]/[null] is an [option]; truthiness of a
      string is non-emptiness.
    - Code that throws returns an [option] or a sum; logging and callbacks are
      recorded as a list of effects. *)

From Stdlib Require Import Ascii String ZArith Bool Lia DecimalString.
From stdpp Require Import base option list gmap strings.

Open Scope Z_scope.
Open Scope nat_scope.

#[local] Set Warnings "-register-all".

(** ** JavaScript string helpers *)

(** Truthiness of a string: the empty string is falsy. *)
Definition truthy (s : string) : bool :=
  match s with EmptyString => false | String _ _ => true end.

(** Truthiness of [string | undefined]. *)
Definition truthy_opt (o : option string) : bool :=
  match o with Some s => truthy s | None => false end.

(** [a || b] on possibly-undefined strings. *)
Definition or_else (a : option string) (b : option string) : option string :=
  if truthy_opt a then a else b.

(** [s.includes(sub)] as a proposition. *)
Definition includes (s sub : string) : Prop :=
  ∃ pre post, s = pre +:+ sub +:+ post.

(** Code unit of a character. *)
Definition code (c : ascii) : nat := nat_of_ascii c.

(** White space and line terminators among the code units 0..255: TAB, LF,
    VT, FF, CR, SP and NBSP. This is the class [\s] and what [trim] strips. *)
Definition is_js_space (c : ascii) : bool :=
  let n := code c in
  ((9 <=? n) && (n <=? 13)) || (n =? 32) || (n =? 160).

Fixpoint trimStart (s : string) : string :=
  match s with
  | EmptyString => EmptyString
  | String c s' => if is_js_space c then trimStart s' else s
  end.

Fixpoint trimEnd (s : string) : string :=
  match s with
  | EmptyString => EmptyString
  | String c s' =>
    match trimEnd s' with
    | EmptyString => if is_js_space c then EmptyString else String c EmptyString
    | t => String c t
    end
  end.

(** [s.trim()] *)
Definition trim (s : string) : string := trimEnd (trimStart s).

(** Lower-case mapping of one code unit: [A-Z], and the upper-case letters of
    Latin-1 (192..222 except the multiplication sign 215). *)
Definition lower_char (c : ascii) : ascii :=
  let n := code c in
  if ((65 <=? n) && (n <=? 90)) || ((192 <=? n) && (n <=? 222) && negb (n =? 215))
  then ascii_of_nat (n + 32) else c.

(** [s.toLowerCase()] *)
Fixpoint toLowerCase (s : string) : string :=
  match s with
  | EmptyString => EmptyString
  | String c s' => String (lower_char c) (toLowerCase s')
  end.

(** [s.startsWith(p)] *)
Definition startsWith (s p : string) : bool := String.prefix p s.

(** [s.endsWith(p)] *)
Fixpoint endsWith (s p : string) : bool :=
  String.eqb s p ||
  match s with
  | EmptyString => false
  | String _ s' => endsWith s' p
  end.

(** [parts.join(sep)] *)
Definition str_join (sep : string) (parts : list string) : string := String.concat sep parts.

(** [Array.from(new Set(l))]: the distinct elements in order of first
    occurrence. *)
Definition set_insert (acc : list string) (x : string) : list string :=
  if bool_decide (x ∈ acc) then acc else acc ++ [x].

Definition unique (l : list string) : list string := foldl set_insert [] l.

(** ** Regular expressions

    The patterns of the source are kept as syntax trees and run by a
    backtracking matcher with the semantics of JavaScript regular
    expressions for the constructs they use: greedy repetition, ordered
    alternation, [\b], [^] and [$] (without the [m] flag) and the [i] flag. *)

Inductive regex :=
  | Eps
  | Chr (c : ascii)
  | Class (f : ascii → bool)
  | Seq (a b : regex)
  | Alt (a b : regex)
  | Star (a : regex)
  | WordBoundary
  | InputStart
  | InputEnd.

(** [a+] *)
Definition Plus (a : regex) : regex := Seq a (Star a).

(** A literal word. *)
Fixpoint Lit (s : string) : regex :=
  match s with
  | EmptyString => Eps
  | String c s' => Seq (Chr c) (Lit s')
  end.

(** [(a|b|...)] *)
Fixpoint Alts (l : list regex) : regex :=
  match l with
  | [] => Class (λ _, false)
  | [a] => a
  | a :: l' => Alt a (Alts l')
  end.

(** [a b ...] *)
Fixpoint Seqs (l : list regex) : regex :=
  match l with
  | [] => Eps
  | [a] => a
  | a :: l' => Seq a (Seqs l')
  end.

(** [\w] *)
Definition is_word_char (c : ascii) : bool :=
  let n := code c in
  ((48 <=? n) && (n <=? 57)) || ((65 <=? n) && (n <=? 90))
  || ((97 <=? n) && (n <=? 122)) || (n =? 95).

(** Upper-case mapping of one code unit where it stays within one code unit
    below 256: [a-z], and 224..254 except the division sign 247. *)
Definition upper_char (c : ascii) : ascii :=
  let n := code c in
  if ((97 <=? n) && (n <=? 122)) || ((224 <=? n) && (n <=? 254) && negb (n =? 247))
  then ascii_of_nat (n - 32) else c.

(** Character comparison, through the canonical (upper-case) form under the
    [i] flag. *)
Definition chr_matches (ignoreCase : bool) (p c : ascii) : bool :=
  if ignoreCase then Ascii.eqb (upper_char p) (upper_char c) else Ascii.eqb p c.

Definition is_word_opt (o : option ascii) : bool :=
  match o with Some c => is_word_char c | None => false end.

Definition head_char (s : string) : option ascii :=
  match s with EmptyString => None | String c _ => Some c end.

(** [rmatch ic r prev s k]: match [r] at the start of [s], where [prev] is
    the character before [s] in the whole input, then hand the last consumed
    character and the remaining input to the continuation [k]; alternatives
    are tried in order and [k] returning [None] causes backtracking. An
    iteration of [Star] that consumes nothing is rejected. *)
Fixpoint rmatch (ic : bool) (r : regex) (prev : option ascii) (s : string)
    (k : option ascii → string → option string) {struct r} : option string :=
  match r with
  | Eps => k prev s
  | Chr p =>
    match s with
    | String c s' => if chr_matches ic p c then k (Some c) s' else None
    | EmptyString => None
    end
  | Class f =>
    match s with
    | String c s' => if f c then k (Some c) s' else None
    | EmptyString => None
    end
  | Seq a b => rmatch ic a prev s (λ prev' s', rmatch ic b prev' s' k)
  | Alt a b =>
    match rmatch ic a prev s k with
    | Some rest => Some rest
    | None => rmatch ic b prev s k
    end
  | Star a =>
    (fix iterate (fuel : nat) (prev : option ascii) (s : string) {struct fuel} : option string :=
       match fuel with
       | O => k prev s
       | S fuel' =>
         match rmatch ic a prev s
                 (λ prev' s', if String.length s' <? String.length s
                              then iterate fuel' prev' s' else None) with
         | Some rest => Some rest
         | None => k prev s
         end
       end) (String.length s) prev s
  | WordBoundary =>
    if xorb (is_word_opt prev) (is_word_opt (head_char s)) then k prev s else None
  | InputStart => match prev with None => k prev s | Some _ => None end
  | InputEnd => match s with EmptyString => k prev s | String _ _ => None end
  end.

(** The first [n] characters of a string. *)
Fixpoint string_take (n : nat) (s : string) : string :=
  match n, s with
  | S n', String c s' => String c (string_take n' s')
  | _, _ => EmptyString
  end.

(** The string without its first [n] characters. *)
Fixpoint string_drop (n : nat) (s : string) : string :=
  match n, s with
  | S n', String _ s' => string_drop n' s'
  | _, _ => s
  end.

Definition last_char (prev : option ascii) (s : string) : option ascii :=
  foldl (λ _ c, Some c) prev (list_ascii_of_string s).

(** The leftmost match at or after the start of [s]: the text before it, the
    matched text and the text after it. *)
Fixpoint regex_search (ic : bool) (r : regex) (prev : option ascii) (s : string)
    : option (string * string * string) :=
  match rmatch ic r prev s (λ _ rest, Some rest) with
  | Some rest => Some (EmptyString, string_take (String.length s - String.length rest) s, rest)
  | None =>
    match s with
    | EmptyString => None
    | String c s' =>
      match regex_search ic r (Some c) s' with
      | Some (before, matched, rest) => Some (String c before, matched, rest)
      | None => None
      end
    end
  end.

(** [r.test(s)] *)
Definition regex_test (ic : bool) (r : regex) (s : string) : bool :=
  bool_decide (is_Some (regex_search ic r None s)).

(** The successive matches of a pattern with the [g] flag: each search
    resumes where the previous match ended, one character further after an
    empty match. Each element is the text skipped before a match and the
    match; the second component is the text after the last match. *)
Fixpoint regex_scan (fuel : nat) (ic : bool) (r : regex) (prev : option ascii) (s : string)
    : list (string * string) * string :=
  match fuel with
  | O => ([], s)
  | S fuel' =>
    match regex_search ic r prev s with
    | None => ([], s)
    | Some (before, matched, rest) =>
      let prev' := last_char prev (before +:+ matched) in
      match matched, rest with
      | EmptyString, EmptyString => ([(before, matched)], rest)
      | EmptyString, String c rest' =>
        let '(ms, tail) := regex_scan fuel' ic r (Some c) rest' in
        ((before, matched) :: match ms with
                              | (b, m) :: ms' => (String c b, m) :: ms'
                              | [] => []
                              end,
         match ms with [] => String c tail | _ => tail end)
      | _, _ =>
        let '(ms, tail) := regex_scan fuel' ic r prev' rest in
        ((before, matched) :: ms, tail)
      end
    end
  end.

(** [s.match(r) ?? []] for a pattern with the [g] flag. *)
Definition regex_match_all (ic : bool) (r : regex) (s : string) : list string :=
  snd <$> (regex_scan (S (String.length s)) ic r None s).1.

(** [s.replace(r, "")] for a pattern with the [g] flag. *)
Definition regex_remove_all (ic : bool) (r : regex) (s : string) : string :=
  let '(ms, tail) := regex_scan (S (String.length s)) ic r None s in
  str_join "" (fst <$> ms) +:+ tail.

(** ** scheduler-routes.ts *)

Inductive RouteMode := dm | channel.

Record SchedulerRoute := mkRoute {
  channelId : string;
  threadTs : option string;
  mode : RouteMode
}.

#[export] Instance RouteMode_eq_dec : EqDecision RouteMode.
Proof. solve_decision. Defined.
#[export] Instance SchedulerRoute_eq_dec : EqDecision SchedulerRoute.
Proof. solve_decision. Defined.

(** class SchedulerRoutes: [latestRoute] and the [routesByJobId] map. *)
Record SchedulerRoutes := mkRoutes {
  latestRoute : option SchedulerRoute;
  routesByJobId : gmap string SchedulerRoute
}.

(** [new SchedulerRoutes()] *)
Definition newSchedulerRoutes : SchedulerRoutes :=
  {| latestRoute := None; routesByJobId := ∅ |}.

Definition setLatestRoute (route : SchedulerRoute) (t : SchedulerRoutes) : SchedulerRoutes :=
  {| latestRoute := Some route; routesByJobId := routesByJobId t |}.

Definition bindJob (jobId : string) (t : SchedulerRoutes) : SchedulerRoutes :=
  match latestRoute t with
  | None => t
  | Some r => {| latestRoute := latestRoute t; routesByJobId := <[jobId := r]> (routesByJobId t) |}
  end.

Definition removeJob (jobId : string) (t : SchedulerRoutes) : SchedulerRoutes :=
  {| latestRoute := latestRoute t; routesByJobId := delete jobId (routesByJobId t) |}.

(** [this.routesByJobId.get(jobId) ?? this.latestRoute] *)
Definition resolve (jobId : string) (t : SchedulerRoutes) : option SchedulerRoute :=
  match routesByJobId t !! jobId with
  | Some r => Some r
  | None => latestRoute t
  end.

(** A method call on a [SchedulerRoutes] instance, and a history of calls. *)
Inductive RoutesCall :=
  | SetLatestRoute (route : SchedulerRoute)
  | BindJob (jobId : string)
  | RemoveJob (jobId : string).

#[export] Instance RoutesCall_eq_dec : EqDecision RoutesCall.
Proof. solve_decision. Defined.

Definition routes_call (c : RoutesCall) (t : SchedulerRoutes) : SchedulerRoutes :=
  match c with
  | SetLatestRoute r => setLatestRoute r t
  | BindJob j => bindJob j t
  | RemoveJob j => removeJob j t
  end.

(** Calls are applied oldest first. *)
Definition routes_calls (cs : list RoutesCall) (t : SchedulerRoutes) : SchedulerRoutes :=
  foldl (λ acc c, routes_call c acc) t cs.

(** The route of the most recent [setLatestRoute] call of a history. *)
Fixpoint last_set_route (cs : list RoutesCall) (init : option SchedulerRoute) : option SchedulerRoute :=
  match cs with
  | [] => init
  | SetLatestRoute r :: cs' => last_set_route cs' (Some r)
  | _ :: cs' => last_set_route cs' init
  end.

(** ** scheduler-bridge.ts *)

(** [SchedulerEventData["event"]]; every field is optional. *)
Record SchedulerEvent := mkEvent {
  ev_jobId : option string;
  ev_action : option string;
  ev_status : option string;
  ev_summary : option string;
  ev_error : option string
}.

(** An element of the [content] array of a tool result. *)
Inductive NestedBlock :=
  | NestedText (text : option string)
  | NestedOther.

(** The [content] of a tool result: a string, an array, or neither. *)
Inductive ToolResultContent :=
  | ToolResultString (s : string)
  | ToolResultBlocks (nested : list NestedBlock)
  | ToolResultOther.

(** A block of [message.content]: a text block (its [text] may be missing or
    not a string), a tool result, or any other value. *)
Inductive ContentBlock :=
  | TextBlock (text : option string)
  | ToolResultBlock (content : ToolResultContent)
  | OtherBlock.

(** [message.message?.content]: a string, an array of blocks, or neither. *)
Inductive MessageContent :=
  | ContentString (s : string)
  | ContentBlocks (blocks : list ContentBlock)
  | ContentOther.

(** The messages of the runtime's event stream, with the fields the server
    reads. In a system message [data] is [None] when [message.data] is not an
    object and [Some None] when it is an object without an [event] field. *)
Inductive SDKMessage :=
  | SystemMessage (subtype : option string) (session_id : string)
      (tools : option (list string)) (data : option (option SchedulerEvent))
  | AssistantMessage (session_id : string) (content : MessageContent)
  | UserMessage (content : MessageContent)
  | ResultMessage (session_id : string) (is_error : bool) (result : option string)
  | OtherMessage (type : string).

Definition parseSchedulerEventData (data : option (option SchedulerEvent))
    : option (option SchedulerEvent) :=
  data.

Definition formatFinishedEventText (event : SchedulerEvent) : string :=
  let status := default "ok" (ev_status event) in
  let details :=
    default "completed"
      (or_else (or_else (ev_summary event) (ev_error event)) (Some "completed")) in
  let job := default "unknown" (ev_jobId event) in
  if String.eqb status "ok" then "Scheduled job " +:+ job +:+ ": " +:+ details
  else if String.eqb status "skipped" then "Scheduled job " +:+ job +:+ " was skipped: " +:+ details
  else "Scheduled job " +:+ job +:+ " failed: " +:+ details.

(** [WorkspaceSchedulerState] without its two closures. *)
Record WorkspaceSchedulerState := mkWsState {
  routes : SchedulerRoutes;
  closing : bool
}.

(** What [handleMessage] does to the outside world. *)
Inductive BridgeEffect :=
  | Delivery (route : SchedulerRoute) (text : string)
  | LogWarn (msg : string)
  | LogError (msg : string).

Section Bridge.
(** The delivery callback of the chat platform: [true] when the returned
    promise resolves, [false] when it rejects. *)
Variable onDelivery : SchedulerRoute → string → bool.

(** [SchedulerBridge.handleMessage]: the new [workspaces] map and the
    effects, oldest first. *)
Definition handleMessage (workspaces : gmap string WorkspaceSchedulerState)
    (workspaceDir : string) (message : SDKMessage)
    : gmap string WorkspaceSchedulerState * list BridgeEffect :=
  match message with
  | SystemMessage (Some "scheduler_event") _ _ data =>
    match workspaces !! workspaceDir with
    | None => (workspaces, [])
    | Some state =>
      match mjoin (parseSchedulerEventData data) with
      | None => (workspaces, [])
      | Some event =>
        match ev_action event, ev_jobId event with
        | Some action, Some jobId =>
          if negb (truthy action) || negb (truthy jobId) then (workspaces, [])
          else if String.eqb action "added" then
            (<[workspaceDir := {| routes := bindJob jobId (routes state);
                                  closing := closing state |}]> workspaces, [])
          else if String.eqb action "removed" then
            (<[workspaceDir := {| routes := removeJob jobId (routes state);
                                  closing := closing state |}]> workspaces, [])
          else if negb (String.eqb action "finished") then (workspaces, [])
          else
            match resolve jobId (routes state) with
            | None => (workspaces, [LogWarn "Scheduler event has no route mapping"])
            | Some route =>
              let text := formatFinishedEventText event in
              if onDelivery route text
              then (workspaces, [Delivery route text])
              else (workspaces, [Delivery route text; LogError "Failed to deliver scheduled message"])
            end
        | _, _ => (workspaces, [])
        end
      end
    end
  | _ => (workspaces, [])
  end.

(** The stream of one workspace is handled in order. *)
Definition consumeMessages (workspaces : gmap string WorkspaceSchedulerState)
    (workspaceDir : string) (ms : list SDKMessage)
    : gmap string WorkspaceSchedulerState * list BridgeEffect :=
  foldl (λ acc m, let r := handleMessage acc.1 workspaceDir m in (r.1, acc.2 ++ r.2))
        (workspaces, []) ms.
End Bridge.

Definition deliveries (es : list BridgeEffect) : list (SchedulerRoute * string) :=
  omap (λ e, match e with Delivery r t => Some (r, t) | _ => None end) es.

Definition warnings (es : list BridgeEffect) : list string :=
  omap (λ e, match e with LogWarn m => Some m | _ => None end) es.

(** A [finished] scheduler event as it arrives on the stream. *)
Definition finished_message (session : string) (tools : option (list string)) (jobId : string)
    (status summary error : option string) : SDKMessage :=
  SystemMessage (Some "scheduler_event") session tools
    (Some (Some {| ev_jobId := Some jobId; ev_action := Some "finished";
                   ev_status := status; ev_summary := summary; ev_error := error |})).

(** ** queue.ts *)

(** A work item is a closure [() => Promise<void>]; it is identified by a
    number, and how its promise settles is decided by the environment. *)
Definition Work := nat.

Inductive Outcome := Resolves | Rejects.

Inductive QueueEvent :=
  | Started (w : Work)
  | Finished (w : Work).

(** class ChannelQueue. [queue] and [processing] are its two fields;
    [running] lists the work items whose call has been made and whose promise
    has not yet settled, [trace] records every start and end, and [errors]
    what the [catch] block reported with [console.error]. *)
Record ChannelQueue := mkQueue {
  queue : list Work;
  processing : bool;
  running : list Work;
  trace : list QueueEvent;
  errors : list Work
}.

(** [new ChannelQueue()] *)
Definition newChannelQueue : ChannelQueue :=
  {| queue := []; processing := false; running := []; trace := []; errors := [] |}.

(** [processNext] up to its [await]: returns at once when an item is being
    processed or nothing is queued, otherwise sets the flag, shifts the head
    of the queue and calls it. *)
Definition processNext (q : ChannelQueue) : ChannelQueue :=
  if processing q || bool_decide (length (queue q) = 0) then q
  else
    match queue q with
    | [] => {| queue := []; processing := true; running := running q;
               trace := trace q; errors := errors q |}
    | work :: rest =>
      {| queue := rest; processing := true; running := running q ++ [work];
         trace := trace q ++ [Started work]; errors := errors q |}
    end.

(** [enqueue(work)] *)
Definition enqueue (work : Work) (q : ChannelQueue) : ChannelQueue :=
  processNext {| queue := queue q ++ [work]; processing := processing q;
                 running := running q; trace := trace q; errors := errors q |}.

(** The rest of [processNext] after its [await], run when the promise of the
    [i]-th running item settles: the [catch] block reports a rejection, the
    [finally] block clears the flag and calls [processNext] again. *)
Definition settle (i : nat) (o : Outcome) (q : ChannelQueue) : ChannelQueue :=
  match running q !! i with
  | None => q
  | Some work =>
    processNext
      {| queue := queue q; processing := false; running := delete i (running q);
         trace := trace q ++ [Finished work];
         errors := match o with Rejects => errors q ++ [work] | Resolves => errors q end |}
  end.

(** What can happen to a queue: a caller enqueues work, or the promise of a
    running item settles. *)
Inductive QueueAction :=
  | Enqueue (work : Work)
  | Settle (i : nat) (o : Outcome).

Definition queue_step (a : QueueAction) (q : ChannelQueue) : ChannelQueue :=
  match a with
  | Enqueue w => enqueue w q
  | Settle i o => settle i o q
  end.

Definition queue_run (acts : list QueueAction) (q : ChannelQueue) : ChannelQueue :=
  foldl (λ acc a, queue_step a acc) q acts.

(** The work items a schedule enqueues, in order. *)
Definition enqueued (acts : list QueueAction) : list Work :=
  omap (λ a, match a with Enqueue w => Some w | Settle _ _ => None end) acts.

(** Every running item settles, with the outcomes [os] in turn. *)
Definition settle_all (os : list Outcome) (q : ChannelQueue) : ChannelQueue :=
  foldl (λ acc o, settle 0 o acc) q os.

(** The trace of items run strictly one after the other. *)
Definition sequential_trace (ws : list Work) : list QueueEvent :=
  ws ≫= (λ w, [Started w; Finished w]).

(** class QueueManager: one queue per channel id, created on first use. *)
Definition QueueManager := gmap string ChannelQueue.

Definition getQueue (channelId : string) (m : gmap string ChannelQueue)
    : ChannelQueue * gmap string ChannelQueue :=
  match m !! channelId with
  | Some q => (q, m)
  | None => (newChannelQueue, <[channelId := newChannelQueue]> m)
  end.

(** An action on the queue of a channel, reached through the manager; the
    queue object is updated in place. *)
Definition manager_step (ca : string * QueueAction) (m : gmap string ChannelQueue)
    : gmap string ChannelQueue :=
  let '(q, m') := getQueue ca.1 m in
  <[ca.1 := queue_step ca.2 q]> m'.

Definition manager_run (acts : list (string * QueueAction)) (m : gmap string ChannelQueue)
    : gmap string ChannelQueue :=
  foldl (λ acc ca, manager_step ca acc) m acts.

(** The actions of a global schedule that concern one channel. *)
Definition on_channel (channelId : string) (acts : list (string * QueueAction)) : list QueueAction :=
  omap (λ ca, if decide (ca.1 = channelId) then Some ca.2 else None) acts.

(** ** sessions.ts

    The session store behind [getSessionId], [saveSessionId] and
    [clearSessionId]. The design document describes it as a single opaque
    string per workspace, read before each run, written after a run and
    cleared when resumption is unsafe; the store is a map from workspace
    directory to session id. *)

(** Modelled from the spec: [getSessionId] of [sessions.ts], the persisted
    session id of a workspace, if any. *)
Definition getSessionId (workspaceDir : string) (store : gmap string string) : option string :=
  store !! workspaceDir.

(** Modelled from the spec: [saveSessionId] of [sessions.ts], which persists
    a session id for a workspace, replacing the previous one. *)
Definition saveSessionId (workspaceDir sessionId : string) (store : gmap string string)
    : gmap string string :=
  <[workspaceDir := sessionId]> store.

(** Modelled from the spec: [clearSessionId] of [sessions.ts], after which
    nothing is persisted for the workspace. *)
Definition clearSessionId (workspaceDir : string) (store : gmap string string)
    : gmap string string :=
  delete workspaceDir store.

(** ** The agent runner: the message loop of [runAgent] and session persistence *)

Definition FILE_SEND_TOOL_CANDIDATES : list string := ["SendFileToChat"; "send_file_to_chat"].

(** [FILE_SEND_TOOL_CANDIDATES.filter((tool) => toolNames.includes(tool))] *)
Definition availableFileSendTools (toolNames : list string) : list string :=
  filter (λ tool, tool ∈ toolNames) FILE_SEND_TOOL_CANDIDATES.

Definition collectContentStrings (content : MessageContent) : list string :=
  match content with
  | ContentString s => [s]
  | ContentOther => []
  | ContentBlocks blocks =>
    blocks ≫= (λ block,
      match block with
      | TextBlock (Some text) => if truthy (trim text) then [text] else []
      | TextBlock None => []
      | ToolResultBlock (ToolResultString s) => if truthy (trim s) then [s] else []
      | ToolResultBlock (ToolResultBlocks nested) =>
        nested ≫= (λ n,
          match n with
          | NestedText (Some t) => if truthy (trim t) then [t] else []
          | _ => []
          end)
      | ToolResultBlock ToolResultOther => []
      | OtherBlock => []
      end)
  end.

Definition extractAssistantText (message : SDKMessage) : option string :=
  match message with
  | AssistantMessage _ (ContentBlocks blocks) =>
    let texts :=
      filter (λ t, truthy t = true)
        (trim <$> omap (λ block, match block with
                                  | TextBlock text => Some (default "" text)
                                  | _ => None
                                  end) blocks) in
    match texts with
    | [] => None
    | _ => Some (str_join (String "010" "") texts)
    end
  | _ => None
  end.

(** The local variables of [runAgent] that the message loop updates, and the
    texts handed to [onMessage]. *)
Record RunState := mkRunState {
  sessionId : string;
  resultText : option string;
  missingFileSendTools : bool;
  observedText : list string;
  messageSent : bool;
  onMessageCalls : list string
}.

Definition initialRunState : RunState :=
  {| sessionId := ""; resultText := None; missingFileSendTools := false;
     observedText := []; messageSent := false; onMessageCalls := [] |}.

Section Runner.
(** [params.onMessage], when given: [true] when its promise resolves,
    [false] when it rejects. *)
Variable onMessage : option (string → bool).

(** One iteration of [for await (const message of q)]. *)
Definition runMessage (st : RunState) (message : SDKMessage) : RunState :=
  match message with
  | SystemMessage _ session_id tools _ =>
    let toolNames := default [] tools in
    {| sessionId := session_id;
       resultText := resultText st;
       missingFileSendTools :=
         if bool_decide (length (availableFileSendTools toolNames) = 0) then true
         else missingFileSendTools st;
       observedText := observedText st;
       messageSent := messageSent st;
       onMessageCalls := onMessageCalls st |}
  | AssistantMessage _ content =>
    let observed := observedText st ++ collectContentStrings content in
    match extractAssistantText message, onMessage with
    | Some assistantText, Some deliver =>
      {| sessionId := sessionId st;
         resultText := resultText st;
         missingFileSendTools := missingFileSendTools st;
         observedText := observed;
         messageSent := if deliver assistantText then true else messageSent st;
         onMessageCalls := onMessageCalls st ++ [assistantText] |}
    | _, _ =>
      {| sessionId := sessionId st;
         resultText := resultText st;
         missingFileSendTools := missingFileSendTools st;
         observedText := observed;
         messageSent := messageSent st;
         onMessageCalls := onMessageCalls st |}
    end
  | UserMessage content =>
    {| sessionId := sessionId st;
       resultText := resultText st;
       missingFileSendTools := missingFileSendTools st;
       observedText := observedText st ++ collectContentStrings content;
       messageSent := messageSent st;
       onMessageCalls := onMessageCalls st |}
  | ResultMessage session_id is_error result =>
    match is_error, result with
    | false, Some r =>
      {| sessionId := session_id;
         resultText := Some r;
         missingFileSendTools := missingFileSendTools st;
         observedText := observedText st ++ [r];
         messageSent := messageSent st;
         onMessageCalls := onMessageCalls st |}
    | _, _ =>
      {| sessionId := session_id;
         resultText := resultText st;
         missingFileSendTools := missingFileSendTools st;
         observedText := observedText st;
         messageSent := messageSent st;
         onMessageCalls := onMessageCalls st |}
    end
  | OtherMessage _ => st
  end.

(** The whole loop over the stream. *)
Definition runMessages (messages : list SDKMessage) : RunState :=
  foldl runMessage initialRunState messages.
End Runner.

(** [if (!sessionId) sessionId = q.getSessionId()] *)
Definition observedSessionId (st : RunState) (querySessionId : string) : string :=
  if truthy (sessionId st) then sessionId st else querySessionId.

(** A call of [runAgent] into the session store. *)
Inductive SessionCall :=
  | ClearSessionId (workspaceDir : string)
  | SaveSessionId (workspaceDir sessionId : string).

Definition run_session_call (c : SessionCall) (store : gmap string string) : gmap string string :=
  match c with
  | ClearSessionId workspaceDir => clearSessionId workspaceDir store
  | SaveSessionId workspaceDir sessionId => saveSessionId workspaceDir sessionId store
  end.

(** The two statements of [runAgent] after [q.close()]: the calls they make
    into the session store, in order. *)
Definition sessionCalls (workspaceDir : string) (existingSessionId : option string)
    (missing : bool) (sessionId : string) : list SessionCall :=
  (if missing && truthy_opt existingSessionId then [ClearSessionId workspaceDir] else [])
  ++ (if truthy sessionId && negb (missing && truthy_opt existingSessionId)
      then [SaveSessionId workspaceDir sessionId] else []).

Definition persistSession (workspaceDir : string) (existingSessionId : option string)
    (missing : bool) (sessionId : string) (store : gmap string string) : gmap string string :=
  foldl (λ acc c, run_session_call c acc) store
        (sessionCalls workspaceDir existingSessionId missing sessionId).

(** The calls into the session store made by [runAgent] on the stream
    [messages], where [querySessionId] is what [q.getSessionId()] answers,
    and the session store after them. *)
Definition runAgent_sessionCalls (onMessage : option (string → bool)) (workspaceDir : string)
    (messages : list SDKMessage) (querySessionId : string) (store : gmap string string)
    : list SessionCall :=
  let existingSessionId := getSessionId workspaceDir store in
  let st := runMessages onMessage messages in
  sessionCalls workspaceDir existingSessionId (missingFileSendTools st)
    (observedSessionId st querySessionId).

Definition runAgent_sessions (onMessage : option (string → bool)) (workspaceDir : string)
    (messages : list SDKMessage) (querySessionId : string) (store : gmap string string)
    : gmap string string :=
  let existingSessionId := getSessionId workspaceDir store in
  let st := runMessages onMessage messages in
  persistSession workspaceDir existingSessionId (missingFileSendTools st)
    (observedSessionId st querySessionId) store.

(** A session is degraded when some system event of the run reports no
    file-return-capable tool. *)
Definition degraded (messages : list SDKMessage) : bool :=
  existsb (λ m, match m with
                | SystemMessage _ _ tools _ =>
                  bool_decide (availableFileSendTools (default [] tools) = [])
                | _ => false
                end) messages.

(** The session id named by the last system or result event, if any. *)
Definition streamSessionId (messages : list SDKMessage) : string :=
  foldl (λ acc m, match m with
                  | SystemMessage _ sid _ _ => sid
                  | ResultMessage sid _ _ => sid
                  | _ => acc
                  end) "" messages.

(** ** node:path (POSIX) and node:fs *)

(** [s.split(sep)] for a one-character separator. *)
Fixpoint split_on (sep : ascii) (s : string) : list string :=
  match s with
  | EmptyString => [EmptyString]
  | String c s' =>
    let r := split_on sep s' in
    if Ascii.eqb c sep then EmptyString :: r
    else match r with
         | h :: t => String c h :: t
         | [] => [String c EmptyString]
         end
  end.

(** [normalizeString] of node:path on the segments of a path: empty segments
    and [.] are dropped, [..] removes the segment before it; above the start
    [..] is kept only when [allowAboveRoot]. *)
Definition normalize_step (allowAboveRoot : bool) (acc : list string) (seg : string) : list string :=
  if String.eqb seg "" || String.eqb seg "." then acc
  else if String.eqb seg ".." then
    match last acc with
    | Some l =>
      if String.eqb l ".." then (if allowAboveRoot then acc ++ [".."] else acc)
      else removelast acc
    | None => if allowAboveRoot then [".."] else []
    end
  else acc ++ [seg].

Definition normalize_segments (allowAboveRoot : bool) (path : string) : list string :=
  foldl (normalize_step allowAboveRoot) [] (split_on "/" path).

(** The right-to-left scan of [path.resolve]: arguments are prepended until
    an absolute one is met, the working directory standing before the first
    argument. *)
Fixpoint resolve_scan (cwd : string) (rev_paths : list string) (acc : string) : string :=
  match rev_paths with
  | [] => cwd +:+ "/" +:+ acc
  | p :: rest =>
    if String.eqb p "" then resolve_scan cwd rest acc
    else if startsWith p "/" then p +:+ "/" +:+ acc
    else resolve_scan cwd rest (p +:+ "/" +:+ acc)
  end.

(** [path.resolve(...paths)] in the working directory [cwd] (an absolute
    path). *)
Definition path_resolve (cwd : string) (paths : list string) : string :=
  "/" +:+ str_join "/" (normalize_segments false (resolve_scan cwd (rev paths) "")).

(** [path.normalize(p)] *)
Definition path_normalize (p : string) : string :=
  match p with
  | EmptyString => "."
  | String c _ =>
    let isAbsolute := Ascii.eqb c "/" in
    let trailingSeparator := endsWith p "/" in
    let body := str_join "/" (normalize_segments (negb isAbsolute) p) in
    match body with
    | EmptyString => if isAbsolute then "/" else if trailingSeparator then "./" else "."
    | _ =>
      let body' := if trailingSeparator then body +:+ "/" else body in
      if isAbsolute then "/" +:+ body' else body'
    end
  end.

(** [path.join(...paths)] *)
Definition path_join (paths : list string) : string :=
  match filter (λ p, truthy p = true) paths with
  | [] => "."
  | ps => path_normalize (str_join "/" ps)
  end.

(** [path.basename(p)]: the last non-empty segment. *)
Definition basename (p : string) : string :=
  default "" (last (filter (λ seg, truthy seg = true) (split_on "/" p))).

(** Removal of the longest common prefix of two segment lists. *)
Fixpoint strip_common (from to : list string) : list string * list string :=
  match from, to with
  | f :: from', t :: to' => if String.eqb f t then strip_common from' to' else (from, to)
  | _, _ => (from, to)
  end.

(** [path.relative(from, to)] *)
Definition path_relative (cwd from to : string) : string :=
  let '(up, down) :=
    strip_common (normalize_segments false (path_resolve cwd [from]))
                 (normalize_segments false (path_resolve cwd [to])) in
  str_join "/" (((λ _, "..") <$> up) ++ down).

(** [s.replaceAll("\\", "/")] *)
Fixpoint backslashes_to_slashes (s : string) : string :=
  match s with
  | EmptyString => EmptyString
  | String c s' => String (if Ascii.eqb c "\" then "/"%char else c) (backslashes_to_slashes s')
  end.

(** A path segment holds no separator; a segment of a resolved path is
    moreover neither empty nor [.] nor [..]. *)
Fixpoint slash_free (s : string) : bool :=
  match s with
  | EmptyString => true
  | String c s' => negb (Ascii.eqb c "/") && slash_free s'
  end.

Definition clean_segment (s : string) : Prop :=
  slash_free s = true ∧ s ≠ "" ∧ s ≠ "." ∧ s ≠ "..".

(** A regular file: its content and its modification time in
    milliseconds. *)
Record FileNode := mkFile {
  content : string;
  mtimeMs : Z
}.

(** The file system: the regular files by absolute normalized path.
    Directories are not represented; [mkdir] with [recursive] changes
    nothing, and a write to a path always succeeds. *)
Definition existsSync (fs : gmap string FileNode) (p : string) : bool :=
  bool_decide (is_Some (fs !! p)).

(** [readFile(p, "utf8")]; [None] when it throws. *)
Definition readFile (fs : gmap string FileNode) (p : string) : option string :=
  content <$> fs !! p.

(** [writeFile(p, data, "utf8")] at time [now]. *)
Definition writeFile (now : Z) (p data : string) (fs : gmap string FileNode)
    : gmap string FileNode :=
  <[p := {| content := data; mtimeMs := now |}]> fs.

(** [statSync(p).mtimeMs]; [None] when it throws. *)
Definition statMtimeMs (fs : gmap string FileNode) (p : string) : option Z :=
  mtimeMs <$> fs !! p.

(** ** upload-tool.ts: the upload collector and the SendFileToChat handler *)

(** class UploadCollector *)
Record UploadCollector := mkCollector {
  pending : list string;
  pendingMessages : list string
}.

Definition newUploadCollector : UploadCollector :=
  {| pending := []; pendingMessages := [] |}.

Definition collect (filePath : string) (c : UploadCollector) : UploadCollector :=
  {| pending := pending c ++ [filePath]; pendingMessages := pendingMessages c |}.

Definition drain (c : UploadCollector) : list string * UploadCollector :=
  (pending c, {| pending := []; pendingMessages := pendingMessages c |}).

Definition collectMessage (message : string) (c : UploadCollector) : UploadCollector :=
  if negb (truthy (trim message)) then c
  else {| pending := pending c; pendingMessages := pendingMessages c ++ [message] |}.

Definition drainMessages (c : UploadCollector) : list string * UploadCollector :=
  (pendingMessages c, {| pending := pending c; pendingMessages := [] |}).

(** [queueFile], the handler of the SendFileToChat tool inside
    [createUploadMcpServer(collector, workspaceDir)]; [filePath] is what the
    tool call supplies for [file_path]. *)
Definition queueFile (cwd : string) (fs : gmap string FileNode) (workspaceDir : string)
    (filePath : option string) (collector : UploadCollector) : string * UploadCollector :=
  let absWorkspace := path_resolve cwd [workspaceDir] in
  let absPath := path_resolve cwd [default "" filePath] in
  if negb (startsWith absPath absWorkspace) then
    ("Error: file must be within your workspace " +:+ absWorkspace, collector)
  else if negb (existsSync fs absPath) then
    ("Error: file not found at " +:+ absPath, collector)
  else
    ("File queued for upload: " +:+ absPath, collect absPath collector).

(** A resolved path lies inside the workspace when it is the workspace root
    or below it: the segments of the root are a prefix of its segments. *)
Definition inside_workspace (workspaceRoot absPath : string) : bool :=
  bool_decide (normalize_segments false workspaceRoot `prefix_of` normalize_segments false absPath).

(** ** The agent runner: intent detection and the upload-selection policy *)

Definition DQUOTE : ascii := "034"%char.
Definition SQUOTE : ascii := "039"%char.
Definition BACKTICK : ascii := "096"%char.

Definition char_in (l : list ascii) (c : ascii) : bool := existsb (Ascii.eqb c) l.

(** [\s] *)
Definition cls_space : ascii → bool := is_js_space.

(** [[\s\w]] *)
Definition cls_space_or_word (c : ascii) : bool := is_js_space c || is_word_char c.

(** The class of characters other than white space, quotes and angle
    brackets. *)
Definition cls_name (c : ascii) : bool :=
  negb (is_js_space c || char_in [DQUOTE; SQUOTE; BACKTICK; "<"%char; ">"%char] c).

(** [[A-Za-z0-9_-]] *)
Definition cls_ext (c : ascii) : bool := is_word_char c || Ascii.eqb c "-".

(** The class of opening brackets and quotes. *)
Definition cls_open (c : ascii) : bool :=
  char_in ["("%char; "["%char; "{"%char; DQUOTE; SQUOTE; BACKTICK] c.

(** The class of closing brackets, quotes and punctuation. *)
Definition cls_close (c : ascii) : bool :=
  char_in [")"%char; "]"%char; "}"%char; DQUOTE; SQUOTE; BACKTICK;
           ","%char; "."%char; ";"%char; ":"%char; "!"%char; "?"%char] c.

(** [(attach|upload|send|share)] *)
Definition RE_VERB : regex := Alts [Lit "attach"; Lit "upload"; Lit "send"; Lit "share"].

(** The pattern of [hasUploadIntent], used with the [i] flag. *)
Definition RE_UPLOAD_INTENT : regex := Seqs [WordBoundary; RE_VERB; WordBoundary].

(** The three patterns of [shouldAutoSelectLatestUpload]. *)
Definition RE_VERB_DEMONSTRATIVE : regex :=
  Seqs [WordBoundary; RE_VERB; Plus (Class cls_space);
        Alts [Lit "this"; Lit "that"; Lit "it"]; WordBoundary].

Definition RE_THE_FILE : regex :=
  Seqs [WordBoundary; Alts [Lit "this"; Lit "that"; Lit "the"]; Plus (Class cls_space);
        Lit "file"; WordBoundary].

Definition RE_VERB_THEN_FILE : regex :=
  Seqs [WordBoundary; RE_VERB; WordBoundary; Star (Class cls_space_or_word);
        Alts [Lit "file"; Lit "attachment"]; WordBoundary].

(** The two patterns of [shouldAutoSelectAllUploads]. *)
Definition RE_PLURAL : regex := Seqs [WordBoundary; Alts [Lit "files"; Lit "attachments"]; WordBoundary].

Definition RE_BOTH : regex := Seqs [WordBoundary; Lit "both"; WordBoundary].

(** The two patterns of [inferRequestedFileNames]: a file name with an
    extension, and the wrapping punctuation stripped from a match. *)
Definition RE_FILE_NAME : regex :=
  Seqs [Plus (Class cls_name); Chr "."; Plus (Class cls_ext)].

Definition RE_WRAPPING : regex :=
  Alt (Seq InputStart (Plus (Class cls_open))) (Seq (Plus (Class cls_close)) InputEnd).

Definition hasUploadIntent (userMessage : string) : bool :=
  regex_test true RE_UPLOAD_INTENT userMessage.

Definition inferRequestedFileNames (userMessage : string) : list string :=
  let matches := regex_match_all false RE_FILE_NAME userMessage in
  let normalized :=
    basename <$> filter (λ v, truthy v = true)
                   ((λ value, regex_remove_all false RE_WRAPPING (trim value)) <$> matches) in
  unique normalized.

Definition shouldAutoSelectLatestUpload (userMessage : string) : bool :=
  if negb (hasUploadIntent userMessage) then false
  else if (0 <? length (inferRequestedFileNames userMessage)) then false
  else
    let lower := toLowerCase userMessage in
    if regex_test false RE_VERB_DEMONSTRATIVE lower then true
    else if regex_test false RE_THE_FILE lower then true
    else if regex_test false RE_VERB_THEN_FILE lower then true
    else false.

Definition shouldAutoSelectAllUploads (userMessage : string) : bool :=
  if negb (hasUploadIntent userMessage) then false
  else if (0 <? length (inferRequestedFileNames userMessage)) then false
  else
    let lower := toLowerCase userMessage in
    if regex_test false RE_PLURAL lower then true
    else if regex_test false RE_BOTH lower then true
    else false.

Definition BLOCKED_UPLOAD_PREFIXES : list string := [".papert/tools"; ".papert/.papert-claw-runtime"].

Section Policy.
(** The working directory of the server process and the file system. *)
Variable cwd : string.
Variable fs : gmap string FileNode.

Definition getAutoSelectionPriority (absPath workspaceRoot : string) : Z :=
  let rel := backslashes_to_slashes (path_relative cwd workspaceRoot absPath) in
  if startsWith rel "attachments/" then 3%Z
  else if String.eqb (toLowerCase (basename absPath)) "session.json" then 1%Z
  else 2%Z.

Definition isAttachmentCandidate (absPath workspaceRoot : string) : bool :=
  let rel := backslashes_to_slashes (path_relative cwd workspaceRoot absPath) in
  startsWith rel "attachments/".

Definition isUploadPathBlocked (absPath workspaceDir : string) : bool :=
  let rel := path_relative cwd workspaceDir absPath in
  if negb (truthy rel) || String.eqb rel "." || startsWith rel ".." then true
  else
    let posixRel := backslashes_to_slashes rel in
    existsb (λ prefix, String.eqb posixRel prefix || startsWith posixRel (prefix +:+ "/"))
            BLOCKED_UPLOAD_PREFIXES.

(** [requestedSet.has(lowerBase) || requested.some((name) => lowerPath.endsWith(name))] *)
Definition matchedRequestedName (requested : list string) (abs : string) : bool :=
  let lowerPath := toLowerCase abs in
  let lowerBase := basename lowerPath in
  bool_decide (lowerBase ∈ requested) || existsb (λ name, endsWith lowerPath name) requested.

(** The three collections the first loop of [enforceUploadPolicy] fills. *)
Record PolicyState := mkPolicy {
  accepted : list string;
  dropped : list (string * string);
  autoCandidates : list string
}.

Definition policy_drop (filePath reason : string) (st : PolicyState) : PolicyState :=
  {| accepted := accepted st; dropped := dropped st ++ [(filePath, reason)];
     autoCandidates := autoCandidates st |}.

(** The checks that apply to every candidate: inside the workspace, on
    disk, and not under a reserved subpath. [None] when the candidate
    passes, else the reason it is dropped for. *)
Definition candidate_rejection (workspaceRoot abs : string) : option string :=
  if negb (startsWith abs (workspaceRoot +:+ "/")) && negb (String.eqb abs workspaceRoot)
  then Some "outside_workspace"
  else if negb (existsSync fs abs) then Some "missing"
  else if isUploadPathBlocked abs workspaceRoot then Some "blocked_internal_path"
  else None.

(** One iteration of [for (const candidate of uploadPaths)]. *)
Definition policy_step (workspaceRoot : string) (requested : list string)
    (autoSelectLatest autoSelectAll : bool) (st : PolicyState) (candidate : string)
    : PolicyState :=
  let abs := path_resolve cwd [candidate] in
  match candidate_rejection workspaceRoot abs with
  | Some reason => policy_drop abs reason st
  | None =>
    if bool_decide (length (unique requested) = 0) then
      if autoSelectLatest || autoSelectAll then
        {| accepted := accepted st; dropped := dropped st;
           autoCandidates := autoCandidates st ++ [abs] |}
      else policy_drop abs "no_explicit_file_request" st
    else if negb (matchedRequestedName requested abs) then
      policy_drop abs "not_user_requested" st
    else
      {| accepted := set_insert (accepted st) abs; dropped := dropped st;
         autoCandidates := autoCandidates st |}
  end.

(** The choice among the candidates under "send everything". *)
Definition selectAll (workspaceRoot : string) (autoCandidates : list string) : list string :=
  let attachmentCandidates :=
    filter (λ path, isAttachmentCandidate path workspaceRoot = true) autoCandidates in
  let chosen :=
    if (0 <? length attachmentCandidates) then attachmentCandidates
    else filter (λ path, String.eqb (toLowerCase (basename path)) "session.json" = false)
                autoCandidates in
  if (0 <? length chosen) then chosen else autoCandidates.

(** A number or [Number.NEGATIVE_INFINITY]. *)
Inductive num := NegInf | Fin (z : Z).

Definition num_gt (a b : num) : bool :=
  match a, b with
  | NegInf, _ => false
  | Fin _, NegInf => true
  | Fin x, Fin y => (y <? x)%Z
  end.

Definition num_eq (a b : num) : bool :=
  match a, b with
  | NegInf, NegInf => true
  | Fin x, Fin y => (x =? y)%Z
  | _, _ => false
  end.

(** [statSync(path).mtimeMs], or negative infinity when that throws. *)
Definition mtimeOf (path : string) : num :=
  match statMtimeMs fs path with Some t => Fin t | None => NegInf end.

(** One iteration of the loop that picks the latest candidate; the state is
    [selected], [selectedMtime] and [selectedPriority]. *)
Definition latest_step (workspaceRoot : string) (st : string * num * num) (path : string)
    : string * num * num :=
  let '(selected, selectedMtime, selectedPriority) := st in
  let mtime := mtimeOf path in
  let priority := Fin (getAutoSelectionPriority path workspaceRoot) in
  if num_gt priority selectedPriority
     || (num_eq priority selectedPriority
         && (num_gt mtime selectedMtime
             || (num_eq mtime selectedMtime && String.ltb selected path)))
  then (path, mtime, priority)
  else st.

(** The choice among the candidates under "send the latest"; the list is
    not empty, [first] being [autoCandidates[0]]. *)
Definition selectLatest (workspaceRoot : string) (first : string) (autoCandidates : list string)
    : string :=
  (foldl (latest_step workspaceRoot) (first, NegInf, NegInf) autoCandidates).1.1.

Definition enforceUploadPolicy (uploadPaths : list string) (userMessage workspaceDir : string)
    : list string :=
  let workspaceRoot := path_resolve cwd [workspaceDir] in
  let requested := toLowerCase <$> inferRequestedFileNames userMessage in
  let noneRequested := bool_decide (length (unique requested) = 0) in
  let autoSelectLatest := noneRequested && shouldAutoSelectLatestUpload userMessage in
  let autoSelectAll := noneRequested && shouldAutoSelectAllUploads userMessage in
  let st := foldl (policy_step workspaceRoot requested autoSelectLatest autoSelectAll)
                  {| accepted := []; dropped := []; autoCandidates := [] |} uploadPaths in
  let accepted1 :=
    if autoSelectAll && (0 <? length (autoCandidates st))
    then foldl set_insert (accepted st) (selectAll workspaceRoot (autoCandidates st))
    else accepted st in
  let accepted2 :=
    if negb autoSelectAll && autoSelectLatest && (0 <? length (autoCandidates st))
    then match autoCandidates st with
         | first :: _ => set_insert accepted1 (selectLatest workspaceRoot first (autoCandidates st))
         | [] => accepted1
         end
    else accepted1 in
  accepted2.
End Policy.

(** ** The agent runner: the tool-output queue *)

(** A value produced by [JSON.parse]. A number keeps its lexeme; an object
    keeps its members in source order. *)
Inductive JSON :=
  | JNull
  | JBool (b : bool)
  | JNumber (lexeme : string)
  | JString (s : string)
  | JArray (items : list JSON)
  | JObject (members : list (string * JSON)).

(** [obj[key]] on a parsed object: the last member with that key. *)
Definition json_get (key : string) (members : list (string * JSON)) : option JSON :=
  foldl (λ acc kv, if String.eqb kv.1 key then Some kv.2 else acc) None members.

(** [items.filter((item) => typeof item === "string")] *)
Definition json_strings (items : list JSON) : list string :=
  omap (λ item, match item with JString s => Some s | _ => None end) items.

(** interface ToolQueueSnapshot *)
Record ToolQueueSnapshot := mkSnapshot {
  uploads : list string;
  messages : list string
}.

Definition emptySnapshot : ToolQueueSnapshot := {| uploads := []; messages := [] |}.

(** [JSON.stringify({ uploads: [], messages: [] })] *)
Definition EMPTY_QUEUE_JSON : string :=
  "{" +:+ String DQUOTE "uploads" +:+ String DQUOTE ":[]," +:+
  String DQUOTE "messages" +:+ String DQUOTE ":[]}".

(** The value [JSON.parse] gives back for [EMPTY_QUEUE_JSON]. *)
Definition EMPTY_QUEUE_VALUE : JSON :=
  JObject [("uploads", JArray []); ("messages", JArray [])].

(** [join(".papert", ".papert-claw-runtime", "tool-queue.json")] *)
Definition TOOL_QUEUE_RELATIVE_PATH : string :=
  path_join [".papert"; ".papert-claw-runtime"; "tool-queue.json"].

Definition getWorkspaceToolQueuePath (workspaceDir : string) : string :=
  path_join [workspaceDir; TOOL_QUEUE_RELATIVE_PATH].

(** [mkdir] changes nothing in this file system; the write is what counts. *)
Definition resetWorkspaceToolQueue (now : Z) (workspaceDir : string) (fs : gmap string FileNode)
    : gmap string FileNode :=
  writeFile now (getWorkspaceToolQueuePath workspaceDir) EMPTY_QUEUE_JSON fs.

Section ToolQueue.
Variable cwd : string.

(** [JSON.parse]; [None] when it throws. *)
Variable JSON_parse : string → option JSON.

Definition normalizeQueueSnapshot (fs : gmap string FileNode) (value : JSON)
    (workspaceDir : string) : ToolQueueSnapshot :=
  match value with
  | JObject obj =>
    let workspaceRoot := path_resolve cwd [workspaceDir] in
    let uploads :=
      match json_get "uploads" obj with
      | Some (JArray items) =>
        filter (λ item, startsWith item workspaceRoot && existsSync fs item = true)
               ((λ item, path_resolve cwd [workspaceRoot; item]) <$> json_strings items)
      | _ => []
      end in
    let messages :=
      match json_get "messages" obj with
      | Some (JArray items) => filter (λ item, truthy item = true) (trim <$> json_strings items)
      | _ => []
      end in
    {| uploads := unique uploads; messages := unique messages |}
  | JArray _ => {| uploads := unique []; messages := unique [] |}
  | _ => emptySnapshot
  end.

(** [drainWorkspaceToolQueue]: the [try] block reads, parses and
    normalizes; a failure of the read or of the parse is caught and gives
    the empty snapshot; the [finally] block resets the queue. *)
Definition drainWorkspaceToolQueue (now : Z) (workspaceDir : string) (fs : gmap string FileNode)
    : ToolQueueSnapshot * gmap string FileNode :=
  let queuePath := getWorkspaceToolQueuePath workspaceDir in
  let snapshot :=
    match readFile fs queuePath with
    | Some raw =>
      match JSON_parse raw with
      | Some value => normalizeQueueSnapshot fs value workspaceDir
      | None => emptySnapshot
      end
    | None => emptySnapshot
    end in
  (snapshot, resetWorkspaceToolQueue now workspaceDir fs).
End ToolQueue.

(** *** A JSON reader

    A recursive-descent reader for JSON texts over the code units 0..255,
    used to run the queue on concrete file contents. *)

Definition is_json_ws (c : ascii) : bool :=
  char_in [" "%char; "009"%char; "010"%char; "013"%char] c.

Fixpoint skip_ws (s : string) : string :=
  match s with
  | String c s' => if is_json_ws c then skip_ws s' else s
  | EmptyString => EmptyString
  end.

Definition is_digit (c : ascii) : bool := (48 <=? code c) && (code c <=? 57).

Definition hex_value (c : ascii) : option nat :=
  let n := code c in
  if (48 <=? n) && (n <=? 57) then Some (n - 48)
  else if (65 <=? n) && (n <=? 70) then Some (n - 55)
  else if (97 <=? n) && (n <=? 102) then Some (n - 87)
  else None.

(** The characters of a string after its opening quote, up to the closing
    quote; an escape [\uXXXX] is read when it names a code unit below 256. *)
Fixpoint read_string (s : string) : option (string * string) :=
  match s with
  | EmptyString => None
  | String c s' =>
    if Ascii.eqb c DQUOTE then Some (EmptyString, s')
    else if Ascii.eqb c "\" then
      match s' with
      | String e s'' =>
        let simple (x : ascii) :=
          match read_string s'' with
          | Some (t, rest) => Some (String x t, rest)
          | None => None
          end in
        if Ascii.eqb e DQUOTE then simple DQUOTE
        else if Ascii.eqb e "\" then simple "\"%char
        else if Ascii.eqb e "/" then simple "/"%char
        else if Ascii.eqb e "b" then simple "008"%char
        else if Ascii.eqb e "f" then simple "012"%char
        else if Ascii.eqb e "n" then simple "010"%char
        else if Ascii.eqb e "r" then simple "013"%char
        else if Ascii.eqb e "t" then simple "009"%char
        else if Ascii.eqb e "u" then
          match s'' with
          | String h1 (String h2 (String h3 (String h4 s5))) =>
            match hex_value h1, hex_value h2, hex_value h3, hex_value h4 with
            | Some 0, Some 0, Some a, Some b =>
              match read_string s5 with
              | Some (t, rest) => Some (String (ascii_of_nat (16 * a + b)) t, rest)
              | None => None
              end
            | _, _, _, _ => None
            end
          | _ => None
          end
        else None
      | EmptyString => None
      end
    else if code c <? 32 then None
    else
      match read_string s' with
      | Some (t, rest) => Some (String c t, rest)
      | None => None
      end
  end.

Fixpoint read_digits (s : string) : string * string :=
  match s with
  | String c s' =>
    if is_digit c then let '(d, rest) := read_digits s' in (String c d, rest)
    else (EmptyString, s)
  | EmptyString => (EmptyString, EmptyString)
  end.

(** A JSON number: sign, integer part without leading zero, fraction,
    exponent. *)
Definition read_number (s : string) : option (string * string) :=
  let '(sign, s1) := match s with
                     | String "-" s' => ("-", s')
                     | _ => ("", s)
                     end in
  let '(int, s2) := read_digits s1 in
  match int with
  | EmptyString => None
  | String d more =>
    if Ascii.eqb d "0" && truthy more then None
    else
      let '(frac, s3) :=
        match s2 with
        | String "." s' => let '(f, r) := read_digits s' in (String "." f, r)
        | _ => ("", s2)
        end in
      if String.eqb frac "." then None
      else
        let '(exp, s4) :=
          match s3 with
          | String e s' =>
            if char_in ["e"%char; "E"%char] e then
              let '(sg, s'') := match s' with
                                | String g r => if char_in ["+"%char; "-"%char] g
                                                then (String g "", r) else ("", s')
                                | EmptyString => ("", s')
                                end in
              let '(ds, r) := read_digits s'' in
              (String e (sg +:+ ds), if truthy ds then Some r else None)
            else ("", Some s3)
          | EmptyString => ("", Some s3)
          end in
        match s4 with
        | Some rest => Some (sign +:+ int +:+ frac +:+ exp, rest)
        | None => None
        end
  end.

Fixpoint read_value (fuel : nat) (s : string) : option (JSON * string) :=
  match fuel with
  | O => None
  | S fuel' =>
    match skip_ws s with
    | EmptyString => None
    | String c rest =>
      if Ascii.eqb c DQUOTE then
        match read_string rest with
        | Some (t, rest') => Some (JString t, rest')
        | None => None
        end
      else if Ascii.eqb c "[" then
        match skip_ws rest with
        | String "]" rest' => Some (JArray [], rest')
        | _ =>
          (fix items (n : nat) (s : string) (acc : list JSON) {struct n} : option (JSON * string) :=
             match n with
             | O => None
             | S n' =>
               match read_value fuel' s with
               | Some (v, s1) =>
                 match skip_ws s1 with
                 | String "," s2 => items n' s2 (acc ++ [v])
                 | String "]" s2 => Some (JArray (acc ++ [v]), s2)
                 | _ => None
                 end
               | None => None
               end
             end) fuel' rest []
        end
      else if Ascii.eqb c "{" then
        match skip_ws rest with
        | String "}" rest' => Some (JObject [], rest')
        | _ =>
          (fix members (n : nat) (s : string) (acc : list (string * JSON)) {struct n}
             : option (JSON * string) :=
             match n with
             | O => None
             | S n' =>
               match skip_ws s with
               | String q s0 =>
                 if Ascii.eqb q DQUOTE then
                   match read_string s0 with
                   | Some (key, s1) =>
                     match skip_ws s1 with
                     | String ":" s2 =>
                       match read_value fuel' s2 with
                       | Some (v, s3) =>
                         match skip_ws s3 with
                         | String "," s4 => members n' s4 (acc ++ [(key, v)])
                         | String "}" s4 => Some (JObject (acc ++ [(key, v)]), s4)
                         | _ => None
                         end
                       | None => None
                       end
                     | _ => None
                     end
                   | None => None
                   end
                 else None
               | EmptyString => None
               end
             end) fuel' rest []
        end
      else if startsWith (String c rest) "null" then Some (JNull, string_drop 4 (String c rest))
      else if startsWith (String c rest) "true" then Some (JBool true, string_drop 4 (String c rest))
      else if startsWith (String c rest) "false" then Some (JBool false, string_drop 5 (String c rest))
      else
        match read_number (String c rest) with
        | Some (lexeme, rest') => Some (JNumber lexeme, rest')
        | None => None
        end
    end
  end.

(** A whole text: one value and nothing but white space after it. *)
Definition read_json (s : string) : option JSON :=
  match read_value (S (String.length s)) s with
  | Some (v, rest) => match skip_ws rest with EmptyString => Some v | _ => None end
  | None => None
  end.

(** ** Auxiliary notions used in the statements *)

(** The candidates of a call of [enforceUploadPolicy] once resolved, and
    those among them that pass the checks common to all modes. *)
Definition resolved_candidates (cwd : string) (uploadPaths : list string) : list string :=
  (λ candidate, path_resolve cwd [candidate]) <$> uploadPaths.

Definition valid_candidates (cwd : string) (fs : gmap string FileNode) (workspaceRoot : string)
    (uploadPaths : list string) : list string :=
  filter (λ abs, candidate_rejection cwd fs workspaceRoot abs = None)
         (resolved_candidates cwd uploadPaths).

(** [outranks a b]: candidate [a] is preferred to candidate [b] by the
    "send the latest" choice: a higher priority tier, or the same tier and a
    later modification time, or the same tier and time and a greater path. *)
Definition outranks (cwd : string) (fs : gmap string FileNode) (workspaceRoot : string)
    (a b : string) : bool :=
  let pa := getAutoSelectionPriority cwd a workspaceRoot in
  let pb := getAutoSelectionPriority cwd b workspaceRoot in
  (pb <? pa)%Z
  || ((pa =? pb)%Z
      && (num_gt (mtimeOf fs a) (mtimeOf fs b)
          || (num_eq (mtimeOf fs a) (mtimeOf fs b) && String.ltb b a))).

(** The explicit-name case of the policy as the design document words it,
    read literally: when the text names
    files, the accepted paths are exactly the candidates that pass the common
    checks and whose base name is one of the named files (compared without
    regard to case). *)
Definition explicit_names_as_stated (cwd : string) (fs : gmap string FileNode)
    (uploadPaths : list string) (userMessage workspaceDir : string) : Prop :=
  inferRequestedFileNames userMessage ≠ [] →
  ∀ abs, abs ∈ enforceUploadPolicy cwd fs uploadPaths userMessage workspaceDir
         ↔ abs ∈ valid_candidates cwd fs (path_resolve cwd [workspaceDir]) uploadPaths
           ∧ toLowerCase (basename abs) ∈ (toLowerCase <$> inferRequestedFileNames userMessage).

Definition file_at (t : Z) : FileNode := {| content := "data"; mtimeMs := t |}.

(** A workspace [/data/ws] with a few files. *)
Definition fs_workspace : gmap string FileNode :=
  list_to_map [("/data/ws/a.pdf", file_at 10); ("/data/ws/b.csv", file_at 20);
               ("/data/ws/ab.csv", file_at 30); ("/data/ws/report.pdf", file_at 40);
               ("/data/ws/session.json", file_at 90);
               ("/data/ws/attachments/x.png", file_at 50);
               ("/data/ws/attachments/y.png", file_at 70);
               ("/data/ws/.papert/tools/message.mjs", file_at 5)].

(** The send-all case of the policy as the design document words it, read
    literally: every candidate that
    passes the common checks is accepted, except a session-state file (a
    [session.json] outside the attachments subdirectory) when a candidate of
    the attachments subdirectory is present. *)
Definition send_all_as_stated (cwd : string) (fs : gmap string FileNode)
    (uploadPaths : list string) (userMessage workspaceDir : string) : Prop :=
  shouldAutoSelectAllUploads userMessage = true →
  let workspaceRoot := path_resolve cwd [workspaceDir] in
  let valid := valid_candidates cwd fs workspaceRoot uploadPaths in
  ∀ abs, abs ∈ enforceUploadPolicy cwd fs uploadPaths userMessage workspaceDir
         ↔ abs ∈ valid
           ∧ ¬ (toLowerCase (basename abs) = "session.json"
                ∧ isAttachmentCandidate cwd abs workspaceRoot = false
                ∧ ∃ other, other ∈ valid ∧ isAttachmentCandidate cwd other workspaceRoot = true).

(** The send-latest case of the policy as the design document words it, read
    literally: exactly one candidate
    is accepted, and it outranks every other candidate that passes the common
    checks. *)
Definition send_latest_as_stated (cwd : string) (fs : gmap string FileNode)
    (uploadPaths : list string) (userMessage workspaceDir : string) : Prop :=
  shouldAutoSelectLatestUpload userMessage = true →
  shouldAutoSelectAllUploads userMessage = false →
  let workspaceRoot := path_resolve cwd [workspaceDir] in
  ∃ best, enforceUploadPolicy cwd fs uploadPaths userMessage workspaceDir = [best]
          ∧ ∀ p, p ∈ valid_candidates cwd fs workspaceRoot uploadPaths → p ≠ best →
                 outranks cwd fs workspaceRoot best p = true.

Definition route_a : SchedulerRoute := {| channelId := "C01"; threadTs := None; mode := dm |}.
Definition route_b : SchedulerRoute := {| channelId := "C02"; threadTs := Some "17.5"; mode := channel |}.

(** The handling of a [finished] event as the design document words it, read
    literally, for any job id: when the id resolves to a route, an event of
    status [ok] gives exactly one delivery call, for that route, whose text
    contains the job identifier and the summary; when it resolves to no
    route, the event gives no delivery call and one logged warning. *)
Definition finished_event_as_stated (onDelivery : SchedulerRoute → string → bool)
    (workspaces : gmap string WorkspaceSchedulerState) (workspaceDir : string)
    (state : WorkspaceSchedulerState) (session : string) (tools : option (list string))
    (jobId : string) (status osummary error : option string) : Prop :=
  workspaces !! workspaceDir = Some state →
  (∀ route, resolve jobId (routes state) = Some route →
     let out := handleMessage onDelivery workspaces workspaceDir
                  (finished_message session tools jobId (Some "ok") osummary error) in
     ∃ text, deliveries out.2 = [(route, text)]
             ∧ includes text jobId
             ∧ (∀ summary, osummary = Some summary → includes text summary))
  ∧ (resolve jobId (routes state) = None →
     let out := handleMessage onDelivery workspaces workspaceDir
                  (finished_message session tools jobId status osummary error) in
     deliveries out.2 = [] ∧ length (warnings out.2) = 1).

(** The state of a queue on which the work items [ws] have been enqueued:
    some prefix [completed] of them has run to completion one after the
    other, at most one is running, the rest is waiting, and the flag is set exactly
    while one is running. *)
Definition queue_inv (ws : list Work) (q : ChannelQueue) : Prop :=
  ∃ completed : list Work,
    trace q = sequential_trace completed ++ (Started <$> running q)
    ∧ ws = completed ++ running q ++ queue q
    ∧ length (running q) ≤ 1
    ∧ processing q = match running q with [] => false | _ :: _ => true end
    ∧ (running q = [] → queue q = []).

Definition queue_of (channelId : string) (m : gmap string ChannelQueue) : ChannelQueue :=
  default newChannelQueue (m !! channelId).

(** The session id a run observes: the one of the last system or result
    event, else the one the query object reports. *)
Definition runSessionId (messages : list SDKMessage) (querySessionId : string) : string :=
  if truthy (streamSessionId messages) then streamSessionId messages else querySessionId.

(** Session persistence as the design document words it, read literally: a
    degraded run leaves no
    session id persisted for the workspace, and a run that is not degraded
    persists the session id it observed. *)
Definition session_persistence_as_stated (onMessage : option (string → bool))
    (workspaceDir : string) (messages : list SDKMessage) (querySessionId : string)
    (store : gmap string string) : Prop :=
  let store' := runAgent_sessions onMessage workspaceDir messages querySessionId store in
  (degraded messages = true → getSessionId workspaceDir store' = None)
  ∧ (degraded messages = false → runSessionId messages querySessionId ≠ "" →
     getSessionId workspaceDir store' = Some (runSessionId messages querySessionId)).

(** A queue file naming two uploads and two messages, in a workspace where
    one of the uploads is on disk. *)
Definition queue_content_sample : string :=
  "{" +:+ String DQUOTE "uploads" +:+ String DQUOTE ":[" +:+
  String DQUOTE "out/report.pdf" +:+ String DQUOTE "," +:+
  String DQUOTE "/data/ws/gone.txt" +:+ String DQUOTE "]," +:+
  String DQUOTE "messages" +:+ String DQUOTE ":[" +:+
  String DQUOTE " done " +:+ String DQUOTE "," +:+ String DQUOTE "  " +:+ String DQUOTE "]}".

Definition fs_sample : gmap string FileNode :=
  <["/data/ws/.papert/.papert-claw-runtime/tool-queue.json" :=
      {| content := queue_content_sample; mtimeMs := 10 |}]>
    {[ "/data/ws/out/report.pdf" := {| content := "%PDF"; mtimeMs := 5 |} ]}.

(** A queue file naming a file of the sibling directory [/data/ws-old]. *)
Definition queue_content_sibling : string :=
  "{" +:+ String DQUOTE "uploads" +:+ String DQUOTE ":[" +:+
  String DQUOTE "/data/ws-old/secrets.txt" +:+ String DQUOTE "]," +:+
  String DQUOTE "messages" +:+ String DQUOTE ":[]}".

Definition fs_sibling : gmap string FileNode :=
  <["/data/ws/.papert/.papert-claw-runtime/tool-queue.json" :=
      {| content := queue_content_sibling; mtimeMs := 10 |}]>
    {[ "/data/ws-old/secrets.txt" := {| content := "k"; mtimeMs := 1 |} ]}.

(** ** upload-tool.ts: calls on a collector, and the message tool *)

(** A call that adds to an [UploadCollector], and a history of such calls,
    oldest first. *)
Inductive CollectorCall :=
  | Collect (filePath : string)
  | CollectMessage (message : string).

Definition collector_call (c : CollectorCall) (collector : UploadCollector) : UploadCollector :=
  match c with
  | Collect filePath => collect filePath collector
  | CollectMessage message => collectMessage message collector
  end.

Definition collector_calls (cs : list CollectorCall) (collector : UploadCollector)
    : UploadCollector :=
  foldl (λ acc c, collector_call c acc) collector cs.

(** The handler of the [message] compatibility tool inside
    [createUploadMcpServer(collector, workspaceDir)]; [message] and [media]
    are what the tool call supplies for these two fields. *)
Definition messageCompatTool (cwd : string) (fs : gmap string FileNode) (workspaceDir : string)
    (message media : option string) (collector : UploadCollector) : string * UploadCollector :=
  let text := trim (default "" message) in
  let collector1 := if truthy text then collectMessage text collector else collector in
  let media := trim (default "" media) in
  let '(failure, collector2) :=
    if startsWith media "file://" then
      let filePath := string_drop (String.length "file://") media in
      let '(fileResult, c) := queueFile cwd fs workspaceDir (Some filePath) collector1 in
      if startsWith fileResult "Error:" then (Some fileResult, c) else (None, c)
    else (None, collector1) in
  match failure with
  | Some fileResult => (fileResult, collector2)
  | None =>
    if negb (truthy text) && negb (truthy media)
    then ("No message or media provided.", collector2)
    else ("Message request captured for Slack delivery.", collector2)
  end.

(** ** scheduler-bridge.ts: registration and the end of a stream *)

(** [SchedulerBridge.ensureWorkspace(workspaceDir, route)]. For a workspace
    that is not registered the method starts a query and sends two control
    requests; [started] tells whether all of that succeeds. When it does not,
    the method throws ([None]) before anything is registered. *)
Definition ensureWorkspace (started : bool) (workspaces : gmap string WorkspaceSchedulerState)
    (workspaceDir : string) (route : option SchedulerRoute)
    : option (gmap string WorkspaceSchedulerState) :=
  match workspaces !! workspaceDir with
  | Some existing =>
    match route with
    | Some r => Some (<[workspaceDir := {| routes := setLatestRoute r (routes existing);
                                           closing := closing existing |}]> workspaces)
    | None => Some workspaces
    end
  | None =>
    if started then
      let fresh := match route with
                   | Some r => setLatestRoute r newSchedulerRoutes
                   | None => newSchedulerRoutes
                   end in
      Some (<[workspaceDir := {| routes := fresh; closing := false |}]> workspaces)
    else None
  end.

(** The [finally] block of [consumeWorkspaceStream], run when the stream of
    a workspace ends or fails: a warning unless the workspace is closing,
    and the workspace is forgotten. *)
Definition streamEnded (workspaces : gmap string WorkspaceSchedulerState) (workspaceDir : string)
    : gmap string WorkspaceSchedulerState * list BridgeEffect :=
  (delete workspaceDir workspaces,
   match workspaces !! workspaceDir with
   | Some state =>
     if negb (closing state)
     then [LogWarn "Scheduler bridge stopped unexpectedly; clearing workspace session"]
     else []
   | None => []
   end).

(** [stopAll] up to its [await]: [stop()] has been called on every state,
    which sets its [closing] flag before the query is closed. *)
Definition stopAll_stopping (workspaces : gmap string WorkspaceSchedulerState)
    : gmap string WorkspaceSchedulerState :=
  (λ state, {| routes := routes state; closing := true |}) <$> workspaces.

(** [stopAll] after its [await]: [this.workspaces.clear()]. *)
Definition stopAll_cleared (workspaces : gmap string WorkspaceSchedulerState)
    : gmap string WorkspaceSchedulerState := ∅.

(** An [added] or [removed] scheduler event as it arrives on the stream. *)
Definition job_message (action jobId : string) : SDKMessage :=
  SystemMessage (Some "scheduler_event") "" None
    (Some (Some {| ev_jobId := Some jobId; ev_action := Some action;
                   ev_status := None; ev_summary := None; ev_error := None |})).

(** ** The agent runner: fallbacks and the result of a run *)

(** The patterns of [inferUploadsFromModelText] and
    [inferMessagesFromModelText]: a marker followed by a run of characters
    other than white space, respectively other than a line break. *)
Definition cls_non_space (c : ascii) : bool := negb (is_js_space c).

Definition cls_non_line_break (c : ascii) : bool :=
  negb (char_in ["010"%char; "013"%char] c).

Definition RE_MEDIA : regex := Seq (Lit "MEDIA:") (Plus (Class cls_non_space)).

Definition RE_FILE_URL : regex := Seq (Lit "file://") (Plus (Class cls_non_space)).

Definition RE_MESSAGE : regex := Seq (Lit "MESSAGE:") (Plus (Class cls_non_line_break)).

(** [s.slice(n)] *)
Definition slice_from (n : nat) (s : string) : string := string_drop n s.

Definition filterUploadsToRequestedFileNames (uploadPaths : list string) (userMessage : string)
    : list string :=
  let requested := toLowerCase <$> inferRequestedFileNames userMessage in
  if length requested =? 0 then []
  else filter (λ path, matchedRequestedName requested path = true) uploadPaths.

Definition inferMessagesFromModelText (text : option string) : list string :=
  match text with
  | None => []
  | Some text =>
    if negb (truthy text) then []
    else
      let messageMatches := regex_match_all false RE_MESSAGE text in
      unique (filter (λ value, truthy value = true)
                     ((λ token, trim (slice_from (String.length "MESSAGE:") token))
                        <$> messageMatches))
  end.

Section Fallbacks.
(** The working directory of the server process and the file system; a path
    is looked up on disk by its resolved form. *)
Variable cwd : string.
Variable fs : gmap string FileNode.

Definition inferFallbackUploads (userMessage workspaceDir : string) : list string :=
  if negb (hasUploadIntent userMessage) then []
  else
    let names := inferRequestedFileNames userMessage in
    if length names =? 0 then []
    else
      unique (names ≫= (λ name,
        let direct := path_join [workspaceDir; name] in
        let inAttachments := path_join [workspaceDir; "attachments"; name] in
        (if existsSync fs (path_resolve cwd [direct]) then [path_resolve cwd [direct]] else [])
        ++ (if existsSync fs (path_resolve cwd [inAttachments])
            then [path_resolve cwd [inAttachments]] else []))).

Definition inferUploadsFromModelText (text : option string) (workspaceDir : string)
    : list string :=
  match text with
  | None => []
  | Some text =>
    if negb (truthy text) then []
    else
      let absWorkspace := path_resolve cwd [workspaceDir] in
      let keep (abs : string) : list string :=
        if startsWith abs absWorkspace && existsSync fs abs then [abs] else [] in
      let mediaMatches := regex_match_all false RE_MEDIA text in
      let fromMedia :=
        mediaMatches ≫= (λ token,
          let raw := trim (slice_from (String.length "MEDIA:") token) in
          let normalized :=
            if startsWith raw "file://" then slice_from (String.length "file://") raw
            else raw in
          keep (path_resolve cwd [normalized])) in
      let fileUrlMatches := regex_match_all false RE_FILE_URL text in
      let fromUrls :=
        fileUrlMatches ≫= (λ url,
          keep (path_resolve cwd [slice_from (String.length "file://") url])) in
      unique (fromMedia ++ fromUrls)
  end.
End Fallbacks.

(** interface AgentResult *)
Record AgentResult := mkAgentResult {
  res_messageSent : bool;
  res_text : option string;
  res_sessionId : string;
  res_costUsd : Z;
  res_pendingUploads : list string;
  res_pendingMessages : list string
}.

Section RunResult.
Variable cwd : string.
Variable JSON_parse : string → option JSON.

(** The uploads of a run: the tool queue under the policy, else the files
    the user text names, else the files the observed text refers to; [fs] is
    the file system once the queue has been drained. *)
Definition run_pendingUploads (fs : gmap string FileNode) (queued : ToolQueueSnapshot)
    (observed : list string) (userMessage absWorkspace : string) : list string :=
  let pendingUploads := enforceUploadPolicy cwd fs (uploads queued) userMessage absWorkspace in
  let pendingUploads :=
    if length pendingUploads =? 0 then
      let inferred := inferFallbackUploads cwd fs userMessage absWorkspace in
      let filteredInferred := enforceUploadPolicy cwd fs inferred userMessage absWorkspace in
      if 0 <? length filteredInferred then filteredInferred else pendingUploads
    else pendingUploads in
  if length pendingUploads =? 0 then
    let inferredFromModel :=
      unique (observed ≫= (λ text, inferUploadsFromModelText cwd fs (Some text) absWorkspace)) in
    let filteredInferred :=
      enforceUploadPolicy cwd fs (filterUploadsToRequestedFileNames inferredFromModel userMessage)
                          userMessage absWorkspace in
    if 0 <? length filteredInferred then filteredInferred else pendingUploads
  else pendingUploads.

(** The messages of a run: those of the tool queue, else those the observed
    text carries. *)
Definition run_pendingMessages (queued : ToolQueueSnapshot) (observed : list string)
    : list string :=
  let pendingMessages := messages queued in
  if length pendingMessages =? 0 then
    let inferredMessages := unique (observed ≫= (λ text, inferMessagesFromModelText (Some text))) in
    if 0 <? length inferredMessages then pendingMessages ++ inferredMessages else pendingMessages
  else pendingMessages.

(** What [runAgent] does after [q.close()] and the session bookkeeping, on
    the state [st] its message loop has reached and the file system [fs] the
    agent has left: the result it returns and the file system after the
    queue has been drained. *)
Definition runAgent_result (now : Z) (fs : gmap string FileNode) (userMessage workspaceDir : string)
    (st : RunState) (querySessionId : string) : AgentResult * gmap string FileNode :=
  let absWorkspace := path_resolve cwd [workspaceDir] in
  let '(queued, fs') := drainWorkspaceToolQueue cwd JSON_parse now absWorkspace fs in
  let pendingUploads := run_pendingUploads fs' queued (observedText st) userMessage absWorkspace in
  let pendingMessages := run_pendingMessages queued (observedText st) in
  let text :=
    if negb (truthy_opt (resultText st)) && (0 <? length pendingMessages)
    then Some (str_join (String "010" "") pendingMessages)
    else resultText st in
  ({| res_messageSent := messageSent st;
      res_text := text;
      res_sessionId := observedSessionId st querySessionId;
      res_costUsd := 0;
      res_pendingUploads := pendingUploads;
      res_pendingMessages := pendingMessages |}, fs').
End RunResult.

(** ** The managed workspace tools

    The tools the runner installs under [.papert/tools]; they run in the
    agent's process with the workspace as project root and hand files and
    messages to the runner through the tool-output queue. *)

(** *** A JSON writer

    [JSON.stringify] on a string and on a queue snapshot, over the code
    units 0..255: a quote, a backslash and the control characters are
    escaped, everything else is written as it is. *)

Definition hex_digit (n : nat) : ascii :=
  ascii_of_nat (if n <? 10 then 48 + n else 87 + n).

Definition escape_char (c : ascii) : string :=
  if Ascii.eqb c DQUOTE then String "\" (String DQUOTE "")
  else if Ascii.eqb c "\" then "\\"
  else if Ascii.eqb c "008" then "\b"
  else if Ascii.eqb c "012" then "\f"
  else if Ascii.eqb c "010" then "\n"
  else if Ascii.eqb c "013" then "\r"
  else if Ascii.eqb c "009" then "\t"
  else if code c <? 32
       then "\u00" +:+ String (hex_digit (code c / 16)) (String (hex_digit (code c mod 16)) "")
       else String c "".

Fixpoint escape_string (s : string) : string :=
  match s with
  | EmptyString => EmptyString
  | String c s' => escape_char c +:+ escape_string s'
  end.

Definition stringify_string (s : string) : string :=
  String DQUOTE (escape_string s +:+ String DQUOTE "").

Definition stringify_strings (l : list string) : string :=
  "[" +:+ str_join "," (stringify_string <$> l) +:+ "]".

(** [JSON.stringify(queue)] for [queue] of shape [{ uploads, messages }]. *)
Definition JSON_stringify_queue (q : ToolQueueSnapshot) : string :=
  "{" +:+ stringify_string "uploads" +:+ ":" +:+ stringify_strings (uploads q) +:+ ","
  +:+ stringify_string "messages" +:+ ":" +:+ stringify_strings (messages q) +:+ "}".

(** The value [JSON.parse] gives back for [JSON_stringify_queue q]. *)
Definition queue_value (q : ToolQueueSnapshot) : JSON :=
  JObject [("uploads", JArray (JString <$> uploads q));
           ("messages", JArray (JString <$> messages q))].

Section ManagedTools.
(** The working directory of the process the tools run in. *)
Variable cwd : string.
Variable JSON_parse : string → option JSON.

(** [inputPath] is [None] when the argument is missing or not a string. *)
Definition normalizeWorkspacePath (inputPath : option string) (workspaceRoot : string)
    : option string :=
  match inputPath with
  | None => None
  | Some inputPath =>
    if negb (truthy inputPath) then None
    else
      let root := path_resolve cwd [workspaceRoot] in
      let candidate := path_resolve cwd [root; inputPath] in
      if String.eqb candidate root then Some candidate
      else if negb (startsWith candidate (root +:+ "/")) then None
      else Some candidate
  end.

Definition queuePath (workspaceRoot : string) : string :=
  path_join [path_resolve cwd [workspaceRoot]; TOOL_QUEUE_RELATIVE_PATH].

(** [parsed?.[key]] kept when it is an array, filtered to its strings. *)
Definition queue_field (key : string) (parsed : JSON) : list string :=
  match parsed with
  | JObject members =>
    match json_get key members with
    | Some (JArray items) => json_strings items
    | _ => []
    end
  | _ => []
  end.

Definition loadQueue (fs : gmap string FileNode) (workspaceRoot : string) : ToolQueueSnapshot :=
  match readFile fs (queuePath workspaceRoot) with
  | Some raw =>
    match JSON_parse raw with
    | Some parsed => {| uploads := queue_field "uploads" parsed;
                        messages := queue_field "messages" parsed |}
    | None => emptySnapshot
    end
  | None => emptySnapshot
  end.

(** [mkdirSync] changes nothing in this file system. *)
Definition saveQueue (now : Z) (workspaceRoot : string) (queue : ToolQueueSnapshot)
    (fs : gmap string FileNode) : gmap string FileNode :=
  writeFile now (queuePath workspaceRoot) (JSON_stringify_queue queue) fs.

Definition queueUpload (now : Z) (absPath workspaceRoot : string) (fs : gmap string FileNode)
    : gmap string FileNode :=
  let queue := loadQueue fs workspaceRoot in
  saveQueue now workspaceRoot
    {| uploads := uploads queue ++ [absPath]; messages := messages queue |} fs.

Definition queueMessage (now : Z) (message : string) (workspaceRoot : string)
    (fs : gmap string FileNode) : gmap string FileNode :=
  let value := trim message in
  if negb (truthy value) then fs
  else
    let queue := loadQueue fs workspaceRoot in
    saveQueue now workspaceRoot
      {| uploads := uploads queue; messages := messages queue ++ [value] |} fs.

(** [execute] of the tools [SendFileToChat.mjs] and [send_file_to_chat.mjs];
    [file_path] is [args?.file_path], [projectRoot] is
    [context.projectRoot], and [now] is the time of the write. *)
Definition sendFileTool_execute (now : Z) (file_path : option string) (projectRoot : string)
    (fs : gmap string FileNode) : string * gmap string FileNode :=
  match normalizeWorkspacePath file_path projectRoot with
  | None => ("Error: file must be within workspace", fs)
  | Some absPath =>
    if negb (existsSync fs absPath) then ("Error: file not found at " +:+ absPath, fs)
    else ("Queued file for upload: " +:+ absPath, queueUpload now absPath projectRoot fs)
  end.

Definition extractMediaPath (rawMedia : option string) (workspaceRoot : string) : option string :=
  match rawMedia with
  | None => None
  | Some rawMedia =>
    if negb (truthy rawMedia) then None
    else if startsWith rawMedia "file://"
    then normalizeWorkspacePath (Some (string_drop (String.length "file://") rawMedia))
                                workspaceRoot
    else normalizeWorkspacePath (Some rawMedia) workspaceRoot
  end.

(** [execute] of the tool [message.mjs]; [message], [content] and [media]
    are the fields of [args]. *)
Definition messageTool_execute (now : Z) (message content media : option string)
    (projectRoot : string) (fs : gmap string FileNode) : string * gmap string FileNode :=
  let text := trim (match message with Some m => m | None => default "" content end) in
  let fs1 := if truthy text then queueMessage now text projectRoot fs else fs in
  match extractMediaPath media projectRoot with
  | Some mediaPath =>
    if negb (existsSync fs1 mediaPath)
    then ("Error: media file not found at " +:+ mediaPath, fs1)
    else ("Message request captured for delivery.", queueUpload now mediaPath projectRoot fs1)
  | None =>
    if negb (truthy text) then ("No message or media provided.", fs1)
    else ("Message request captured for delivery.", fs1)
  end.
End ManagedTools.

(** ** The agent runner: provisioning of the managed tools *)

Definition MANAGED_TOOL_MARKER : string := "papert-claw-managed-sendfile-tools-v1".

(** [s.includes(sub)], computed. *)
Fixpoint includesb (s sub : string) : bool :=
  startsWith s sub
  || match s with
     | EmptyString => false
     | String _ s' => includesb s' sub
     end.

(** What the provisioning reports to the logger. *)
Inductive ProvisionLog :=
  | SkippedNonManaged (filePath : string)
  | RemovedLegacy (filePath : string).

(** [writeManagedToolFile(filePath, content, logger)] at time [now]; a read
    that throws means that the file does not exist yet. *)
Definition writeManagedToolFile (now : Z) (filePath content : string) (fs : gmap string FileNode)
    : gmap string FileNode * list ProvisionLog :=
  match readFile fs filePath with
  | Some existing =>
    if negb (includesb existing MANAGED_TOOL_MARKER) && negb (String.eqb existing content)
    then (fs, [SkippedNonManaged filePath])
    else if String.eqb existing content then (fs, [])
    else (writeFile now filePath content fs, [])
  | None => (writeFile now filePath content fs, [])
  end.

(** [deleteManagedToolFile(filePath, logger)] *)
Definition deleteManagedToolFile (filePath : string) (fs : gmap string FileNode)
    : gmap string FileNode * list ProvisionLog :=
  match readFile fs filePath with
  | Some existing =>
    if negb (includesb existing MANAGED_TOOL_MARKER) then (fs, [])
    else (delete filePath fs, [RemovedLegacy filePath])
  | None => (fs, [])
  end.

(** One of the eight operations of [ensureWorkspaceSendFileTools]. *)
Inductive ProvisionStep :=
  | DeleteManaged (filePath : string)
  | WriteManaged (filePath content : string).

Definition provision_step (now : Z) (step : ProvisionStep)
    (acc : gmap string FileNode * list ProvisionLog) : gmap string FileNode * list ProvisionLog :=
  let r := match step with
           | DeleteManaged filePath => deleteManagedToolFile filePath acc.1
           | WriteManaged filePath content => writeManagedToolFile now filePath content acc.1
           end in
  (r.1, acc.2 ++ r.2).

(** What one provisioning operation does to the file it names; nothing else
    changes. *)
Definition step_path (step : ProvisionStep) : string :=
  match step with DeleteManaged p => p | WriteManaged p _ => p end.

Definition step_at (now : Z) (step : ProvisionStep) (o : option FileNode) : option FileNode :=
  match step, o with
  | DeleteManaged _, Some f =>
    if includesb (content f) MANAGED_TOOL_MARKER then None else Some f
  | DeleteManaged _, None => None
  | WriteManaged _ c, Some f =>
    if includesb (content f) MANAGED_TOOL_MARKER && negb (String.eqb (content f) c)
    then Some {| content := c; mtimeMs := now |} else Some f
  | WriteManaged _ c, None => Some {| content := c; mtimeMs := now |}
  end.

Section Provisioning.
(** The sources of the three tools, each of which starts with a comment line
    that carries [MANAGED_TOOL_MARKER]; [rest] stands for the JavaScript text
    after that line. *)
Variable SEND_FILE_TOOL_REST MESSAGE_TOOL_REST SLACK_TOOL_REST : string.

Definition managed_source (rest : string) : string :=
  "// " +:+ MANAGED_TOOL_MARKER +:+ String "010" rest.

Definition SEND_FILE_TOOL_SOURCE : string := managed_source SEND_FILE_TOOL_REST.
Definition MESSAGE_TOOL_SOURCE : string := managed_source MESSAGE_TOOL_REST.
Definition SLACK_TOOL_SOURCE : string := managed_source SLACK_TOOL_REST.

Definition provision_steps (workspaceDir : string) : list ProvisionStep :=
  let toolsDir := path_join [workspaceDir; ".papert"; "tools"] in
  [DeleteManaged (path_join [toolsDir; "SendFileToChat.js"]);
   DeleteManaged (path_join [toolsDir; "send_file_to_chat.js"]);
   DeleteManaged (path_join [toolsDir; "message.js"]);
   DeleteManaged (path_join [toolsDir; "slack.js"]);
   WriteManaged (path_join [toolsDir; "SendFileToChat.mjs"]) SEND_FILE_TOOL_SOURCE;
   WriteManaged (path_join [toolsDir; "send_file_to_chat.mjs"]) SEND_FILE_TOOL_SOURCE;
   WriteManaged (path_join [toolsDir; "message.mjs"]) MESSAGE_TOOL_SOURCE;
   WriteManaged (path_join [toolsDir; "slack.mjs"]) SLACK_TOOL_SOURCE].

(** [ensureWorkspaceSendFileTools(workspaceDir, logger)]: the eight
    operations, which act on eight different files, one after the other. *)
Definition ensureWorkspaceSendFileTools (now : Z) (workspaceDir : string)
    (fs : gmap string FileNode) : gmap string FileNode * list ProvisionLog :=
  foldl (λ acc step, provision_step now step acc) (fs, []) (provision_steps workspaceDir).
End Provisioning.

(** ** llm-env.ts *)

(** The fields of the settings row that [applyLlmEnvFromSettings] reads;
    each is a string or [null]. *)
Record LlmSettings := mkLlmSettings {
  llm_provider : option string;
  openai_api_key : option string;
  openai_base_url : option string;
  openai_model : option string
}.

(** What [applyLlmEnvFromSettings] reports to the logger. *)
Inductive LlmEnvLog :=
  | NoProviderConfigured
  | UnsupportedProvider (llmProvider : string)
  | IncompleteSettings (hasOpenAiApiKey hasOpenAiBaseUrl hasOpenAiModel : bool)
  | ConfiguredFromDb.

(** [unsetEnv(...keys)] on [process.env]. *)
Definition unsetEnv (keys : list string) (env : gmap string string) : gmap string string :=
  foldl (λ acc key, delete key acc) env keys.

Definition clearProviderRoutingEnv (env : gmap string string) : gmap string string :=
  unsetEnv ["CLAUDE_CODE_USE_BEDROCK"; "CLAUDE_CODE_USE_VERTEX"; "CLAUDE_CODE_USE_FOUNDRY";
            "ANTHROPIC_BASE_URL"; "ANTHROPIC_AUTH_TOKEN"] env.

Definition applyLlmEnvFromSettings (settings : option LlmSettings) (env : gmap string string)
    : gmap string string * LlmEnvLog :=
  match settings with
  | None => (env, NoProviderConfigured)
  | Some settings =>
    match llm_provider settings with
    | None => (env, NoProviderConfigured)
    | Some provider =>
      if negb (truthy provider) then (env, NoProviderConfigured)
      else if negb (String.eqb provider "openai") then (env, UnsupportedProvider provider)
      else
        match openai_api_key settings, openai_base_url settings, openai_model settings with
        | Some key, Some url, Some model =>
          if negb (truthy key) || negb (truthy url) || negb (truthy model)
          then (env, IncompleteSettings (truthy key) (truthy url) (truthy model))
          else
            let env := clearProviderRoutingEnv env in
            let env := unsetEnv ["ANTHROPIC_API_KEY"; "AWS_ACCESS_KEY_ID";
                                 "AWS_SECRET_ACCESS_KEY"; "AWS_REGION"] env in
            let env := unsetEnv ["OPENAI_API_KEY"; "OPENAI_BASE_URL"; "OPENAI_MODEL";
                                 "PAPERT_MODEL"] env in
            let env := <["OPENAI_API_KEY" := key]> env in
            let env := <["OPENAI_BASE_URL" := url]> env in
            let env := <["OPENAI_MODEL" := model]> env in
            let env := <["PAPERT_MODEL" := model]> env in
            (env, ConfiguredFromDb)
        | key, url, model =>
          (env, IncompleteSettings (truthy_opt key) (truthy_opt url) (truthy_opt model))
        end
    end
  end.

(** The variables that select another provider, and those that
    [applyLlmEnvFromSettings] sets. *)
Definition OTHER_PROVIDER_ENV : list string :=
  ["CLAUDE_CODE_USE_BEDROCK"; "CLAUDE_CODE_USE_VERTEX"; "CLAUDE_CODE_USE_FOUNDRY";
   "ANTHROPIC_BASE_URL"; "ANTHROPIC_AUTH_TOKEN"; "ANTHROPIC_API_KEY";
   "AWS_ACCESS_KEY_ID"; "AWS_SECRET_ACCESS_KEY"; "AWS_REGION"].

Definition OPENAI_ENV : list string :=
  ["OPENAI_API_KEY"; "OPENAI_BASE_URL"; "OPENAI_MODEL"; "PAPERT_MODEL"].

(** ** index.ts: what the Slack handlers do with the result of a run *)

(** [[\s\S]] and [.] (without the [s] flag). *)
Definition cls_any (c : ascii) : bool := true.

Definition cls_dot (c : ascii) : bool := negb (char_in ["010"%char; "013"%char] c).

(** [a{0,n}] *)
Fixpoint Upto (n : nat) (a : regex) : regex :=
  match n with
  | O => Eps
  | S n' => Alt (Seq a (Upto n' a)) Eps
  end.

(** The two patterns of [normalizeUploadResponseText] besides the one of
    [hasUploadIntent]; both are used with the [i] flag. *)
Definition RE_DENIED : regex :=
  Seqs [WordBoundary;
        Alts [Lit "unable to send"; Lit "don't have access"; Lit "do not have access";
              Seqs [Lit "file-send tool"; Star (Class cls_dot); Lit "not available"]];
        WordBoundary].

Definition RE_CLAIMS_UPLOAD : regex :=
  Seqs [WordBoundary; Alts [Lit "done"; Lit "uploaded"; Lit "attached"; Lit "sent"]; WordBoundary;
        Upto 80 (Class cls_any);
        WordBoundary; Alts [Lit "file"; Lit "files"; Lit "attachment"; Lit "attachments"];
        WordBoundary].

(** A count written in decimal. *)
Definition number_to_string (n : nat) : string := NilZero.string_of_uint (Nat.to_uint n).

Definition NO_FILE_UPLOADED : string :=
  "No file was uploaded. Please specify a filename/path (for example `attachments/<name>`), or ask to attach the latest attachment.".

Definition normalizeUploadResponseText (responseText : string) (uploadedCount : nat)
    (uploadedFiles : list string) (userMessageText : string) : string :=
  let askedForUpload := regex_test true RE_UPLOAD_INTENT userMessageText in
  let uploaded :=
    "Uploaded " +:+ number_to_string uploadedCount +:+ " file"
    +:+ (if uploadedCount =? 1 then "" else "s") +:+ " to Slack" in
  if (0 <? uploadedCount) && askedForUpload then
    let names := (λ path, default path (last (split_on "/" path))) <$> uploadedFiles in
    if 0 <? length names then uploaded +:+ ": " +:+ str_join ", " names +:+ "."
    else uploaded +:+ "."
  else if (0 <? uploadedCount) && regex_test true RE_DENIED responseText then uploaded +:+ "."
  else if (uploadedCount =? 0) && askedForUpload && regex_test true RE_CLAIMS_UPLOAD responseText
  then NO_FILE_UPLOADED
  else responseText.

(** A call on the Slack client after a run; a reply goes to the channel or
    to the thread the handler answers in. *)
Inductive SlackCall :=
  | UploadFile (filePath : string)
  | PostReply (text : string)
  | UpdateThinking (text : string).

Section Delivery.
(** [slackBot.uploadFile]: [true] when its promise resolves. *)
Variable uploadFile : string → bool.

(** [message.text || "See attached files."], the user text of the run. *)
Definition run_userMessage (text : option string) : string :=
  if truthy_opt text then default "" text else "See attached files.".

(** The handlers after [runAgent] has returned [result] for a message with
    text [text]: the files are uploaded, the captured messages posted, and
    the reply either replaces the placeholder or, when the assistant texts
    were already delivered, is posted only if it was rewritten. *)
Definition deliverResult (result : AgentResult) (text : option string) : list SlackCall :=
  let uploadedCount :=
    length (filter (λ filePath, uploadFile filePath = true) (res_pendingUploads result)) in
  let rawResponseText := default "_No response_" (res_text result) in
  let responseText :=
    normalizeUploadResponseText rawResponseText uploadedCount (res_pendingUploads result)
      (if truthy_opt text then default "" text else "") in
  (UploadFile <$> res_pendingUploads result)
  ++ (PostReply <$> res_pendingMessages result)
  ++ (if negb (res_messageSent result) then [UpdateThinking responseText]
      else if negb (String.eqb responseText rawResponseText) then [PostReply responseText]
      else []).
End Delivery.

(** ** Auxiliary notions: reserved paths *)

(** The path is one of the directories the policy reserves, or lies below
    one: the segments of the workspace root followed by those of a reserved
    prefix are a prefix of its segments. *)
Definition under_reserved_path (workspaceRoot absPath : string) : bool :=
  existsb (λ prefix,
             bool_decide ((normalize_segments false workspaceRoot ++ split_on "/" prefix)
                          `prefix_of` normalize_segments false absPath))
          BLOCKED_UPLOAD_PREFIXES.

(** ** Auxiliary notions: the words that ask for a file *)

Definition UPLOAD_VERBS : list string := ["attach"; "upload"; "send"; "share"].

(** The text contains an upload verb, in any case. *)
Definition mentions_upload_verb (userMessage : string) : bool :=
  existsb (includesb (toLowerCase userMessage)) UPLOAD_VERBS.

(** ** Auxiliary notions: rejected work and failed deliveries *)

(** The work items among [ws] whose promise rejects, [os] giving the
    outcomes in order. *)
Definition rejected (ws : list Work) (os : list Outcome) : list Work :=
  omap (λ wo, match wo.2 with Rejects => Some wo.1 | Resolves => None end) (zip ws os).

Definition errorLogs (es : list BridgeEffect) : list string :=
  omap (λ e, match e with LogError m => Some m | _ => None end) es.

(** * Properties *)

(** ** SchedulerRoutes *)

Lemma latestRoute_routes_calls cs t :
  latestRoute (routes_calls cs t) = last_set_route cs (latestRoute t).
Proof.
  revert t. induction cs as [|c cs IH]; intros t; [done|].
  change (routes_calls (c :: cs) t) with (routes_calls cs (routes_call c t)).
  rewrite IH. destruct c as [r|j|j]; simpl; try done.
  unfold bindJob. destruct (latestRoute t) eqn:E; simpl; by rewrite ?E.
Qed.

(** Only [bindJob J] can create a binding for [J]. *)
Lemma unbound_routes_calls (J : string) cs t :
  BindJob J ∉ cs →
  routesByJobId t !! J = None →
  routesByJobId (routes_calls cs t) !! J = None.
Proof.
  revert t. induction cs as [|c cs IH]; intros t Hno Hnone; [done|].
  change (routes_calls (c :: cs) t) with (routes_calls cs (routes_call c t)).
  apply IH; [set_solver|].
  destruct c as [r|j|j]; simpl; [done| |].
  - unfold bindJob. destruct (latestRoute t); [|done]. simpl.
    rewrite lookup_insert_ne; [done|]. intros ->. set_solver.
  - destruct (decide (j = J)) as [->|Hne].
    + apply lookup_delete_eq.
    + by rewrite lookup_delete_ne.
Qed.

(** Route changes never touch an existing binding. *)
Lemma bound_setLatestRoutes (J : string) (R : SchedulerRoute) (later : list SchedulerRoute) t :
  routesByJobId t !! J = Some R →
  resolve J (routes_calls (SetLatestRoute <$> later) t) = Some R.
Proof.
  revert t. induction later as [|r later IH]; intros t Hb.
  - unfold resolve. simpl. by rewrite Hb.
  - simpl. apply IH. done.
Qed.

(** C3. For every [SchedulerRoutes] instance [t] and job id [J]:
    after [setLatestRoute(R1)], [bindJob(J)] and then any number of further
    [setLatestRoute] calls (in particular the single call
    [setLatestRoute(R2)]), [resolve(J)] returns [R1]; on a fresh instance,
    after any history [cs] of calls without a [bindJob(J)], [resolve(J)]
    returns the latest route, which is the argument of the last
    [setLatestRoute] call and nothing when there was none; and after
    [removeJob(J)], [resolve(J)] is the latest route. *)
Theorem scheduler_routes_resolve
    (t : SchedulerRoutes) (J : string) (R1 R2 : SchedulerRoute)
    (later : list SchedulerRoute) (cs : list RoutesCall)
    (Hunbound : BindJob J ∉ cs) :
  resolve J (setLatestRoute R2 (bindJob J (setLatestRoute R1 t))) = Some R1
  ∧ resolve J (routes_calls (SetLatestRoute <$> later) (bindJob J (setLatestRoute R1 t))) = Some R1
  ∧ resolve J (routes_calls cs newSchedulerRoutes) = latestRoute (routes_calls cs newSchedulerRoutes)
  ∧ latestRoute (routes_calls cs newSchedulerRoutes) = last_set_route cs None
  ∧ resolve J (removeJob J t) = latestRoute t
  ∧ latestRoute (removeJob J t) = latestRoute t.
Proof.
  assert (Hb : routesByJobId (bindJob J (setLatestRoute R1 t)) !! J = Some R1)
    by (unfold bindJob; simpl; apply lookup_insert_eq).
  split_and!.
  - apply (bound_setLatestRoutes J R1 [R2]), Hb.
  - apply bound_setLatestRoutes, Hb.
  - unfold resolve. by rewrite (unbound_routes_calls J cs newSchedulerRoutes).
  - apply latestRoute_routes_calls.
  - unfold resolve, removeJob. simpl. by rewrite lookup_delete_eq.
  - done.
Qed.

(** C3 at a concrete history: a job bound under [route_a] keeps it, and an
    unbound job resolves to the last route set. *)
Lemma scheduler_routes_resolve_witness :
  let cs := [SetLatestRoute route_a; BindJob "other"; SetLatestRoute route_b; RemoveJob "job-1"] in
  (BindJob "job-1" ∉ cs)
  ∧ resolve "job-1"
      (setLatestRoute route_b (bindJob "job-1" (setLatestRoute route_a newSchedulerRoutes)))
    = Some route_a
  ∧ resolve "job-1" (routes_calls cs newSchedulerRoutes) = Some route_b.
Proof.
  intros cs.
  assert (Hno : BindJob "job-1" ∉ cs).
  { unfold cs. intros Hin. repeat (apply elem_of_cons in Hin as [Hin|Hin]; [discriminate Hin|]).
    by apply elem_of_nil in Hin. }
  pose proof (scheduler_routes_resolve newSchedulerRoutes "job-1" route_a route_b [] cs Hno)
    as (H1 & _ & H3 & H4 & _).
  split_and!; [exact Hno | exact H1 |].
  rewrite H3, H4. reflexivity.
Defined.

(** ** SchedulerBridge *)

Lemma includes_intro pre sub post : includes (pre +:+ sub +:+ post) sub.
Proof. by exists pre, post. Qed.

Lemma string_app_assoc (a b c : string) : (a +:+ b) +:+ c = a +:+ b +:+ c.
Proof.
  induction a as [|x a IH]; [done|].
  change (String x ((a +:+ b) +:+ c) = String x (a +:+ b +:+ c)). by rewrite IH.
Qed.

Lemma string_app_empty_r (a : string) : a +:+ "" = a.
Proof.
  induction a as [|x a IH]; [done|].
  change (String x (a +:+ "") = String x a). by rewrite IH.
Qed.

Lemma includes_suffix pre sub : includes (pre +:+ sub) sub.
Proof. exists pre, "". by rewrite string_app_empty_r. Qed.

Lemma includes_empty s : includes s "".
Proof. by exists "", s. Qed.

Lemma includes_app_r pre s sub : includes s sub → includes (pre +:+ s) sub.
Proof.
  intros (a & b & ->). exists (pre +:+ a), b. by rewrite string_app_assoc.
Qed.

(** The text of an [ok] event names the job and carries the summary, when
    the event has one. *)
Lemma formatFinishedEventText_ok jobId osummary error :
  let text := formatFinishedEventText
    {| ev_jobId := Some jobId; ev_action := Some "finished"; ev_status := Some "ok";
       ev_summary := osummary; ev_error := error |} in
  includes text jobId ∧ ∀ summary, osummary = Some summary → includes text summary.
Proof.
  cbv zeta. unfold formatFinishedEventText. simpl. split.
  - apply includes_intro.
  - intros summary ->. destruct summary as [|c s].
    + apply includes_empty.
    + simpl. apply includes_app_r, includes_app_r, includes_suffix.
Qed.

(** Effects already produced are a prefix of what the loop produces. *)
Lemma consume_effects_prefix onDelivery workspaceDir ms : ∀ workspaces effects,
  foldl (λ acc m, let r := handleMessage onDelivery acc.1 workspaceDir m in (r.1, acc.2 ++ r.2))
        (workspaces, effects) ms
  = ((consumeMessages onDelivery workspaces workspaceDir ms).1,
     effects ++ (consumeMessages onDelivery workspaces workspaceDir ms).2).
Proof.
  unfold consumeMessages.
  induction ms as [|m ms IH]; intros workspaces effects; cbn [foldl].
  - cbn. by rewrite app_nil_r.
  - cbn [fst snd]. rewrite IH. rewrite (IH _ ([] ++ _)).
    cbn [fst snd]. by rewrite app_nil_l, app_assoc.
Qed.

Lemma consumeMessages_cons onDelivery workspaces workspaceDir m ms :
  consumeMessages onDelivery workspaces workspaceDir (m :: ms)
  = let r := handleMessage onDelivery workspaces workspaceDir m in
    ((consumeMessages onDelivery r.1 workspaceDir ms).1,
     r.2 ++ (consumeMessages onDelivery r.1 workspaceDir ms).2).
Proof.
  unfold consumeMessages at 1. cbn [foldl fst snd]. rewrite consume_effects_prefix.
  by rewrite app_nil_l.
Qed.

(** C9 (amended). For a [finished] scheduler event on the stream of a
    registered workspace. When the job id of the event is not empty: if the
    status is [ok] and the job id resolves to a route, [handleMessage] calls
    the delivery callback exactly once, for that route, with a text that
    contains the job identifier and the summary of the event, and logs no
    warning; if the job id resolves to no route, there is no delivery call
    and exactly one logged warning, the bridge state is left as it was, and
    the deliveries made for the rest [ms] of the stream are those made had
    the event never arrived: the notification is dropped and not retried.
    When the job id of the event is empty, the event is ignored, whatever
    its status and whatever the routes: no delivery call, no log entry, no
    change of state. *)
Theorem scheduler_bridge_finished
    (onDelivery : SchedulerRoute → string → bool)
    (workspaces : gmap string WorkspaceSchedulerState) (workspaceDir : string)
    (state : WorkspaceSchedulerState)
    (session : string) (tools : option (list string))
    (jobId : string) (status osummary error : option string) (ms : list SDKMessage)
    (Hws : workspaces !! workspaceDir = Some state) :
  (jobId ≠ "" →
   (∀ route, resolve jobId (routes state) = Some route →
      let out := handleMessage onDelivery workspaces workspaceDir
                   (finished_message session tools jobId (Some "ok") osummary error) in
      ∃ text, deliveries out.2 = [(route, text)]
              ∧ includes text jobId
              ∧ (∀ summary, osummary = Some summary → includes text summary)
              ∧ warnings out.2 = []
              ∧ out.1 = workspaces)
   ∧ (resolve jobId (routes state) = None →
      let event := finished_message session tools jobId status osummary error in
      let out := handleMessage onDelivery workspaces workspaceDir event in
      deliveries out.2 = [] ∧ length (warnings out.2) = 1 ∧ out.1 = workspaces
      ∧ deliveries (consumeMessages onDelivery workspaces workspaceDir (event :: ms)).2
        = deliveries (consumeMessages onDelivery workspaces workspaceDir ms).2))
  ∧ handleMessage onDelivery workspaces workspaceDir
      (finished_message session tools "" status osummary error)
    = (workspaces, []).
Proof.
  split; [intros Hjob|by unfold handleMessage, finished_message; simpl; rewrite Hws].
  assert (Ht : truthy jobId = true) by (by destruct jobId).
  split.
  - intros route Hr. cbv zeta.
    unfold handleMessage, finished_message. simpl.
    rewrite Hws. simpl. rewrite Ht. simpl. rewrite Hr.
    pose proof (formatFinishedEventText_ok jobId osummary error) as [Hj Hs].
    eexists. destruct (onDelivery _ _); simpl;
      (split_and!; [reflexivity | exact Hj | exact Hs | done | done]).
  - intros Hr. cbv zeta. rewrite consumeMessages_cons. cbv zeta.
    assert (Hout : handleMessage onDelivery workspaces workspaceDir
                     (finished_message session tools jobId status osummary error)
                   = (workspaces, [LogWarn "Scheduler event has no route mapping"])).
    { unfold handleMessage, finished_message. simpl.
      rewrite Hws. simpl. rewrite Ht. simpl. by rewrite Hr. }
    rewrite Hout. done.
Qed.

(** C9 at a concrete event: job [job-1], bound to [route_a], finishes with
    status [ok] and summary "report sent". *)
Lemma scheduler_bridge_finished_witness :
  let ws : gmap string WorkspaceSchedulerState :=
    {[ "/data/ws/u1" := {| routes := bindJob "job-1" (setLatestRoute route_a newSchedulerRoutes);
                           closing := false |} ]} in
  let out := handleMessage (λ _ _, true) ws "/data/ws/u1"
               (finished_message "sched-1" None "job-1" (Some "ok") (Some "report sent") None) in
  "job-1" ≠ ""
  ∧ deliveries out.2 = [(route_a, "Scheduled job job-1: report sent")]
  ∧ warnings out.2 = []
  ∧ out.1 = ws.
Proof.
  intros ws out.
  assert (Hl : ws !! "/data/ws/u1"
               = Some {| routes := bindJob "job-1" (setLatestRoute route_a newSchedulerRoutes);
                         closing := false |}) by (vm_compute; reflexivity).
  assert (Hj : "job-1" ≠ "") by discriminate.
  destruct (scheduler_bridge_finished (λ _ _, true) ws "/data/ws/u1" _ "sched-1" None "job-1"
              None (Some "report sent") None [] Hl) as [Hne _].
  destruct (Hne Hj) as [Hok _].
  destruct (Hok route_a ltac:(vm_compute; reflexivity)) as (text & Hd & _ & _ & Hw & Hs).
  split_and!; [exact Hj | | exact Hw | exact Hs].
  fold out in Hd. rewrite Hd. f_equal. f_equal.
  assert (Hd' : deliveries out.2 = [(route_a, "Scheduled job job-1: report sent")])
    by (vm_compute; reflexivity).
  rewrite Hd in Hd'. by injection Hd'.
Defined.

(** C9, counterexample to the statement as worded: a [finished] event of
    status [ok] whose job id is the empty string, on a workspace whose latest
    route is [route_a]. [resolve] gives [route_a] for that id, yet
    [handleMessage] returns at its test [!event.jobId]: there is no delivery
    call. *)
Lemma scheduler_bridge_finished_empty_job_id :
  let state := {| routes := setLatestRoute route_a newSchedulerRoutes; closing := false |} in
  let ws : gmap string WorkspaceSchedulerState := {[ "/data/ws/u1" := state ]} in
  resolve "" (routes state) = Some route_a
  ∧ handleMessage (λ _ _, true) ws "/data/ws/u1"
      (finished_message "sched-1" None "" (Some "ok") (Some "report sent") None)
    = (ws, [])
  ∧ ¬ finished_event_as_stated (λ _ _, true) ws "/data/ws/u1" state "sched-1" None ""
        (Some "ok") (Some "report sent") None.
Proof.
  intros state ws.
  assert (Hl : ws !! "/data/ws/u1" = Some state) by (vm_compute; reflexivity).
  assert (Hr : resolve "" (routes state) = Some route_a) by (vm_compute; reflexivity).
  split_and!; [exact Hr | by unfold handleMessage, finished_message; simpl; rewrite Hl |].
  intros H. destruct (H Hl) as [Hok _].
  destruct (Hok route_a Hr) as (text & Hd & _).
  unfold handleMessage, finished_message in Hd. simpl in Hd. rewrite Hl in Hd.
  discriminate Hd.
Qed.

(** ** ChannelQueue *)

Lemma sequential_trace_snoc completed w :
  sequential_trace (completed ++ [w]) = sequential_trace completed ++ [Started w; Finished w].
Proof. unfold sequential_trace. rewrite bind_app. simpl. done. Qed.

Lemma queue_inv_new : queue_inv [] newChannelQueue.
Proof. exists []. simpl. split_and!; (done || lia). Qed.

Lemma queue_inv_enqueue ws q w :
  queue_inv ws q → queue_inv (ws ++ [w]) (enqueue w q).
Proof.
  intros (completed & Htr & Hws & Hlen & Hproc & Hidle).
  destruct q as [qu pr ru tr er]; simpl in *.
  unfold enqueue, processNext; simpl.
  destruct ru as [|r [|r' ru]]; simpl in *; [| |lia]; subst pr; simpl.
  - rewrite Hidle in * by done. simpl. exists completed. simpl. subst.
    rewrite !app_nil_r. split_and!; [done|done|lia|done|done].
  - exists completed. simpl. subst.
    split_and!; [done|by rewrite <- !app_assoc|lia|done|done].
Qed.

Lemma queue_inv_settle ws q i o :
  queue_inv ws q → queue_inv ws (settle i o q).
Proof.
  intros (completed & Htr & Hws & Hlen & Hproc & Hidle).
  unfold settle. destruct (running q !! i) as [w|] eqn:Hi; [|by exists completed].
  destruct q as [qu pr ru tr er]; simpl in *.
  destruct ru as [|r [|r' ru]]; simpl in *; [done| |lia].
  destruct i as [|i]; simpl in Hi; [|done]. injection Hi as ->.
  unfold processNext; simpl. subst.
  destruct qu as [|w' qu]; simpl; exists (completed ++ [w]); simpl;
    rewrite sequential_trace_snoc, <- !app_assoc; simpl.
  - split_and!; [done|done|lia|done|done].
  - split_and!; [done|done|lia|done|done].
Qed.

Lemma enqueued_snoc acts a :
  enqueued (acts ++ [a]) = enqueued acts ++ match a with Enqueue w => [w] | Settle _ _ => [] end.
Proof. unfold enqueued. rewrite omap_app. by destruct a. Qed.

Lemma queue_inv_run acts :
  queue_inv (enqueued acts) (queue_run acts newChannelQueue).
Proof.
  induction acts as [|a acts IH] using rev_ind; [apply queue_inv_new|].
  unfold queue_run. rewrite foldl_app. simpl. fold (queue_run acts newChannelQueue).
  rewrite enqueued_snoc. destruct a as [w|i o]; simpl.
  - by apply queue_inv_enqueue.
  - rewrite app_nil_r. by apply queue_inv_settle.
Qed.

(** When the running item settles, resolved or rejected, the head of the
    waiting items is started. *)
Lemma settle_starts_next ws q o :
  queue_inv ws q →
  running (settle 0 o q) = take 1 (queue q) ∧ queue (settle 0 o q) = drop 1 (queue q).
Proof.
  intros (completed & Htr & Hws & Hlen & Hproc & Hidle).
  unfold settle. destruct q as [qu pr ru tr er]; simpl in *.
  destruct ru as [|r [|r' ru]]; simpl in *; [by rewrite Hidle | |lia].
  unfold processNext; simpl. by destruct qu.
Qed.

Lemma settle_all_drains os : ∀ ws q,
  queue_inv ws q →
  length os = length (running q) + length (queue q) →
  trace (settle_all os q) = sequential_trace ws
  ∧ running (settle_all os q) = [] ∧ queue (settle_all os q) = [].
Proof.
  induction os as [|o os IH]; intros ws q Hinv Hlen.
  - destruct Hinv as (completed & Htr & Hws & _ & _ & _). simpl in *.
    destruct (running q); [|simpl in Hlen; lia]. destruct (queue q); [|simpl in Hlen; lia].
    simpl in *. rewrite !app_nil_r in *. by subst.
  - change (settle_all (o :: os) q) with (settle_all os (settle 0 o q)).
    apply IH; [by apply queue_inv_settle|].
    destruct (settle_starts_next ws q o Hinv) as [-> ->].
    destruct Hinv as (completed & _ & _ & Hl & _ & Hidle).
    rewrite <- length_app, take_drop.
    simpl in Hlen. destruct (running q) as [|r [|r' ru]]; simpl in *; [|lia..].
    rewrite Hidle in Hlen by done. simpl in Hlen. lia.
Qed.

(** A rejected item is reported by the [catch] block and nothing else is. *)
Lemma settle_reports_rejection ws q o w :
  queue_inv ws q → running q = [w] →
  errors (settle 0 o q) = match o with Rejects => errors q ++ [w] | Resolves => errors q end.
Proof.
  intros _ Hr. unfold settle. rewrite Hr. simpl.
  unfold processNext. simpl. destruct (queue q); simpl; by destruct o.
Qed.

(** *** QueueManager *)

Lemma queue_of_manager_step c ca m :
  queue_of c (manager_step ca m)
  = if decide (ca.1 = c) then queue_step ca.2 (queue_of c m) else queue_of c m.
Proof.
  destruct ca as [c' a]. unfold manager_step, getQueue, queue_of. simpl.
  destruct (m !! c') as [q'|] eqn:Hc'; case_decide as Hd; subst.
  - by rewrite lookup_insert_eq, Hc'.
  - by rewrite lookup_insert_ne.
  - by rewrite lookup_insert_eq, Hc'.
  - by rewrite !lookup_insert_ne.
Qed.

(** Channels are independent: the queue of a channel only sees the actions
    addressed to it. *)
Lemma queue_of_manager_run c acts : ∀ m,
  queue_of c (manager_run acts m) = queue_run (on_channel c acts) (queue_of c m).
Proof.
  induction acts as [|ca acts IH]; intros m; [done|].
  change (manager_run (ca :: acts) m) with (manager_run acts (manager_step ca m)).
  rewrite IH, queue_of_manager_step. unfold on_channel. simpl.
  case_decide; done.
Qed.

(** C2. For every channel [c] and every global schedule [acts] of enqueue
    calls and promise settlements (resolved or rejected) over all channels,
    with [ws] the work items enqueued on [c] in order: the trace of [c]'s
    queue is that of a prefix [completed] of [ws] run strictly one after the
    other followed by the start of the items now running, [ws] is
    [completed], then the running items, then the waiting ones, at most one
    item is running, and an item waits only while one is running. When the running item settles,
    whatever its outcome [o], the head of the waiting items is started; and
    once every started item has settled, with any outcomes [os], all of [ws]
    have run to completion, one after the other, in enqueue order. *)
Theorem channel_queue_sequential
    (acts : list (string * QueueAction)) (c : string) (o : Outcome) (os : nat → Outcome) :
  let q := queue_of c (manager_run acts ∅) in
  let ws := enqueued (on_channel c acts) in
  (∃ completed : list Work,
     trace q = sequential_trace completed ++ (Started <$> running q)
     ∧ ws = completed ++ running q ++ queue q)
  ∧ length (running q) ≤ 1
  ∧ (queue q = [] ∨ length (running q) = 1)
  ∧ running (settle 0 o q) = take 1 (queue q)
  ∧ queue (settle 0 o q) = drop 1 (queue q)
  ∧ (let q' := settle_all (os <$> seq 0 (length (running q) + length (queue q))) q in
     trace q' = sequential_trace ws ∧ running q' = [] ∧ queue q' = []).
Proof.
  intros q ws.
  assert (Hinv : queue_inv ws q).
  { unfold q, ws. rewrite queue_of_manager_run. apply queue_inv_run. }
  pose proof (settle_starts_next ws q o Hinv) as [Hs1 Hs2].
  pose proof (settle_all_drains (os <$> seq 0 (length (running q) + length (queue q))) ws q Hinv)
    as Hdrain.
  destruct Hinv as (completed & Htr & Hws & Hlen & Hproc & Hidle).
  split_and!; try done.
  - by exists completed.
  - destruct (running q) as [|r [|r' ru]] eqn:Hr; simpl in *; [left; by apply Hidle | by right | lia].
  - apply Hdrain. by rewrite length_fmap, length_seq.
Qed.

(** ** AgentRunner: session persistence *)

Lemma sessionId_foldl onMessage ms : ∀ st,
  sessionId (foldl (runMessage onMessage) st ms)
  = foldl (λ acc m, match m with
                    | SystemMessage _ sid _ _ => sid
                    | ResultMessage sid _ _ => sid
                    | _ => acc
                    end) (sessionId st) ms.
Proof.
  induction ms as [|m ms IH]; intros st; [done|]. simpl. rewrite IH. f_equal.
  unfold runMessage. by repeat case_match.
Qed.

Lemma missingFileSendTools_foldl onMessage ms : ∀ st,
  missingFileSendTools (foldl (runMessage onMessage) st ms)
  = missingFileSendTools st || degraded ms.
Proof.
  induction ms as [|m ms IH]; intros st; simpl; [by rewrite orb_false_r|].
  rewrite IH, orb_assoc. f_equal.
  destruct m as [? ? tools ?|? c|?|? [] []|?]; simpl; rewrite ?orb_false_r; try done.
  - destruct (availableFileSendTools (default [] tools)) eqn:E; simpl.
    + by rewrite orb_true_r.
    + by rewrite orb_false_r.
  - by repeat case_match.
Qed.

Lemma runMessages_sessionId onMessage ms :
  sessionId (runMessages onMessage ms) = streamSessionId ms.
Proof. apply sessionId_foldl. Qed.

Lemma runMessages_degraded onMessage ms :
  missingFileSendTools (runMessages onMessage ms) = degraded ms.
Proof. unfold runMessages. by rewrite missingFileSendTools_foldl. Qed.

(** C1, counterexample to the statement as worded: a first run in a workspace
    (nothing persisted yet) whose system event lists no file-send tool is
    degraded, and its session id is persisted all the same. *)
Lemma session_persistence_degraded_first_run :
  ¬ session_persistence_as_stated None "/data/ws/u1"
      [SystemMessage (Some "init") "sess-1" (Some ["Bash"; "Read"]) None;
       ResultMessage "sess-1" false (Some "done")] "" ∅.
Proof.
  intros [Hdeg _]. specialize (Hdeg eq_refl). vm_compute in Hdeg. discriminate Hdeg.
Qed.

(** C1 (amended). On completion of a run in workspace [workspaceDir]: if the
    session was degraded and a session id had been persisted for the
    workspace (the run resumed it), the only call into the session store
    clears that id and nothing is persisted for the workspace afterwards, so
    the next run starts a fresh session; otherwise (the session was not
    degraded, or it was degraded but nothing had been persisted) the observed
    session id, when there is one, is saved and is what the store holds
    afterwards, and when there is none the store is left alone. The session
    ids of other workspaces are untouched. *)
Theorem session_persistence
    (onMessage : option (string → bool)) (workspaceDir : string)
    (messages : list SDKMessage) (querySessionId : string) (store : gmap string string) :
  let calls := runAgent_sessionCalls onMessage workspaceDir messages querySessionId store in
  let store' := runAgent_sessions onMessage workspaceDir messages querySessionId store in
  let sid := runSessionId messages querySessionId in
  calls = (if degraded messages && truthy_opt (getSessionId workspaceDir store)
           then [ClearSessionId workspaceDir]
           else if truthy sid then [SaveSessionId workspaceDir sid]
           else [])
  ∧ getSessionId workspaceDir store'
    = (if degraded messages && truthy_opt (getSessionId workspaceDir store) then None
       else if truthy sid then Some sid
       else getSessionId workspaceDir store)
  ∧ delete workspaceDir store' = delete workspaceDir store.
Proof.
  cbv zeta.
  unfold runAgent_sessions, runAgent_sessionCalls, persistSession, sessionCalls,
    observedSessionId, runSessionId.
  rewrite runMessages_sessionId, runMessages_degraded.
  unfold getSessionId.
  set (sid := if truthy (streamSessionId messages) then _ else _).
  destruct (degraded messages && truthy_opt (store !! workspaceDir)) eqn:E; simpl.
  - rewrite andb_false_r. simpl. unfold clearSessionId.
    split_and!; [done | apply lookup_delete_eq | by rewrite delete_delete_eq].
  - rewrite andb_true_r. destruct (truthy sid); simpl; [|done].
    unfold saveSessionId.
    split_and!; [done | apply lookup_insert_eq | apply delete_insert_eq].
Qed.

(** ** Paths and their segments *)

Lemma string_app_cons c (a b : string) : String c a +:+ b = String c (a +:+ b).
Proof. done. Qed.

Lemma string_app_nil_l (b : string) : "" +:+ b = b.
Proof. done. Qed.

Lemma split_on_nonempty sep s : split_on sep s ≠ [].
Proof.
  destruct s as [|c s]; simpl; [done|].
  destruct (Ascii.eqb c sep); [done|]. by destruct (split_on sep s).
Qed.

Lemma split_on_app sep (a b : string) :
  split_on sep (a +:+ String sep b) = split_on sep a ++ split_on sep b.
Proof.
  induction a as [|c a IH].
  - rewrite string_app_nil_l. simpl. by rewrite Ascii.eqb_refl.
  - rewrite string_app_cons. simpl. rewrite IH.
    destruct (Ascii.eqb c sep); [done|].
    pose proof (split_on_nonempty sep a). by destruct (split_on sep a).
Qed.

Lemma split_on_slash_free s : slash_free s = true → split_on "/" s = [s].
Proof.
  induction s as [|c s IH]; simpl; [done|].
  intros [Hc Hs]%andb_true_iff. apply negb_true_iff in Hc. rewrite Hc, IH; done.
Qed.

Lemma split_on_elements s : Forall (λ seg, slash_free seg = true) (split_on "/" s).
Proof.
  induction s as [|c s IH]; simpl; [by repeat constructor|].
  destruct (Ascii.eqb c "/") eqn:Hc; [by constructor|].
  destruct (split_on "/" s) as [|h t]; [by repeat constructor; simpl; rewrite Hc|].
  inversion IH; subst. constructor; [|done]. simpl. by rewrite Hc.
Qed.

Lemma str_join_cons (x : string) (xs : list string) :
  xs ≠ [] → str_join "/" (x :: xs) = x +:+ String "/" (str_join "/" xs).
Proof. destruct xs; [done|]. intros _. done. Qed.

Lemma split_join segs :
  Forall (λ seg, slash_free seg = true) segs → segs ≠ [] →
  split_on "/" (str_join "/" segs) = segs.
Proof.
  induction segs as [|x xs IH]; [done|]. intros Hall _.
  inversion Hall as [|? ? Hx Hxs]; subst.
  destruct xs as [|y ys].
  - simpl. by apply split_on_slash_free.
  - rewrite str_join_cons by done. rewrite split_on_app, split_on_slash_free by done.
    rewrite IH by done. done.
Qed.

Lemma normalize_step_clean acc seg :
  Forall clean_segment acc → slash_free seg = true →
  Forall clean_segment (normalize_step false acc seg).
Proof.
  intros Hacc Hseg. unfold normalize_step.
  destruct (String.eqb_spec seg "") as [->|H1]; simpl; [done|].
  destruct (String.eqb_spec seg ".") as [->|H2]; simpl; [done|].
  destruct (String.eqb_spec seg "..") as [->|H3].
  - destruct (last acc) as [l|] eqn:Hl; [|by constructor].
    destruct (String.eqb l ".."); [done|].
    destruct acc as [|a acc' _] using rev_ind; [done|].
    rewrite removelast_last. by apply Forall_app in Hacc as [? _].
  - apply Forall_app. split; [done|]. by repeat constructor.
Qed.

Lemma normalize_fold_clean segs : ∀ acc,
  Forall clean_segment acc → Forall (λ seg, slash_free seg = true) segs →
  Forall clean_segment (foldl (normalize_step false) acc segs).
Proof.
  induction segs as [|seg segs IH]; intros acc Hacc Hsegs; simpl; [done|].
  inversion Hsegs; subst. apply IH; [|done]. by apply normalize_step_clean.
Qed.

Lemma normalize_segments_clean p : Forall clean_segment (normalize_segments false p).
Proof. apply normalize_fold_clean; [constructor|apply split_on_elements]. Qed.

Lemma normalize_fold_on_clean segs : ∀ acc,
  Forall clean_segment segs → foldl (normalize_step false) acc segs = acc ++ segs.
Proof.
  induction segs as [|seg segs IH]; intros acc Hsegs; simpl; [by rewrite app_nil_r|].
  inversion Hsegs as [|? ? (Hs & H1 & H2 & H3) Hrest]; subst.
  rewrite IH by done. unfold normalize_step.
  rewrite (proj2 (String.eqb_neq seg "")), (proj2 (String.eqb_neq seg ".")),
          (proj2 (String.eqb_neq seg "..")) by done.
  simpl. by rewrite <- app_assoc.
Qed.

(** The segments of an absolute path written from clean segments are these
    segments. *)
Lemma normalize_segments_join segs :
  Forall clean_segment segs →
  normalize_segments false ("/" +:+ str_join "/" segs) = segs.
Proof.
  intros Hclean. unfold normalize_segments.
  change ("/" +:+ str_join "/" segs) with (String "/" (str_join "/" segs)).
  change (split_on "/" (String "/" (str_join "/" segs)))
    with ("" :: split_on "/" (str_join "/" segs)).
  destruct segs as [|x xs]; [done|].
  rewrite split_join; [|by eapply Forall_impl; [exact Hclean|intros ? []]|done].
  change (foldl (normalize_step false) [] ("" :: x :: xs))
    with (foldl (normalize_step false) [] (x :: xs)).
  by rewrite normalize_fold_on_clean.
Qed.

(** A resolved path is the absolute path of its own segments. *)
Lemma path_resolve_segments cwd paths :
  let segs := normalize_segments false (path_resolve cwd paths) in
  Forall clean_segment segs ∧ path_resolve cwd paths = "/" +:+ str_join "/" segs.
Proof.
  simpl. split; [apply normalize_segments_clean|].
  unfold path_resolve at 2. f_equal. f_equal.
  unfold path_resolve. by rewrite normalize_segments_join by apply normalize_segments_clean.
Qed.

Lemma startsWith_app (p x : string) : startsWith (p +:+ x) p = true.
Proof.
  unfold startsWith. induction p as [|c p IH]; [by destruct x|].
  rewrite string_app_cons. simpl. by destruct (ascii_dec c c).
Qed.

Lemma startsWith_inv (s p : string) : startsWith s p = true → ∃ x, s = p +:+ x.
Proof.
  unfold startsWith. revert s. induction p as [|c p IH]; intros s Hs.
  - by exists s.
  - destruct s as [|d s]; simpl in Hs; [done|].
    destruct (ascii_dec c d) as [->|]; [|done].
    destruct (IH s Hs) as [x ->]. by exists x.
Qed.

Lemma str_join_app (segs1 segs2 : list string) :
  segs1 ≠ [] → segs2 ≠ [] →
  str_join "/" (segs1 ++ segs2) = str_join "/" segs1 +:+ String "/" (str_join "/" segs2).
Proof.
  induction segs1 as [|x xs IH]; [done|]. intros _ H2.
  destruct xs as [|y ys].
  - simpl app. by rewrite str_join_cons.
  - change ((x :: y :: ys) ++ segs2) with (x :: (y :: ys) ++ segs2).
    rewrite str_join_cons by done. rewrite IH by done.
    rewrite (str_join_cons x (y :: ys)) by done.
    by rewrite string_app_assoc.
Qed.

(** A path that lies inside the workspace starts with the workspace root. *)
Lemma inside_workspace_startsWith cwd workspaceDir p :
  let root := path_resolve cwd [workspaceDir] in
  let abs := path_resolve cwd [p] in
  inside_workspace root abs = true → startsWith abs root = true.
Proof.
  cbv zeta. unfold inside_workspace. intros Hin. apply bool_decide_eq_true in Hin.
  destruct (path_resolve_segments cwd [workspaceDir]) as [_ Hr].
  destruct (path_resolve_segments cwd [p]) as [_ Ha]. cbv zeta in Hr, Ha.
  set (sr := normalize_segments false (path_resolve cwd [workspaceDir])) in *.
  set (sa := normalize_segments false (path_resolve cwd [p])) in *.
  clearbody sr sa. rewrite Ha, Hr. clear Ha Hr.
  destruct Hin as [k ->].
  destruct sr as [|r rs]; [apply (startsWith_app "/" (str_join "/" ([] ++ k)))|].
  destruct k as [|k1 ks].
  - rewrite app_nil_r, <- (string_app_empty_r ("/" +:+ str_join "/" (r :: rs))) at 1.
    apply startsWith_app.
  - rewrite str_join_app by done. rewrite <- string_app_assoc. apply startsWith_app.
Qed.

(** The workspace test of the upload-selection policy is sound: a path that
    passes it lies inside the workspace. *)
Lemma policy_check_inside_workspace cwd workspaceDir p :
  let root := path_resolve cwd [workspaceDir] in
  let abs := path_resolve cwd [p] in
  startsWith abs (root +:+ "/") = true ∨ abs = root → inside_workspace root abs = true.
Proof.
  cbv zeta. unfold inside_workspace. intros Hcheck. apply bool_decide_eq_true.
  destruct Hcheck as [Hs|Heq]; [|by rewrite Heq].
  apply startsWith_inv in Hs as [x Hx].
  destruct (path_resolve_segments cwd [workspaceDir]) as [Hrc Hr].
  destruct (path_resolve_segments cwd [p]) as [Hac Ha]. cbv zeta in Hr, Ha, Hrc, Hac.
  set (sr := normalize_segments false (path_resolve cwd [workspaceDir])) in *.
  set (sa := normalize_segments false (path_resolve cwd [p])) in *.
  clearbody sr sa.
  destruct sr as [|r rs]; [by exists sa|].
  assert (Hsplit : split_on "/" (path_resolve cwd [p])
                   = split_on "/" (path_resolve cwd [workspaceDir]) ++ split_on "/" x).
  { rewrite Hx. rewrite string_app_assoc. apply split_on_app. }
  rewrite Ha, Hr in Hsplit.
  change (split_on "/" ("/" +:+ str_join "/" (r :: rs)))
    with ("" :: split_on "/" (str_join "/" (r :: rs))) in Hsplit.
  change (split_on "/" ("/" +:+ str_join "/" sa))
    with ("" :: split_on "/" (str_join "/" sa)) in Hsplit.
  rewrite (split_join (r :: rs)) in Hsplit; [|by eapply Forall_impl; [exact Hrc|intros ? []]|done].
  destruct sa as [|a1 as'].
  - exfalso. simpl in Hsplit. injection Hsplit as Hr0 _.
    inversion Hrc as [|? ? (_ & Hne & _) _]. by subst.
  - rewrite (split_join (a1 :: as')) in Hsplit;
      [|by eapply Forall_impl; [exact Hac|intros ? []]|done].
    injection Hsplit as -> ->. by exists (split_on "/" x).
Qed.

(** ** UploadCollector *)

(** [collect] keeps the order of the calls, and [drain] empties the list. *)
Lemma collector_drain (c : UploadCollector) (files : list string) :
  let c' := foldl (λ acc f, collect f acc) c files in
  (drain c').1 = pending c ++ files
  ∧ (drain (drain c').2).1 = []
  ∧ pendingMessages (drain c').2 = pendingMessages c.
Proof.
  simpl. revert c. induction files as [|f files IH]; intros c; simpl.
  - by rewrite app_nil_r.
  - destruct (IH (collect f c)) as (H1 & H2 & H3). simpl in *.
    rewrite H1, <- app_assoc. done.
Qed.

Example collector_stores_paths :
  (drain (collect "/workspace/file2.csv" (collect "/workspace/file1.pdf" newUploadCollector))).1
  = ["/workspace/file1.pdf"; "/workspace/file2.csv"].
Proof. reflexivity. Qed.

Example collector_messages :
  let c := collectMessage "uploaded"
             (collectMessage "   " (collectMessage "file is ready" newUploadCollector)) in
  (drainMessages c).1 = ["file is ready"; "uploaded"]
  ∧ (drainMessages (drainMessages c).2).1 = [].
Proof. vm_compute. done. Qed.

(** ** The SendFileToChat handler *)

(** What [queueFile] does, in the terms of its own two tests. *)
Lemma queueFile_spec cwd fs workspaceDir filePath collector :
  let absWorkspace := path_resolve cwd [workspaceDir] in
  let absPath := path_resolve cwd [default "" filePath] in
  let out := queueFile cwd fs workspaceDir filePath collector in
  if startsWith absPath absWorkspace && existsSync fs absPath
  then out.2 = collect absPath collector
       ∧ pending out.2 = pending collector ++ [absPath]
       ∧ out.1 = "File queued for upload: " +:+ absPath
  else out.2 = collector ∧ startsWith out.1 "Error:" = true.
Proof.
  simpl. unfold queueFile.
  destruct (startsWith _ _); simpl; [|done].
  destruct (existsSync _ _); simpl; done.
Qed.

(** A file that is on disk inside the workspace is collected. *)
Lemma queueFile_inside cwd fs workspaceDir filePath collector :
  let absPath := path_resolve cwd [filePath] in
  inside_workspace (path_resolve cwd [workspaceDir]) absPath = true →
  existsSync fs absPath = true →
  queueFile cwd fs workspaceDir (Some filePath) collector
  = ("File queued for upload: " +:+ absPath, collect absPath collector).
Proof.
  cbv zeta. intros Hin Hex. unfold queueFile.
  change (default "" (Some filePath)) with filePath. cbv zeta.
  by rewrite (inside_workspace_startsWith cwd workspaceDir filePath Hin), Hex.
Qed.

(** C10 (failing input). With workspace [/data/ws] and a file
    [/data/ws-old/secrets.txt] on disk, the resolved path is outside the
    workspace root, yet the handler collects it and reports success: its
    test is a string-prefix test, and [/data/ws] is a string prefix of
    [/data/ws-old/secrets.txt]. *)
Theorem queueFile_sibling_directory :
  let fs : gmap string FileNode := {[ "/data/ws-old/secrets.txt" := {| content := "k"; mtimeMs := 1 |} ]} in
  let out := queueFile "/srv/app" fs "/data/ws" (Some "/data/ws-old/secrets.txt") newUploadCollector in
  inside_workspace "/data/ws" "/data/ws-old/secrets.txt" = false
  ∧ out.1 = "File queued for upload: /data/ws-old/secrets.txt"
  ∧ pending out.2 = ["/data/ws-old/secrets.txt"].
Proof. vm_compute. done. Qed.

(** ** The tool-output queue *)

Lemma elem_of_foldl_set_insert (x : string) l : ∀ acc,
  x ∈ foldl set_insert acc l ↔ x ∈ acc ∨ x ∈ l.
Proof.
  induction l as [|y l IH]; intros acc; simpl.
  - rewrite elem_of_nil. tauto.
  - rewrite IH, elem_of_cons. unfold set_insert. case_bool_decide as Hy.
    + split; [intros [?|?]; auto|intros [?|[->|?]]; auto].
    + rewrite elem_of_app, list_elem_of_singleton. tauto.
Qed.

Lemma elem_of_unique (x : string) l : x ∈ unique l ↔ x ∈ l.
Proof. unfold unique. rewrite elem_of_foldl_set_insert, elem_of_nil. tauto. Qed.

Lemma NoDup_foldl_set_insert l : ∀ acc : list string,
  NoDup acc → NoDup (foldl set_insert acc l).
Proof.
  induction l as [|y l IH]; intros acc Hacc; simpl; [done|].
  apply IH. unfold set_insert. case_bool_decide as Hy; [done|].
  apply NoDup_app. split_and!; [done| |apply NoDup_singleton].
  intros x Hx Hx'. apply list_elem_of_singleton in Hx'. by subst.
Qed.

Lemma NoDup_unique l : NoDup (unique l).
Proof. apply NoDup_foldl_set_insert, NoDup_nil_2. Qed.

Section ToolQueueProperties.
Variable cwd : string.
Variable JSON_parse : string → option JSON.

(** The reset leaves the serialized empty snapshot in the queue file and
    touches no other file. *)
Lemma resetWorkspaceToolQueue_spec now workspaceDir fs :
  readFile (resetWorkspaceToolQueue now workspaceDir fs) (getWorkspaceToolQueuePath workspaceDir)
  = Some EMPTY_QUEUE_JSON
  ∧ delete (getWorkspaceToolQueuePath workspaceDir) (resetWorkspaceToolQueue now workspaceDir fs)
    = delete (getWorkspaceToolQueuePath workspaceDir) fs.
Proof.
  unfold resetWorkspaceToolQueue, writeFile, readFile. split.
  - by rewrite lookup_insert_eq.
  - apply delete_insert_eq.
Qed.

(** The empty value normalizes to the empty snapshot. *)
Lemma normalizeQueueSnapshot_empty fs workspaceDir :
  normalizeQueueSnapshot cwd fs EMPTY_QUEUE_VALUE workspaceDir = emptySnapshot.
Proof. done. Qed.

(** A missing queue file and malformed content both give the empty
    snapshot; whatever the content, the queue file is overwritten with the
    serialized empty snapshot. *)
Lemma drain_missing_or_malformed now workspaceDir fs :
  let queuePath := getWorkspaceToolQueuePath workspaceDir in
  let out := drainWorkspaceToolQueue cwd JSON_parse now workspaceDir fs in
  (readFile fs queuePath = None → out.1 = emptySnapshot)
  ∧ (∀ raw, readFile fs queuePath = Some raw → JSON_parse raw = None → out.1 = emptySnapshot)
  ∧ readFile out.2 queuePath = Some EMPTY_QUEUE_JSON.
Proof.
  simpl. unfold drainWorkspaceToolQueue. simpl. split_and!.
  - by intros ->.
  - by intros raw -> ->.
  - apply resetWorkspaceToolQueue_spec.
Qed.

(** Every upload of a normalized snapshot passed the two tests of the
    filter: it starts with the resolved workspace directory, as a string,
    and it is on disk. *)
Lemma normalizeQueueSnapshot_uploads fs value workspaceDir p :
  p ∈ uploads (normalizeQueueSnapshot cwd fs value workspaceDir) →
  startsWith p (path_resolve cwd [workspaceDir]) = true ∧ existsSync fs p = true.
Proof.
  unfold normalizeQueueSnapshot.
  destruct value as [| | | |items|obj]; simpl; try (by intros ?%elem_of_nil).
  intros Hp. apply (proj1 (elem_of_unique _ _)) in Hp.
  destruct (json_get "uploads" obj) as [[| | | |items|]|]; try (by apply elem_of_nil in Hp).
  apply list_elem_of_filter in Hp as [Hp _].
  by apply andb_true_iff in Hp.
Qed.

(** The round trip of the empty snapshot through [JSON.stringify] and
    [JSON.parse]. *)
Hypothesis JSON_parse_empty : JSON_parse EMPTY_QUEUE_JSON = Some EMPTY_QUEUE_VALUE.

(** C8. For every workspace and every state of the disk: the drain that
    follows a drain, with no write in between, returns empty upload and
    message lists; so does a drain of an initially empty queue, be its file
    missing or holding the serialized empty snapshot. *)
Theorem drain_idempotent_clearing
    (now1 now2 : Z) (workspaceDir : string) (fs : gmap string FileNode) :
  let queuePath := getWorkspaceToolQueuePath workspaceDir in
  let first := drainWorkspaceToolQueue cwd JSON_parse now1 workspaceDir fs in
  let second := drainWorkspaceToolQueue cwd JSON_parse now2 workspaceDir first.2 in
  (uploads second.1 = [] ∧ messages second.1 = [])
  ∧ (readFile fs queuePath = None → uploads first.1 = [] ∧ messages first.1 = [])
  ∧ (readFile fs queuePath = Some EMPTY_QUEUE_JSON →
     uploads first.1 = [] ∧ messages first.1 = []).
Proof.
  simpl. unfold drainWorkspaceToolQueue. simpl.
  destruct (resetWorkspaceToolQueue_spec now1 workspaceDir fs) as [-> _].
  rewrite JSON_parse_empty. split; [done|].
  split; intros ->; [done|]. by rewrite JSON_parse_empty.
Qed.
End ToolQueueProperties.

(** C8 on a concrete disk, with [read_json] for [JSON.parse]: the first drain
    returns what the queue file holds, the second returns nothing. *)
Lemma drain_idempotent_clearing_witness :
  read_json EMPTY_QUEUE_JSON = Some EMPTY_QUEUE_VALUE
  ∧ (let first := drainWorkspaceToolQueue "/srv/app" read_json 20 "/data/ws" fs_sample in
     let second := drainWorkspaceToolQueue "/srv/app" read_json 30 "/data/ws" first.2 in
     uploads first.1 = ["/data/ws/out/report.pdf"] ∧ messages first.1 = ["done"]
     ∧ uploads second.1 = [] ∧ messages second.1 = []).
Proof.
  assert (Hrt : read_json EMPTY_QUEUE_JSON = Some EMPTY_QUEUE_VALUE) by (vm_compute; reflexivity).
  split; [exact Hrt|].
  destruct (drain_idempotent_clearing "/srv/app" read_json Hrt 20 30 "/data/ws" fs_sample)
    as [[Hu Hm] _].
  simpl. split_and!; [vm_compute; reflexivity | vm_compute; reflexivity | exact Hu | exact Hm].
Defined.

(** C7 (failing input). With workspace [/data/ws], a file
    [/data/ws-old/secrets.txt] on disk and a queue file that names it, the
    drain returns that path among the uploads although it lies outside the
    workspace: the filter of [normalizeQueueSnapshot] is a string-prefix
    test. *)
Theorem drain_sibling_directory :
  let out := drainWorkspaceToolQueue "/srv/app" read_json 20 "/data/ws" fs_sibling in
  uploads out.1 = ["/data/ws-old/secrets.txt"]
  ∧ inside_workspace "/data/ws" "/data/ws-old/secrets.txt" = false
  ∧ existsSync fs_sibling "/data/ws-old/secrets.txt" = true.
Proof. vm_compute. done. Qed.

(** ** The upload-selection policy *)

Lemma foldl_set_insert_nonempty l : ∀ acc : list string,
  acc ≠ [] → foldl set_insert acc l ≠ [].
Proof.
  induction l as [|x l IH]; intros acc Hacc; simpl; [done|].
  apply IH. unfold set_insert. case_bool_decide; [done|]. by destruct acc.
Qed.

Lemma unique_length_zero (l : list string) : length (unique l) = 0 ↔ l = [].
Proof.
  split; [|by intros ->].
  destruct l as [|x l]; [done|]. intros Hlen. exfalso.
  apply (foldl_set_insert_nonempty l [x]); [done|].
  by apply length_zero_iff_nil.
Qed.

Section PolicyProperties.
Variable cwd : string.
Variable fs : gmap string FileNode.
Variable workspaceRoot : string.

(** The first loop when the text names files: the candidates that pass the
    common checks and match a requested name are added to [accepted]. *)
Lemma policy_loop_explicit requested latest all cs : ∀ st,
  requested ≠ [] →
  let st' := foldl (policy_step cwd fs workspaceRoot requested latest all) st cs in
  accepted st' = foldl set_insert (accepted st)
                   (filter (λ abs, matchedRequestedName requested abs = true)
                           (valid_candidates cwd fs workspaceRoot cs))
  ∧ autoCandidates st' = autoCandidates st.
Proof.
  induction cs as [|c cs IH]; intros st Hreq; [done|].
  simpl. destruct (IH (policy_step cwd fs workspaceRoot requested latest all st c) Hreq)
    as [-> ->].
  unfold valid_candidates, resolved_candidates. rewrite fmap_cons, filter_cons.
  unfold policy_step.
  rewrite (bool_decide_eq_false_2 (length (unique requested) = 0))
    by (by rewrite unique_length_zero).
  destruct (candidate_rejection cwd fs workspaceRoot (path_resolve cwd [c])) as [reason|] eqn:Hrej.
  - rewrite decide_False by done. done.
  - rewrite decide_True by done. rewrite filter_cons.
    destruct (matchedRequestedName requested (path_resolve cwd [c])) eqn:Hm; simpl; done.
Qed.

(** The first loop when the text names no file and asks for an automatic
    choice: the candidates that pass the common checks are collected, in
    order, and nothing is accepted yet. *)
Lemma policy_loop_auto latest all cs : ∀ st,
  latest || all = true →
  let st' := foldl (policy_step cwd fs workspaceRoot [] latest all) st cs in
  accepted st' = accepted st
  ∧ autoCandidates st' = autoCandidates st ++ valid_candidates cwd fs workspaceRoot cs.
Proof.
  induction cs as [|c cs IH]; intros st Hauto; [by rewrite app_nil_r|].
  simpl. destruct (IH (policy_step cwd fs workspaceRoot [] latest all st c) Hauto) as [-> ->].
  unfold valid_candidates, resolved_candidates. rewrite fmap_cons, filter_cons.
  unfold policy_step. simpl. rewrite Hauto.
  destruct (candidate_rejection cwd fs workspaceRoot (path_resolve cwd [c])) as [reason|] eqn:Hrej.
  - rewrite decide_False by done. done.
  - rewrite decide_True by done. simpl. by rewrite <- app_assoc.
Qed.
End PolicyProperties.

(** Membership in the candidates that pass the common checks. *)
Lemma elem_of_valid_candidates cwd fs workspaceRoot uploadPaths abs :
  abs ∈ valid_candidates cwd fs workspaceRoot uploadPaths
  ↔ (∃ candidate, candidate ∈ uploadPaths ∧ abs = path_resolve cwd [candidate])
    ∧ (startsWith abs (workspaceRoot +:+ "/") = true ∨ abs = workspaceRoot)
    ∧ existsSync fs abs = true
    ∧ isUploadPathBlocked cwd abs workspaceRoot = false.
Proof.
  unfold valid_candidates, resolved_candidates.
  rewrite list_elem_of_filter, list_elem_of_fmap. unfold candidate_rejection.
  assert (Hex : (∃ y, abs = path_resolve cwd [y] ∧ y ∈ uploadPaths)
                ↔ (∃ candidate, candidate ∈ uploadPaths ∧ abs = path_resolve cwd [candidate])).
  { split; intros (y & ? & ?); by exists y. }
  rewrite Hex.
  destruct (String.eqb_spec abs workspaceRoot) as [Heq|Hne];
    destruct (startsWith abs (workspaceRoot +:+ "/"));
    destruct (existsSync fs abs);
    destruct (isUploadPathBlocked cwd abs workspaceRoot); simpl;
    intuition congruence.
Qed.

Lemma matchedRequestedName_spec requested abs :
  matchedRequestedName requested abs = true
  ↔ basename (toLowerCase abs) ∈ requested
    ∨ ∃ name, name ∈ requested ∧ endsWith (toLowerCase abs) name = true.
Proof.
  unfold matchedRequestedName. rewrite orb_true_iff, bool_decide_eq_true, existsb_exists.
  setoid_rewrite <- list_elem_of_In. done.
Qed.

(** The candidates that pass the common checks of the policy lie inside the
    workspace. *)
Lemma valid_candidates_inside cwd fs workspaceDir uploadPaths abs :
  abs ∈ valid_candidates cwd fs (path_resolve cwd [workspaceDir]) uploadPaths →
  inside_workspace (path_resolve cwd [workspaceDir]) abs = true.
Proof.
  intros ((candidate & _ & ->) & Hroot & _)%elem_of_valid_candidates.
  by apply policy_check_inside_workspace.
Qed.

(** What [enforceUploadPolicy] computes when the user text names files: the
    candidates that resolve inside the workspace, exist and are not under a
    reserved subpath, and whose lower-cased base name is one of the
    lower-cased named files or whose lower-cased path ends with one of them;
    each accepted path is returned once, in candidate order. The second
    test, [lowerPath.endsWith(name)], asks for no separator before the
    name. *)
Theorem upload_policy_explicit_names
    (cwd : string) (fs : gmap string FileNode)
    (uploadPaths : list string) (userMessage workspaceDir : string)
    (Hnames : inferRequestedFileNames userMessage ≠ []) :
  let workspaceRoot := path_resolve cwd [workspaceDir] in
  let requested := toLowerCase <$> inferRequestedFileNames userMessage in
  let result := enforceUploadPolicy cwd fs uploadPaths userMessage workspaceDir in
  result = unique (filter (λ abs, matchedRequestedName requested abs = true)
                          (valid_candidates cwd fs workspaceRoot uploadPaths))
  ∧ NoDup result
  ∧ (∀ abs, abs ∈ result
            ↔ abs ∈ valid_candidates cwd fs workspaceRoot uploadPaths
              ∧ (basename (toLowerCase abs) ∈ requested
                 ∨ ∃ name, name ∈ requested ∧ endsWith (toLowerCase abs) name = true)).
Proof.
  intros workspaceRoot requested result.
  assert (Hreq : requested ≠ []).
  { unfold requested. by destruct (inferRequestedFileNames userMessage). }
  assert (Hres : result = unique (filter (λ abs, matchedRequestedName requested abs = true)
                                         (valid_candidates cwd fs workspaceRoot uploadPaths))).
  { unfold result, enforceUploadPolicy. fold workspaceRoot requested.
    rewrite (bool_decide_eq_false_2 (length (unique requested) = 0))
      by (by rewrite unique_length_zero).
    simpl.
    by destruct (policy_loop_explicit cwd fs workspaceRoot requested false false uploadPaths
                   {| accepted := []; dropped := []; autoCandidates := [] |} Hreq) as [-> _]. }
  split_and!; [exact Hres | rewrite Hres; apply NoDup_unique |].
  intros abs. rewrite Hres, elem_of_unique, list_elem_of_filter, matchedRequestedName_spec. tauto.
Qed.

(** The example of the design document: on candidates [a.pdf] and [b.csv]
    with the text "attach b.csv", only [b.csv] is accepted. *)
Lemma upload_policy_explicit_names_witness :
  inferRequestedFileNames "attach b.csv" ≠ []
  ∧ enforceUploadPolicy "/srv/app" fs_workspace ["/data/ws/a.pdf"; "/data/ws/b.csv"]
      "attach b.csv" "/data/ws" = ["/data/ws/b.csv"].
Proof.
  assert (Hn : inferRequestedFileNames "attach b.csv" ≠ []) by (vm_compute; discriminate).
  split; [exact Hn|].
  destruct (upload_policy_explicit_names "/srv/app" fs_workspace ["/data/ws/a.pdf"; "/data/ws/b.csv"]
              "attach b.csv" "/data/ws" Hn) as [Hres _].
  rewrite Hres. vm_compute. reflexivity.
Defined.

(** C4 (failing input). With workspace [/data/ws], candidates [a.pdf],
    [ab.csv] and [b.csv], all on disk, and the text "attach b.csv", the only
    file the text names is [b.csv], yet the policy accepts [ab.csv] as well:
    its base name [ab.csv] is not a named file, but its lower-cased path ends
    with [b.csv], and the test [lowerPath.endsWith(name)] asks for no path
    separator before the name. The statement as worded, on base names, does
    not hold at this input. *)
Theorem upload_policy_explicit_names_suffix :
  let uploadPaths := ["/data/ws/a.pdf"; "/data/ws/ab.csv"; "/data/ws/b.csv"] in
  inferRequestedFileNames "attach b.csv" = ["b.csv"]
  ∧ enforceUploadPolicy "/srv/app" fs_workspace uploadPaths "attach b.csv" "/data/ws"
    = ["/data/ws/ab.csv"; "/data/ws/b.csv"]
  ∧ basename (toLowerCase "/data/ws/ab.csv") = "ab.csv"
  ∧ endsWith (toLowerCase "/data/ws/ab.csv") "b.csv" = true
  ∧ ¬ explicit_names_as_stated "/srv/app" fs_workspace uploadPaths "attach b.csv" "/data/ws".
Proof.
  intros uploadPaths.
  split_and!; [vm_compute; reflexivity..|].
  intros H.
  assert (Hn : inferRequestedFileNames "attach b.csv" ≠ []) by (vm_compute; discriminate).
  destruct (H Hn "/data/ws/ab.csv") as [Hin _].
  assert (Hacc : bool_decide ("/data/ws/ab.csv" ∈ enforceUploadPolicy "/srv/app" fs_workspace
                   uploadPaths "attach b.csv" "/data/ws")
                 = true) by (vm_compute; reflexivity).
  apply bool_decide_eq_true_1 in Hacc.
  destruct (Hin Hacc) as [_ Hbase].
  assert (Hno : bool_decide (toLowerCase (basename "/data/ws/ab.csv")
                             ∈ (toLowerCase <$> inferRequestedFileNames "attach b.csv")) = false)
    by (vm_compute; reflexivity).
  apply bool_decide_eq_false_1 in Hno. exact (Hno Hbase).
Qed.

Lemma shouldAutoSelectAllUploads_no_names userMessage :
  shouldAutoSelectAllUploads userMessage = true → inferRequestedFileNames userMessage = [].
Proof.
  unfold shouldAutoSelectAllUploads. destruct (hasUploadIntent userMessage); simpl; [|done].
  by destruct (inferRequestedFileNames userMessage).
Qed.

Lemma shouldAutoSelectLatestUpload_no_names userMessage :
  shouldAutoSelectLatestUpload userMessage = true → inferRequestedFileNames userMessage = [].
Proof.
  unfold shouldAutoSelectLatestUpload. destruct (hasUploadIntent userMessage); simpl; [|done].
  by destruct (inferRequestedFileNames userMessage).
Qed.

(** The three tiers of the "send everything" choice. *)
Lemma selectAll_spec cwd workspaceRoot (candidates : list string) :
  let attachments :=
    filter (λ path, isAttachmentCandidate cwd path workspaceRoot = true) candidates in
  let others :=
    filter (λ path, String.eqb (toLowerCase (basename path)) "session.json" = false) candidates in
  selectAll cwd workspaceRoot candidates
  = match attachments, others with
    | _ :: _, _ => attachments
    | [], _ :: _ => others
    | [], [] => candidates
    end.
Proof.
  simpl. unfold selectAll.
  destruct (filter (λ path, isAttachmentCandidate cwd path workspaceRoot = true) candidates)
    as [|a l]; simpl; [|done].
  by destruct (filter _ candidates).
Qed.

(** C5 (amended). When the user text names no file and implies "send
    everything", the policy accepts, among the candidates that resolve inside
    the workspace, exist and are not under a reserved subpath: those of the
    attachments subdirectory when there is one; otherwise those that are not
    [session.json] when there is one; otherwise all of them. Each accepted
    path is returned once, in candidate order. *)
Theorem upload_policy_send_all
    (cwd : string) (fs : gmap string FileNode)
    (uploadPaths : list string) (userMessage workspaceDir : string)
    (Hall : shouldAutoSelectAllUploads userMessage = true) :
  let workspaceRoot := path_resolve cwd [workspaceDir] in
  let valid := valid_candidates cwd fs workspaceRoot uploadPaths in
  let attachments := filter (λ path, isAttachmentCandidate cwd path workspaceRoot = true) valid in
  let others :=
    filter (λ path, String.eqb (toLowerCase (basename path)) "session.json" = false) valid in
  let result := enforceUploadPolicy cwd fs uploadPaths userMessage workspaceDir in
  result = unique (selectAll cwd workspaceRoot valid)
  ∧ NoDup result
  ∧ (attachments ≠ [] →
     ∀ abs, abs ∈ result ↔ abs ∈ valid ∧ isAttachmentCandidate cwd abs workspaceRoot = true)
  ∧ (attachments = [] → others ≠ [] →
     ∀ abs, abs ∈ result ↔ abs ∈ valid ∧ toLowerCase (basename abs) ≠ "session.json")
  ∧ (attachments = [] → others = [] → ∀ abs, abs ∈ result ↔ abs ∈ valid).
Proof.
  intros workspaceRoot valid attachments others result.
  assert (Hres : result = unique (selectAll cwd workspaceRoot valid)).
  { unfold result, enforceUploadPolicy. fold workspaceRoot.
    rewrite (shouldAutoSelectAllUploads_no_names _ Hall), Hall. simpl.
    destruct (policy_loop_auto cwd fs workspaceRoot
                (shouldAutoSelectLatestUpload userMessage) true uploadPaths
                {| accepted := []; dropped := []; autoCandidates := [] |}) as [-> ->];
      [apply orb_true_r|].
    simpl. fold valid. destruct valid; done. }
  pose proof (selectAll_spec cwd workspaceRoot valid) as Hsel. simpl in Hsel.
  fold attachments others in Hsel.
  split_and!; [exact Hres | rewrite Hres; apply NoDup_unique | | |].
  - intros Hatt abs. rewrite Hres, elem_of_unique, Hsel.
    destruct attachments eqn:E; [done|]. rewrite <- E. unfold attachments.
    rewrite list_elem_of_filter. tauto.
  - intros Hatt Hoth abs. rewrite Hres, elem_of_unique, Hsel, Hatt.
    destruct others eqn:E; [done|]. rewrite <- E. unfold others.
    rewrite list_elem_of_filter, String.eqb_neq. tauto.
  - intros Hatt Hoth abs. by rewrite Hres, elem_of_unique, Hsel, Hatt, Hoth.
Qed.

(** C5 on candidates [attachments/x.png], [attachments/y.png] and a root
    [session.json] with the text "send the files": both attachment files are
    accepted and [session.json] is not. *)
Lemma upload_policy_send_all_witness :
  shouldAutoSelectAllUploads "send the files" = true
  ∧ enforceUploadPolicy "/srv/app" fs_workspace
      ["/data/ws/attachments/x.png"; "/data/ws/attachments/y.png"; "/data/ws/session.json"]
      "send the files" "/data/ws"
    = ["/data/ws/attachments/x.png"; "/data/ws/attachments/y.png"].
Proof.
  assert (Hall : shouldAutoSelectAllUploads "send the files" = true) by (vm_compute; reflexivity).
  split; [exact Hall|].
  destruct (upload_policy_send_all "/srv/app" fs_workspace
              ["/data/ws/attachments/x.png"; "/data/ws/attachments/y.png"; "/data/ws/session.json"]
              "send the files" "/data/ws" Hall) as [Hres _].
  rewrite Hres. vm_compute. reflexivity.
Defined.

(** C5, counterexample to the statement as worded: with candidates
    [attachments/x.png] and [report.pdf] and the text "send the files",
    [report.pdf] is not accepted although it passes every check and is no
    session-state file. *)
Lemma upload_policy_send_all_drops_generic :
  ¬ send_all_as_stated "/srv/app" fs_workspace
      ["/data/ws/attachments/x.png"; "/data/ws/report.pdf"] "send the files" "/data/ws".
Proof.
  intros H.
  assert (Hall : shouldAutoSelectAllUploads "send the files" = true) by (vm_compute; reflexivity).
  destruct (H Hall "/data/ws/report.pdf") as [_ Hback].
  assert (Hout : bool_decide ("/data/ws/report.pdf" ∈ enforceUploadPolicy "/srv/app" fs_workspace
                   ["/data/ws/attachments/x.png"; "/data/ws/report.pdf"] "send the files" "/data/ws")
                 = false) by (vm_compute; reflexivity).
  apply bool_decide_eq_false_1 in Hout. apply Hout, Hback. split.
  - assert (Hv : bool_decide ("/data/ws/report.pdf" ∈ valid_candidates "/srv/app" fs_workspace
                   (path_resolve "/srv/app" ["/data/ws"])
                   ["/data/ws/attachments/x.png"; "/data/ws/report.pdf"]) = true)
      by (vm_compute; reflexivity).
    by apply bool_decide_eq_true_1 in Hv.
  - intros [Hname _]. vm_compute in Hname. discriminate Hname.
Qed.

(** *** The order behind "send the latest" *)

Lemma string_ltb_compare (a b : string) : String.ltb a b = true ↔ String.compare a b = Lt.
Proof. unfold String.ltb. by destruct (String.compare a b). Qed.

Lemma string_compare_refl (a : string) : String.compare a a = Eq.
Proof.
  induction a as [|c a IH]; simpl; [done|].
  unfold Ascii.compare. by rewrite N.compare_refl.
Qed.

Lemma string_ltb_asym (a b : string) : String.ltb a b = true → String.ltb b a = false.
Proof.
  unfold String.ltb. rewrite (String.compare_antisym a b).
  by destruct (String.compare b a).
Qed.

Lemma string_ltb_total (a b : string) : a = b ∨ String.ltb a b = true ∨ String.ltb b a = true.
Proof.
  unfold String.ltb. rewrite (String.compare_antisym a b).
  destruct (String.compare b a) eqn:E; simpl; auto.
  apply String.compare_eq_iff in E. auto.
Qed.

Lemma string_ltb_leb (a b : string) : String.ltb a b = true → String.leb a b = true.
Proof. unfold String.ltb, String.leb. by destruct (String.compare a b). Qed.

Lemma string_ltb_trans (a b c : string) :
  String.ltb a b = true → String.ltb b c = true → String.ltb a c = true.
Proof.
  intros Hab Hbc.
  assert (Hac : String.le a c).
  { transitivity b; apply Is_true_true, string_ltb_leb; done. }
  apply Is_true_true in Hac.
  destruct (string_ltb_total a c) as [->|[H|H]]; [|done|].
  - apply string_ltb_asym in Hab. congruence.
  - exfalso. unfold String.leb in Hac. apply string_ltb_compare in H.
    rewrite (String.compare_antisym a c), H in Hac. done.
Qed.

Lemma num_gt_trans a b c : num_gt a b = true → num_gt b c = true → num_gt a c = true.
Proof. destruct a, b, c; simpl; try done. rewrite !Z.ltb_lt. lia. Qed.

Lemma num_eq_eq a b : num_eq a b = true ↔ a = b.
Proof.
  destruct a, b; simpl; try done. rewrite Z.eqb_eq. split; congruence.
Qed.

Lemma num_total a b : a = b ∨ num_gt a b = true ∨ num_gt b a = true.
Proof.
  destruct a as [|x], b as [|y]; simpl; auto.
  rewrite !Z.ltb_lt. destruct (Z.lt_total x y) as [?|[->|?]]; auto.
Qed.

Section LatestProperties.
Variable cwd : string.
Variable fs : gmap string FileNode.
Variable workspaceRoot : string.

Lemma outranks_trans a b c :
  outranks cwd fs workspaceRoot a b = true →
  outranks cwd fs workspaceRoot b c = true →
  outranks cwd fs workspaceRoot a c = true.
Proof.
  unfold outranks.
  generalize (getAutoSelectionPriority cwd a workspaceRoot)
             (getAutoSelectionPriority cwd b workspaceRoot)
             (getAutoSelectionPriority cwd c workspaceRoot).
  intros pa pb pc.
  repeat first [rewrite orb_true_iff | rewrite andb_true_iff].
  rewrite ?Z.ltb_lt, ?Z.eqb_eq, ?num_eq_eq.
  intros [?|[-> Hab]] [?|[-> Hbc]]; [left; lia|left; lia|left; lia|right].
  split; [done|].
  destruct Hab as [Hab|[Eab Hab]], Hbc as [Hbc|[Ebc Hbc]].
  - left. by eapply num_gt_trans.
  - left. by rewrite <- Ebc.
  - left. by rewrite Eab.
  - right. split; [congruence|]. by eapply string_ltb_trans.
Qed.

Lemma outranks_total a b :
  a = b ∨ outranks cwd fs workspaceRoot a b = true ∨ outranks cwd fs workspaceRoot b a = true.
Proof.
  unfold outranks.
  generalize (getAutoSelectionPriority cwd a workspaceRoot)
             (getAutoSelectionPriority cwd b workspaceRoot).
  intros pa pb.
  repeat first [rewrite orb_true_iff | rewrite andb_true_iff].
  rewrite ?Z.ltb_lt, ?Z.eqb_eq, ?num_eq_eq.
  destruct (Z.lt_total pa pb) as [?|[->|?]]; [tauto| |tauto].
  assert (Hpb : pb = pb) by done.
  destruct (num_total (mtimeOf fs a) (mtimeOf fs b)) as [E|[?|?]]; [|tauto..].
  assert (E' : mtimeOf fs b = mtimeOf fs a) by done.
  destruct (string_ltb_total a b) as [?|[?|?]]; tauto.
Qed.

(** An iteration of the selection loop on a state that describes its
    selected path keeps the better of the two paths. *)
Lemma latest_step_consistent sel path :
  latest_step cwd fs workspaceRoot
    (sel, mtimeOf fs sel, Fin (getAutoSelectionPriority cwd sel workspaceRoot)) path
  = if outranks cwd fs workspaceRoot path sel
    then (path, mtimeOf fs path, Fin (getAutoSelectionPriority cwd path workspaceRoot))
    else (sel, mtimeOf fs sel, Fin (getAutoSelectionPriority cwd sel workspaceRoot)).
Proof. done. Qed.

Lemma latest_fold_best rest : ∀ seen sel,
  sel ∈ seen →
  (∀ p, p ∈ seen → p ≠ sel → outranks cwd fs workspaceRoot sel p = true) →
  let best := (foldl (latest_step cwd fs workspaceRoot)
                 (sel, mtimeOf fs sel, Fin (getAutoSelectionPriority cwd sel workspaceRoot))
                 rest).1.1 in
  best ∈ seen ++ rest
  ∧ ∀ p, p ∈ seen ++ rest → p ≠ best → outranks cwd fs workspaceRoot best p = true.
Proof.
  induction rest as [|path rest IH]; intros seen sel Hsel Hbest.
  - simpl. rewrite app_nil_r. done.
  - cbn [foldl]. rewrite latest_step_consistent.
    replace (seen ++ path :: rest) with ((seen ++ [path]) ++ rest) by (by rewrite <- app_assoc).
    destruct (outranks cwd fs workspaceRoot path sel) eqn:Hout.
    + apply IH; [apply elem_of_app; right; by apply list_elem_of_singleton|].
      intros p [Hp|Hp%list_elem_of_singleton]%elem_of_app Hne; [|done].
      destruct (decide (p = sel)) as [->|Hps]; [done|].
      eapply outranks_trans; [exact Hout|]. by apply Hbest.
    + apply IH; [apply elem_of_app; by left|].
      intros p [Hp|Hp%list_elem_of_singleton]%elem_of_app Hne; [by apply Hbest|].
      subst p. destruct (outranks_total sel path) as [?|[?|?]]; [done|done|congruence].
Qed.

(** The selected path of the "send the latest" choice is a candidate that
    outranks every other candidate. *)
Lemma selectLatest_best first rest :
  let best := selectLatest cwd fs workspaceRoot first (first :: rest) in
  best ∈ first :: rest
  ∧ ∀ p, p ∈ first :: rest → p ≠ best → outranks cwd fs workspaceRoot best p = true.
Proof.
  unfold selectLatest. simpl.
  change (latest_step cwd fs workspaceRoot (first, NegInf, NegInf) first)
    with (first, mtimeOf fs first, Fin (getAutoSelectionPriority cwd first workspaceRoot)).
  apply (latest_fold_best rest [first] first); [by apply list_elem_of_singleton|].
  intros p Hp%list_elem_of_singleton. done.
Qed.
End LatestProperties.

(** C6 (amended). When the user text names no file, implies "send the most
    recent single thing" and does not imply "send everything": if no
    candidate resolves inside the workspace, exists and is outside the
    reserved subpaths, nothing is accepted; otherwise exactly one candidate
    is accepted, and it outranks every other such candidate: it has a higher
    priority tier (attachments subdirectory 3, generic file 2, session.json
    1), or the same tier and a later modification time, or the same tier and
    time and a lexicographically greater path. *)
Theorem upload_policy_send_latest
    (cwd : string) (fs : gmap string FileNode)
    (uploadPaths : list string) (userMessage workspaceDir : string)
    (Hlatest : shouldAutoSelectLatestUpload userMessage = true)
    (Hnotall : shouldAutoSelectAllUploads userMessage = false) :
  let workspaceRoot := path_resolve cwd [workspaceDir] in
  let valid := valid_candidates cwd fs workspaceRoot uploadPaths in
  let result := enforceUploadPolicy cwd fs uploadPaths userMessage workspaceDir in
  (valid = [] → result = [])
  ∧ (valid ≠ [] →
     ∃ best, result = [best] ∧ best ∈ valid
             ∧ ∀ p, p ∈ valid → p ≠ best → outranks cwd fs workspaceRoot best p = true).
Proof.
  intros workspaceRoot valid result.
  assert (Hres : result = match valid with
                          | first :: _ => [selectLatest cwd fs workspaceRoot first valid]
                          | [] => []
                          end).
  { unfold result, enforceUploadPolicy. fold workspaceRoot.
    rewrite (shouldAutoSelectLatestUpload_no_names _ Hlatest), Hlatest, Hnotall. simpl.
    destruct (policy_loop_auto cwd fs workspaceRoot true false uploadPaths
                {| accepted := []; dropped := []; autoCandidates := [] |}) as [-> ->];
      [done|].
    simpl. fold valid. destruct valid; done. }
  split.
  - intros Hv. by rewrite Hres, Hv.
  - intros Hv. destruct valid as [|first rest] eqn:E; [done|].
    exists (selectLatest cwd fs workspaceRoot first (first :: rest)).
    split; [done|]. apply selectLatest_best.
Qed.

(** C6 on two attachment candidates of differing modification times with the
    text "send that file": only the more recently modified one is accepted,
    in whichever order the candidates come. *)
Lemma upload_policy_send_latest_witness :
  shouldAutoSelectLatestUpload "send that file" = true
  ∧ shouldAutoSelectAllUploads "send that file" = false
  ∧ mtimeOf fs_workspace "/data/ws/attachments/x.png" = Fin 50
  ∧ mtimeOf fs_workspace "/data/ws/attachments/y.png" = Fin 70
  ∧ enforceUploadPolicy "/srv/app" fs_workspace
      ["/data/ws/attachments/y.png"; "/data/ws/attachments/x.png"] "send that file" "/data/ws"
    = ["/data/ws/attachments/y.png"]
  ∧ enforceUploadPolicy "/srv/app" fs_workspace
      ["/data/ws/attachments/x.png"; "/data/ws/attachments/y.png"] "send that file" "/data/ws"
    = ["/data/ws/attachments/y.png"].
Proof.
  assert (Hl : shouldAutoSelectLatestUpload "send that file" = true) by (vm_compute; reflexivity).
  assert (Ha : shouldAutoSelectAllUploads "send that file" = false) by (vm_compute; reflexivity).
  destruct (upload_policy_send_latest "/srv/app" fs_workspace
              ["/data/ws/attachments/y.png"; "/data/ws/attachments/x.png"]
              "send that file" "/data/ws" Hl Ha) as [_ Hbest].
  destruct Hbest as (best & Hres & Hin & Hmax); [vm_compute; discriminate|].
  split_and!; [exact Hl | exact Ha | vm_compute; reflexivity | vm_compute; reflexivity | |
               vm_compute; reflexivity].
  rewrite Hres. f_equal.
  destruct (decide (best = "/data/ws/attachments/y.png")) as [->|Hne]; [done|].
  exfalso.
  assert (Hy : bool_decide ("/data/ws/attachments/y.png"
                            ∈ valid_candidates "/srv/app" fs_workspace (path_resolve "/srv/app" ["/data/ws"])
                                ["/data/ws/attachments/y.png"; "/data/ws/attachments/x.png"]) = true)
    by (vm_compute; reflexivity).
  apply bool_decide_eq_true_1 in Hy.
  assert (Hb : bool_decide (best ∈ ["/data/ws/attachments/y.png"; "/data/ws/attachments/x.png"]) = true).
  { apply bool_decide_eq_true_2. revert Hin. vm_compute. done. }
  apply bool_decide_eq_true_1 in Hb.
  apply elem_of_cons in Hb as [->|Hb]; [done|].
  apply list_elem_of_singleton in Hb as ->.
  specialize (Hmax _ Hy ltac:(done)). vm_compute in Hmax. discriminate Hmax.
Defined.

(** C6, counterexample to the statement as worded: with the text
    "send that file" and a single candidate that is no longer on disk,
    nothing is accepted. *)
Lemma upload_policy_send_latest_none_valid :
  ¬ send_latest_as_stated "/srv/app" fs_workspace
      ["/data/ws/attachments/old.png"] "send that file" "/data/ws".
Proof.
  intros H.
  destruct H as (best & Hres & _); [vm_compute; reflexivity..|].
  vm_compute in Hres. discriminate Hres.
Qed.

(** *** What the policy never returns *)

Lemma policy_loop_none cwd fs workspaceRoot cs : ∀ st,
  let st' := foldl (policy_step cwd fs workspaceRoot [] false false) st cs in
  accepted st' = accepted st ∧ autoCandidates st' = autoCandidates st.
Proof.
  induction cs as [|c cs IH]; intros st; [done|].
  cbn [foldl]. destruct (IH (policy_step cwd fs workspaceRoot [] false false st c)) as [-> ->].
  unfold policy_step. simpl.
  by destruct (candidate_rejection cwd fs workspaceRoot (path_resolve cwd [c])).
Qed.

Lemma selectAll_subset cwd workspaceRoot (candidates : list string) abs :
  abs ∈ selectAll cwd workspaceRoot candidates → abs ∈ candidates.
Proof.
  pose proof (selectAll_spec cwd workspaceRoot candidates) as Hsel. cbv zeta in Hsel.
  rewrite Hsel. clear Hsel.
  destruct (filter (λ path, isAttachmentCandidate cwd path workspaceRoot = true) candidates)
    as [|a l] eqn:Ea.
  - destruct (filter (λ path, String.eqb (toLowerCase (basename path)) "session.json" = false)
                candidates) as [|b l'] eqn:Eb; [done|].
    rewrite <- Eb. by intros [_ ?]%list_elem_of_filter.
  - rewrite <- Ea. by intros [_ ?]%list_elem_of_filter.
Qed.

(** Whatever the user text, every path the policy returns comes from a
    candidate, resolves inside the workspace, is on disk and is not under a
    reserved subpath; with no explicit name and no send-everything or
    send-latest signal, the policy returns nothing. *)
Lemma enforceUploadPolicy_valid cwd fs uploadPaths userMessage workspaceDir abs :
  abs ∈ enforceUploadPolicy cwd fs uploadPaths userMessage workspaceDir →
  abs ∈ valid_candidates cwd fs (path_resolve cwd [workspaceDir]) uploadPaths
  ∧ inside_workspace (path_resolve cwd [workspaceDir]) abs = true.
Proof.
  intros Hin.
  assert (Hv : abs ∈ valid_candidates cwd fs (path_resolve cwd [workspaceDir]) uploadPaths);
    [|split; [done|by eapply valid_candidates_inside]].
  revert Hin. unfold enforceUploadPolicy.
  set (root := path_resolve cwd [workspaceDir]).
  set (valid := valid_candidates cwd fs root uploadPaths).
  destruct (toLowerCase <$> inferRequestedFileNames userMessage) as [|n ns] eqn:Ereq.
  - change (bool_decide (length (unique []) = 0)) with true. cbn [andb].
    destruct (shouldAutoSelectAllUploads userMessage).
    + destruct (policy_loop_auto cwd fs root (shouldAutoSelectLatestUpload userMessage) true
                  uploadPaths {| accepted := []; dropped := []; autoCandidates := [] |})
        as [-> ->]; [apply orb_true_r|].
      cbn [accepted autoCandidates app negb andb]. fold valid.
      destruct (0 <? length valid); [|by intros ?%elem_of_nil].
      intros Hin. apply (proj1 (elem_of_unique _ _)) in Hin. by eapply selectAll_subset.
    + destruct (shouldAutoSelectLatestUpload userMessage).
      * destruct (policy_loop_auto cwd fs root true false uploadPaths
                    {| accepted := []; dropped := []; autoCandidates := [] |}) as [-> ->]; [done|].
        cbn [accepted autoCandidates app negb andb]. fold valid.
        destruct valid as [|first rest] eqn:Ev; [by intros ?%elem_of_nil|].
        cbn. intros Hin. apply list_elem_of_singleton in Hin as ->.
        apply (selectLatest_best cwd fs root first rest).
      * destruct (policy_loop_none cwd fs root uploadPaths
                    {| accepted := []; dropped := []; autoCandidates := [] |}) as [-> ->].
        cbn. by intros ?%elem_of_nil.
  - rewrite (bool_decide_eq_false_2 (length (unique (n :: ns)) = 0))
      by (by rewrite unique_length_zero).
    cbn [andb negb].
    destruct (policy_loop_explicit cwd fs root (n :: ns) false false uploadPaths
                {| accepted := []; dropped := []; autoCandidates := [] |}) as [-> _]; [done|].
    cbn [accepted]. intros Hin. apply (proj1 (elem_of_unique _ _)) in Hin.
    by apply list_elem_of_filter in Hin as [_ ?].
Qed.

(** * Further properties *)

(** ** What the upload-selection policy guarantees *)

(** In [path.resolve] a last argument that is absolute and made of clean
    segments wins: the result is that path, whatever the working directory
    and the arguments before it. *)
Lemma path_resolve_clean cwd before (segs : list string) :
  Forall clean_segment segs →
  path_resolve cwd (before ++ ["/" +:+ str_join "/" segs]) = "/" +:+ str_join "/" segs.
Proof.
  intros Hclean. unfold path_resolve at 1.
  rewrite rev_app_distr. cbn [rev app resolve_scan].
  change (("/" +:+ str_join "/" segs =? "")%string) with false.
  rewrite (startsWith_app "/" (str_join "/" segs)).
  f_equal. f_equal. unfold normalize_segments.
  change ("/" +:+ "") with "/".
  rewrite (split_on_app "/" ("/" +:+ str_join "/" segs) "").
  rewrite foldl_app.
  fold (normalize_segments false ("/" +:+ str_join "/" segs)).
  rewrite normalize_segments_join by done. done.
Qed.

Lemma path_resolve_last_resolved cwd' before cwd paths :
  path_resolve cwd' (before ++ [path_resolve cwd paths]) = path_resolve cwd paths.
Proof.
  destruct (path_resolve_segments cwd paths) as [Hclean Heq]. cbv zeta in Hclean, Heq.
  rewrite Heq. by apply path_resolve_clean.
Qed.

(** A resolved path resolves to itself, in any working directory. *)
Lemma path_resolve_resolved cwd' cwd paths :
  path_resolve cwd' [path_resolve cwd paths] = path_resolve cwd paths.
Proof. apply (path_resolve_last_resolved cwd' []). Qed.

Lemma path_resolve_idemp cwd paths :
  path_resolve cwd [path_resolve cwd paths] = path_resolve cwd paths.
Proof. apply path_resolve_resolved. Qed.

Lemma strip_common_prefix (l k : list string) : strip_common l (l ++ k) = ([], k).
Proof.
  induction l as [|x l IH]; simpl; [by destruct k|]. by rewrite String.eqb_refl.
Qed.

(** The relative path from the workspace root to a path inside it is made of
    the segments below the root. *)
Lemma path_relative_inside cwd workspaceDir p k :
  let root := path_resolve cwd [workspaceDir] in
  let abs := path_resolve cwd [p] in
  normalize_segments false abs = normalize_segments false root ++ k →
  path_relative cwd root abs = str_join "/" k.
Proof.
  cbv zeta. intros Hk. unfold path_relative.
  rewrite !path_resolve_idemp, Hk, strip_common_prefix. done.
Qed.


Lemma inside_workspace_segments root abs :
  inside_workspace root abs = true ↔
  ∃ k, normalize_segments false abs = normalize_segments false root ++ k.
Proof. unfold inside_workspace. by rewrite bool_decide_eq_true. Qed.

(** A path inside the workspace that the policy does not block is neither
    the workspace root nor a reserved directory nor below one. *)
Lemma not_blocked_not_reserved cwd workspaceDir p :
  let root := path_resolve cwd [workspaceDir] in
  let abs := path_resolve cwd [p] in
  inside_workspace root abs = true →
  isUploadPathBlocked cwd abs root = false →
  abs ≠ root ∧ under_reserved_path root abs = false.
Proof.
  cbv zeta. intros [k Hk]%inside_workspace_segments Hb.
  unfold isUploadPathBlocked in Hb. rewrite (path_relative_inside _ _ _ k Hk) in Hb.
  split.
  - intros Heq. rewrite Heq in Hk.
    rewrite <- (app_nil_r (normalize_segments false _)) in Hk at 1.
    apply app_inv_head in Hk. subst k. done.
  - unfold under_reserved_path, BLOCKED_UPLOAD_PREFIXES. cbn [existsb].
    rewrite Hk.
    apply orb_false_intro; [|apply orb_false_intro; [|done]];
      apply bool_decide_eq_false; intros [k' Hk'];
      rewrite <- app_assoc in Hk'; apply app_inv_head in Hk'; subst k;
      (destruct k' as [|s1 k']; [vm_compute in Hb; discriminate Hb|]);
      rewrite str_join_app in Hb by done;
      set (below := str_join "/" (s1 :: k')) in Hb; clearbody below;
      destruct below; vm_compute in Hb; discriminate Hb.
Qed.


(** Every path the policy returns has passed its checks. *)
Lemma enforceUploadPolicy_checked cwd fs uploadPaths userMessage workspaceDir abs :
  let root := path_resolve cwd [workspaceDir] in
  abs ∈ enforceUploadPolicy cwd fs uploadPaths userMessage workspaceDir →
  abs ∈ resolved_candidates cwd uploadPaths
  ∧ inside_workspace root abs = true
  ∧ abs ≠ root
  ∧ under_reserved_path root abs = false
  ∧ existsSync fs abs = true.
Proof.
  cbv zeta. intros Hin.
  apply enforceUploadPolicy_valid in Hin as [Hv Hinside].
  apply elem_of_valid_candidates in Hv as ((candidate & Hc & ->) & _ & Hex & Hb).
  destruct (not_blocked_not_reserved cwd workspaceDir candidate Hinside Hb) as [Hne Hres].
  split_and!; try done.
  unfold resolved_candidates. apply list_elem_of_fmap. by exists candidate.
Qed.

(** X1. Whatever the candidates and the user text, every path
    [enforceUploadPolicy] returns is the resolved form of a candidate, lies
    inside the workspace (segment-wise, so a sibling directory does not
    qualify), is not the workspace root, is neither a reserved directory
    ([.papert/tools], [.papert/.papert-claw-runtime]) nor below one, and is
    on disk. *)
Theorem upload_policy_safe cwd fs uploadPaths userMessage workspaceDir :
  let root := path_resolve cwd [workspaceDir] in
  Forall (λ abs, abs ∈ resolved_candidates cwd uploadPaths
                 ∧ inside_workspace root abs = true
                 ∧ abs ≠ root
                 ∧ under_reserved_path root abs = false
                 ∧ existsSync fs abs = true)
         (enforceUploadPolicy cwd fs uploadPaths userMessage workspaceDir).
Proof.
  cbv zeta. apply Forall_forall. intros abs Hin.
  by apply (enforceUploadPolicy_checked cwd fs uploadPaths userMessage workspaceDir).
Qed.

Lemma NoDup_enforceUploadPolicy cwd fs uploadPaths userMessage workspaceDir :
  NoDup (enforceUploadPolicy cwd fs uploadPaths userMessage workspaceDir).
Proof.
  unfold enforceUploadPolicy.
  set (root := path_resolve cwd [workspaceDir]).
  set (requested := toLowerCase <$> inferRequestedFileNames userMessage).
  set (latest := _ && shouldAutoSelectLatestUpload userMessage).
  set (all := _ && shouldAutoSelectAllUploads userMessage).
  set (st := foldl _ _ uploadPaths).
  assert (Hacc : NoDup (accepted st)).
  { destruct requested as [|n ns] eqn:Ereq.
    - destruct (latest || all) eqn:Hauto.
      + destruct (policy_loop_auto cwd fs root latest all uploadPaths
                    {| accepted := []; dropped := []; autoCandidates := [] |} Hauto) as [Ha _].
        fold st in Ha. rewrite Ha. constructor.
      + apply orb_false_iff in Hauto as [Hl Ha]. unfold st. rewrite Hl, Ha.
        destruct (policy_loop_none cwd fs root uploadPaths
                    {| accepted := []; dropped := []; autoCandidates := [] |}) as [-> _].
        constructor.
    - destruct (policy_loop_explicit cwd fs root (n :: ns) latest all uploadPaths
                  {| accepted := []; dropped := []; autoCandidates := [] |}) as [Ha _]; [done|].
      fold st in Ha. rewrite Ha. apply NoDup_foldl_set_insert. constructor. }
  assert (Hins : ∀ acc x, NoDup acc → NoDup (set_insert acc x)).
  { intros acc x Hnd. apply (NoDup_foldl_set_insert [x] acc Hnd). }
  destruct (all && _); destruct (negb all && latest && _);
    destruct (autoCandidates st); try apply Hins; try apply NoDup_foldl_set_insert; done.
Qed.

Lemma no_intent_no_auto userMessage :
  hasUploadIntent userMessage = false →
  shouldAutoSelectLatestUpload userMessage = false
  ∧ shouldAutoSelectAllUploads userMessage = false.
Proof.
  intros H. unfold shouldAutoSelectLatestUpload, shouldAutoSelectAllUploads. by rewrite H.
Qed.

(** With no file named and no signal for an automatic choice, the policy
    returns nothing. *)
Lemma enforceUploadPolicy_no_request cwd fs uploadPaths userMessage workspaceDir :
  inferRequestedFileNames userMessage = [] →
  hasUploadIntent userMessage = false
  ∨ (shouldAutoSelectLatestUpload userMessage = false
     ∧ shouldAutoSelectAllUploads userMessage = false) →
  enforceUploadPolicy cwd fs uploadPaths userMessage workspaceDir = [].
Proof.
  intros Hnames Hsignal.
  assert (Hl : shouldAutoSelectLatestUpload userMessage = false
               ∧ shouldAutoSelectAllUploads userMessage = false).
  { destruct Hsignal as [Hi|?]; [by apply no_intent_no_auto|done]. }
  destruct Hl as [Hl Ha].
  unfold enforceUploadPolicy. rewrite Hnames, Hl, Ha. cbn [fmap list_fmap].
  rewrite !andb_false_r.
  destruct (policy_loop_none cwd fs (path_resolve cwd [workspaceDir]) uploadPaths
              {| accepted := []; dropped := []; autoCandidates := [] |}) as [-> _].
  done.
Qed.

(** X2. When the user text names no file and either holds no upload verb
    or gives neither the send-everything nor the send-latest signal,
    [enforceUploadPolicy] returns nothing, whatever the candidates. *)
Theorem upload_policy_requires_request cwd fs uploadPaths userMessage workspaceDir
    (Hnames : inferRequestedFileNames userMessage = [])
    (Hsignal : hasUploadIntent userMessage = false
               ∨ (shouldAutoSelectLatestUpload userMessage = false
                  ∧ shouldAutoSelectAllUploads userMessage = false)) :
  enforceUploadPolicy cwd fs uploadPaths userMessage workspaceDir = [].
Proof. by apply enforceUploadPolicy_no_request. Qed.

(** X2 at a question that asks for no file: two valid candidates, none returned. *)
Lemma upload_policy_requires_request_witness :
  inferRequestedFileNames "please summarise the quarterly report" = []
  ∧ hasUploadIntent "please summarise the quarterly report" = false
  ∧ enforceUploadPolicy "/srv/app" fs_workspace
      ["/data/ws/report.pdf"; "/data/ws/attachments/x.png"]
      "please summarise the quarterly report" "/data/ws" = [].
Proof.
  assert (Hn : inferRequestedFileNames "please summarise the quarterly report" = [])
    by (vm_compute; reflexivity).
  assert (Hi : hasUploadIntent "please summarise the quarterly report" = false)
    by (vm_compute; reflexivity).
  split_and!; [exact Hn | exact Hi |].
  apply (upload_policy_requires_request _ _ _ _ _ Hn (or_introl Hi)).
Defined.

Lemma unique_NoDup_app (l : list string) : ∀ acc,
  NoDup (acc ++ l) → foldl set_insert acc l = acc ++ l.
Proof.
  induction l as [|x l IH]; intros acc Hnd; simpl; [by rewrite app_nil_r|].
  assert (Hx : x ∉ acc).
  { apply NoDup_app in Hnd as (_ & Hdis & _). intros Hin. apply (Hdis x Hin). by left. }
  unfold set_insert at 2. rewrite bool_decide_eq_false_2 by done.
  rewrite IH; rewrite <- app_assoc; done.
Qed.

Lemma unique_NoDup (l : list string) : NoDup l → unique l = l.
Proof. intros Hnd. by apply (unique_NoDup_app l []). Qed.

Lemma filter_all {A} (P : A → Prop) `{∀ x, Decision (P x)} (l : list A) :
  Forall P l → filter P l = l.
Proof.
  induction 1 as [|x l Hx Hl IH]; [done|]. rewrite filter_cons, decide_True by done. by rewrite IH.
Qed.

Lemma filter_none {A} (P : A → Prop) `{∀ x, Decision (P x)} (l : list A) :
  Forall (λ x, ¬ P x) l → filter P l = [].
Proof.
  induction 1 as [|x l Hx Hl IH]; [done|]. by rewrite filter_cons, decide_False.
Qed.

(** The candidates that pass the common checks pass them again. *)
Lemma valid_candidates_stable cwd fs workspaceRoot uploadPaths (l : list string) :
  Forall (λ abs, abs ∈ valid_candidates cwd fs workspaceRoot uploadPaths) l →
  valid_candidates cwd fs workspaceRoot l = l.
Proof.
  induction 1 as [|abs l Habs Hl IH]; [done|].
  unfold valid_candidates, resolved_candidates in *. rewrite fmap_cons, filter_cons.
  apply list_elem_of_filter in Habs as [Hrej Hin].
  apply list_elem_of_fmap in Hin as (c & -> & _).
  rewrite path_resolve_idemp, decide_True by done. by rewrite IH.
Qed.

(** [enforceUploadPolicy] by cases on the user text. *)
Lemma enforceUploadPolicy_cases cwd fs uploadPaths userMessage workspaceDir :
  let root := path_resolve cwd [workspaceDir] in
  let valid := valid_candidates cwd fs root uploadPaths in
  let requested := toLowerCase <$> inferRequestedFileNames userMessage in
  enforceUploadPolicy cwd fs uploadPaths userMessage workspaceDir =
  match requested with
  | _ :: _ => unique (filter (λ abs, matchedRequestedName requested abs = true) valid)
  | [] =>
    if shouldAutoSelectAllUploads userMessage then
      match valid with [] => [] | _ :: _ => unique (selectAll cwd root valid) end
    else if shouldAutoSelectLatestUpload userMessage then
      match valid with [] => [] | first :: _ => [selectLatest cwd fs root first valid] end
    else []
  end.
Proof.
  cbv zeta. unfold enforceUploadPolicy.
  set (root := path_resolve cwd [workspaceDir]).
  set (valid := valid_candidates cwd fs root uploadPaths).
  destruct (toLowerCase <$> inferRequestedFileNames userMessage) as [|n ns] eqn:Ereq.
  - change (bool_decide (length (unique []) = 0)) with true. cbn [andb].
    destruct (shouldAutoSelectAllUploads userMessage).
    + destruct (policy_loop_auto cwd fs root (shouldAutoSelectLatestUpload userMessage) true
                  uploadPaths {| accepted := []; dropped := []; autoCandidates := [] |})
        as [-> ->]; [apply orb_true_r|].
      cbn [accepted autoCandidates app negb andb]. fold valid.
      by destruct valid.
    + destruct (shouldAutoSelectLatestUpload userMessage).
      * destruct (policy_loop_auto cwd fs root true false uploadPaths
                    {| accepted := []; dropped := []; autoCandidates := [] |}) as [-> ->]; [done|].
        cbn [accepted autoCandidates app negb andb]. fold valid.
        by destruct valid.
      * destruct (policy_loop_none cwd fs root uploadPaths
                    {| accepted := []; dropped := []; autoCandidates := [] |}) as [-> _].
        done.
  - rewrite (bool_decide_eq_false_2 (length (unique (n :: ns)) = 0))
      by (by rewrite unique_length_zero).
    cbn [andb negb].
    destruct (policy_loop_explicit cwd fs root (n :: ns) false false uploadPaths
                {| accepted := []; dropped := []; autoCandidates := [] |}) as [-> _]; [done|].
    done.
Qed.

(** A choice among the paths chosen under "send everything" is the whole
    list. *)
Lemma selectAll_stable cwd workspaceRoot (candidates chosen : list string) :
  (∀ abs, abs ∈ chosen → abs ∈ selectAll cwd workspaceRoot candidates) →
  selectAll cwd workspaceRoot chosen = chosen.
Proof.
  intros Hsub.
  pose proof (selectAll_spec cwd workspaceRoot candidates) as Hc. cbv zeta in Hc.
  rewrite Hc in Hsub. clear Hc.
  pose proof (selectAll_spec cwd workspaceRoot chosen) as Hc. cbv zeta in Hc.
  rewrite Hc. clear Hc.
  set (isatt := λ path, isAttachmentCandidate cwd path workspaceRoot = true) in *.
  set (nonsess := λ path, String.eqb (toLowerCase (basename path)) "session.json" = false) in *.
  destruct (filter isatt candidates) as [|a l] eqn:Ea.
  - assert (Hatt : filter isatt chosen = []).
    { apply filter_none, Forall_forall. intros x Hx Hax.
      assert (Hxc : x ∈ candidates).
      { apply Hsub in Hx. destruct (filter nonsess candidates) eqn:Eb; [done|].
        rewrite <- Eb in Hx. by apply list_elem_of_filter in Hx as [_ ?]. }
      assert (Hin : x ∈ filter isatt candidates) by (by apply list_elem_of_filter).
      rewrite Ea in Hin. by apply elem_of_nil in Hin. }
    rewrite Hatt.
    destruct (filter nonsess candidates) as [|b l'] eqn:Eb.
    + assert (Hns : filter nonsess chosen = []).
      { apply filter_none, Forall_forall. intros x Hx Hnx. apply Hsub in Hx.
        assert (Hin : x ∈ filter nonsess candidates) by (by apply list_elem_of_filter).
        rewrite Eb in Hin. by apply elem_of_nil in Hin. }
      by rewrite Hns.
    + rewrite (filter_all nonsess chosen).
      * by destruct chosen.
      * apply Forall_forall. intros x Hx. apply Hsub in Hx. rewrite <- Eb in Hx.
        by apply list_elem_of_filter in Hx as [? _].
  - rewrite (filter_all isatt chosen).
    + by destruct chosen.
    + apply Forall_forall. intros x Hx. apply Hsub in Hx. rewrite <- Ea in Hx.
      by apply list_elem_of_filter in Hx as [? _].
Qed.

(** X3. The policy returns each path once and is idempotent: applied to
    its own result, with the same user text and workspace, it returns that
    result unchanged. *)
Theorem upload_policy_idempotent cwd fs uploadPaths userMessage workspaceDir :
  let chosen := enforceUploadPolicy cwd fs uploadPaths userMessage workspaceDir in
  NoDup chosen
  ∧ enforceUploadPolicy cwd fs chosen userMessage workspaceDir = chosen.
Proof.
  cbv zeta. split; [apply NoDup_enforceUploadPolicy|].
  pose proof (NoDup_enforceUploadPolicy cwd fs uploadPaths userMessage workspaceDir) as Hnd.
  assert (Hvalid : Forall (λ abs, abs ∈ valid_candidates cwd fs (path_resolve cwd [workspaceDir])
                                          uploadPaths)
                          (enforceUploadPolicy cwd fs uploadPaths userMessage workspaceDir)).
  { apply Forall_forall. intros abs Hin. by apply enforceUploadPolicy_valid in Hin as [? _]. }
  apply valid_candidates_stable in Hvalid.
  rewrite (enforceUploadPolicy_cases cwd fs (enforceUploadPolicy _ _ _ _ _)). cbv zeta.
  rewrite Hvalid. clear Hvalid.
  pose proof (enforceUploadPolicy_cases cwd fs uploadPaths userMessage workspaceDir) as Hc.
  cbv zeta in Hc.
  set (chosen := enforceUploadPolicy cwd fs uploadPaths userMessage workspaceDir) in *.
  set (root := path_resolve cwd [workspaceDir]) in *.
  set (valid := valid_candidates cwd fs root uploadPaths) in *.
  destruct (toLowerCase <$> inferRequestedFileNames userMessage) as [|n ns].
  - destruct (shouldAutoSelectAllUploads userMessage).
    + destruct valid as [|v vs]; [by rewrite Hc|].
      rewrite (selectAll_stable cwd root (v :: vs) chosen).
      * rewrite unique_NoDup by done. by destruct chosen.
      * intros abs Hin. rewrite Hc in Hin. by apply (proj1 (elem_of_unique _ _)) in Hin.
    + destruct (shouldAutoSelectLatestUpload userMessage); [|by rewrite Hc].
      destruct valid as [|v vs]; rewrite Hc; [done|].
      unfold selectLatest at 1. cbn [foldl]. unfold latest_step at 1. done.
  - rewrite (filter_all (λ abs, matchedRequestedName (n :: ns) abs = true) chosen).
    + by apply unique_NoDup.
    + apply Forall_forall. intros abs Hin. rewrite Hc in Hin.
      apply (proj1 (elem_of_unique _ _)) in Hin. by apply list_elem_of_filter in Hin as [? _].
Qed.

(** ** The upload collector and the message tool *)

Lemma trimEnd_idemp s : trimEnd (trimEnd s) = trimEnd s.
Proof.
  induction s as [|c s IH]; [done|]. simpl.
  destruct (trimEnd s) as [|d t] eqn:Et.
  - destruct (is_js_space c) eqn:Hc; [done|]. simpl. by rewrite Hc.
  - simpl. simpl in IH. by rewrite IH.
Qed.

Lemma trimStart_head s :
  trimStart s = "" ∨ ∃ c t, trimStart s = String c t ∧ is_js_space c = false.
Proof.
  induction s as [|c s IH]; [by left|]. simpl.
  destruct (is_js_space c) eqn:Hc; [done|]. right. by exists c, s.
Qed.

Lemma trimEnd_head c t :
  is_js_space c = false → ∃ t', trimEnd (String c t) = String c t'.
Proof.
  intros Hc. simpl. destruct (trimEnd t); [rewrite Hc|]; by eexists.
Qed.

(** [trim] is idempotent. *)
Lemma trim_idemp s : trim (trim s) = trim s.
Proof.
  unfold trim. destruct (trimStart_head s) as [->|(c & t & -> & Hc)]; [done|].
  destruct (trimEnd_head c t Hc) as [t' Ht]. rewrite Ht at 1.
  simpl trimStart. rewrite Hc, <- Ht. apply trimEnd_idemp.
Qed.

Lemma collector_calls_snoc cs c collector :
  collector_calls (cs ++ [c]) collector = collector_call c (collector_calls cs collector).
Proof. unfold collector_calls. by rewrite foldl_app. Qed.

(** X4. On a fresh [UploadCollector], after any history of [collect] and
    [collectMessage] calls: [drain] returns the collected paths in call
    order; [drainMessages] returns, in call order and as they were given, the
    messages that are not blank; a second [drain] or [drainMessages] returns
    nothing; and draining the paths leaves the messages in place, and
    conversely. *)
Theorem upload_collector_history (cs : list CollectorCall) :
  let collector := collector_calls cs newUploadCollector in
  (drain collector).1
    = omap (λ c, match c with Collect filePath => Some filePath | _ => None end) cs
  ∧ (drainMessages collector).1
    = filter (λ message, trim message ≠ "")
        (omap (λ c, match c with CollectMessage message => Some message | _ => None end) cs)
  ∧ (drain (drain collector).2).1 = []
  ∧ (drainMessages (drainMessages collector).2).1 = []
  ∧ (drainMessages (drain collector).2).1 = (drainMessages collector).1
  ∧ (drain (drainMessages collector).2).1 = (drain collector).1.
Proof.
  cbv zeta. split_and!; try done.
  - induction cs as [|c cs IH] using rev_ind; [done|].
    rewrite collector_calls_snoc, omap_app. simpl in *.
    destruct c as [f|m]; simpl.
    + by rewrite IH.
    + rewrite app_nil_r. unfold collectMessage. by destruct (negb _).
  - induction cs as [|c cs IH] using rev_ind; [done|].
    rewrite collector_calls_snoc, omap_app, filter_app. simpl in *.
    destruct c as [f|m]; simpl.
    + by rewrite app_nil_r.
    + unfold collectMessage. rewrite filter_cons.
      destruct (trim m) eqn:Em.
      * rewrite decide_False by (intros H; by apply H). simpl. by rewrite app_nil_r.
      * rewrite decide_True by done. simpl. by rewrite IH.
Qed.

Lemma queueFile_pendingMessages cwd fs workspaceDir filePath collector :
  pendingMessages (queueFile cwd fs workspaceDir filePath collector).2 = pendingMessages collector.
Proof.
  unfold queueFile. destruct (negb (startsWith _ _)); [done|].
  by destruct (negb (existsSync _ _)).
Qed.

(** X5. The [message] tool of the in-process server records the trimmed
    text of a call whenever that text is not empty, whatever becomes of the
    media of the same call: also when the media is refused and the call
    answers with an error. *)
Theorem message_tool_captures_text cwd fs workspaceDir message media collector :
  let out := messageCompatTool cwd fs workspaceDir message media collector in
  let text := trim (default "" message) in
  (drainMessages out.2).1 = pendingMessages collector ++ (if truthy text then [text] else []).
Proof.
  cbv zeta. unfold messageCompatTool. cbn [drainMessages fst].
  set (text := trim (default "" message)).
  set (collector1 := if truthy text then collectMessage text collector else collector).
  assert (Hc1 : pendingMessages collector1
                = pendingMessages collector ++ (if truthy text then [text] else [])).
  { unfold collector1. destruct (truthy text) eqn:Ht; [|by rewrite app_nil_r].
    unfold collectMessage. unfold text at 1. rewrite trim_idemp. fold text. by rewrite Ht. }
  destruct (startsWith (trim (default "" media)) "file://").
  - pose proof (queueFile_pendingMessages cwd fs workspaceDir
                  (Some (string_drop (String.length "file://") (trim (default "" media))))
                  collector1) as Hq.
    destruct (queueFile _ _ _ _ collector1) as [fileResult c]. simpl in Hq.
    destruct (startsWith fileResult "Error:"); simpl; [congruence|].
    destruct (negb _ && negb _); simpl; congruence.
  - destruct (negb _ && negb _); simpl; congruence.
Qed.

(** X6. The [message] tool of the in-process server queues a file only
    for media of the form [file://path] (once trimmed): the path is resolved
    and queued exactly when it passes the two tests of [queueFile] (the
    prefix test on the workspace, the presence on disk), and the call answers
    with an error otherwise. Any other media is ignored, and the call answers
    that nothing was provided exactly when text and media are both empty. *)
Theorem message_tool_media cwd fs workspaceDir message media collector :
  let out := messageCompatTool cwd fs workspaceDir message media collector in
  let text := trim (default "" message) in
  let media := trim (default "" media) in
  let absWorkspace := path_resolve cwd [workspaceDir] in
  let absPath := path_resolve cwd [string_drop 7 media] in
  if startsWith media "file://" then
    if startsWith absPath absWorkspace && existsSync fs absPath
    then (drain out.2).1 = pending collector ++ [absPath]
         ∧ out.1 = "Message request captured for Slack delivery."
    else (drain out.2).1 = pending collector ∧ startsWith out.1 "Error:" = true
  else
    (drain out.2).1 = pending collector
    ∧ out.1 = if negb (truthy text) && negb (truthy media)
              then "No message or media provided."
              else "Message request captured for Slack delivery.".
Proof.
  cbv zeta. unfold messageCompatTool. cbn [drain fst].
  set (text := trim (default "" message)).
  set (collector1 := if truthy text then collectMessage text collector else collector).
  assert (Hc1 : pending collector1 = pending collector).
  { unfold collector1, collectMessage. destruct (truthy text); [|done]. by destruct (negb _). }
  set (m := trim (default "" media)).
  destruct (startsWith m "file://") eqn:Hm.
  - pose proof (queueFile_spec cwd fs workspaceDir (Some (string_drop 7 m)) collector1) as Hq.
    cbv zeta in Hq. change (default "" (Some (string_drop 7 m))) with (string_drop 7 m) in Hq.
    change (String.length "file://") with 7.
    destruct (queueFile cwd fs workspaceDir (Some (string_drop 7 m)) collector1)
      as [fileResult c]. simpl in Hq.
    destruct (startsWith _ _ && existsSync _ _).
    + destruct Hq as (_ & Hp & ->).
      change (startsWith ("File queued for upload: " +:+ _) "Error:") with false. cbv iota.
      assert (Ht : truthy m = true) by (destruct m; [discriminate Hm|done]).
      rewrite Ht, andb_false_r. simpl. by rewrite Hp, Hc1.
    + destruct Hq as [-> Hs]. rewrite Hs. simpl. by rewrite Hc1.
  - destruct (negb _ && negb _); simpl; by rewrite Hc1.
Qed.

(** ** QueueManager and the scheduler bridge *)

Lemma lookup_manager_step c ca m :
  manager_step ca m !! c
  = if decide (ca.1 = c) then Some (queue_step ca.2 (queue_of c m)) else m !! c.
Proof.
  destruct ca as [c' a]. unfold manager_step, getQueue, queue_of. simpl.
  destruct (m !! c') as [q'|] eqn:Hc'; case_decide as Hd; subst.
  - by rewrite lookup_insert_eq, Hc'.
  - by rewrite lookup_insert_ne.
  - by rewrite lookup_insert_eq, Hc'.
  - by rewrite !lookup_insert_ne.
Qed.

Lemma on_channel_not_named c acts : c ∉ acts.*1 → on_channel c acts = [].
Proof.
  induction acts as [|ca acts IH]; [done|].
  intros Hnot. apply not_elem_of_cons in Hnot as [Hne Hnot].
  unfold on_channel. cbn [omap list_omap]. rewrite decide_False by done.
  by apply IH.
Qed.

(** After a schedule the manager holds a queue for every channel the
    schedule names, and its other entries are those it had. *)
Lemma lookup_manager_run c acts : ∀ m,
  manager_run acts m !! c
  = if bool_decide (c ∈ acts.*1)
    then Some (queue_run (on_channel c acts) (queue_of c m))
    else m !! c.
Proof.
  induction acts as [|ca acts IH]; intros m; [done|].
  change (manager_run (ca :: acts) m) with (manager_run acts (manager_step ca m)).
  rewrite IH, queue_of_manager_step, lookup_manager_step.
  unfold on_channel. cbn [omap list_omap fmap list_fmap].
  fold (on_channel c acts).
  destruct (decide (ca.1 = c)) as [Heq|Hne].
  - rewrite (bool_decide_eq_true_2 (c ∈ ca.1 :: acts.*1)) by (rewrite Heq; left).
    case_bool_decide as Hin; [done|].
    by rewrite (on_channel_not_named c acts Hin).
  - case_bool_decide as Hin.
    + by rewrite bool_decide_eq_true_2 by (by right).
    + rewrite bool_decide_eq_false_2; [done|].
      intros [Heq|Hin']%elem_of_cons; [by apply Hne|by apply Hin].
Qed.

(** X7. The queue of a channel, as [QueueManager] hands it out, is
    affected only by the actions addressed to that channel: after any global
    schedule it is the queue obtained by running, on the channel's initial
    queue, the actions of the schedule that name the channel; the manager
    then holds that queue for every channel the schedule names, and its
    other entries are those it had. [getQueue] registers the queue it hands
    out: the manager holds it afterwards, under the channel asked for, and
    holds for every other channel what it held before. Asking twice for the
    queue of a channel creates nothing the second time, and creating the
    queue of a channel leaves the queue of every channel as it was. *)
Theorem queue_manager_isolation (acts : list (string * QueueAction)) (c c' : string)
    (m : gmap string ChannelQueue) :
  queue_of c (manager_run acts m) = queue_run (on_channel c acts) (queue_of c m)
  ∧ manager_run acts m !! c
    = (if bool_decide (c ∈ acts.*1)
       then Some (queue_run (on_channel c acts) (queue_of c m))
       else m !! c)
  ∧ (getQueue c m).2 !! c = Some (getQueue c m).1
  ∧ (c' ≠ c → (getQueue c m).2 !! c' = m !! c')
  ∧ getQueue c (getQueue c m).2 = getQueue c m
  ∧ (getQueue c m).1 = queue_of c m
  ∧ queue_of c' (getQueue c m).2 = queue_of c' m.
Proof.
  split_and!.
  - apply queue_of_manager_run.
  - apply lookup_manager_run.
  - unfold getQueue. destruct (m !! c) as [q|] eqn:Hc; simpl; [done|].
    by rewrite lookup_insert_eq.
  - intros Hne. unfold getQueue. destruct (m !! c) as [q|] eqn:Hc; simpl; [done|].
    by rewrite lookup_insert_ne.
  - unfold getQueue. destruct (m !! c) as [q|] eqn:Hc; simpl.
    + by rewrite Hc.
    + by rewrite lookup_insert_eq.
  - unfold getQueue, queue_of. by destruct (m !! c).
  - unfold getQueue, queue_of. destruct (m !! c) as [q|] eqn:Hc; simpl; [done|].
    destruct (decide (c = c')) as [->|Hne].
    + by rewrite lookup_insert_eq, Hc.
    + by rewrite lookup_insert_ne.
Qed.

Lemma match_scheduler_event {A} (subtype : string) (X Y : A) :
  match subtype with "scheduler_event" => X | _ => Y end
  = if String.eqb subtype "scheduler_event" then X else Y.
Proof.
  do 16 (destruct subtype as [|[[] [] [] [] [] [] [] []] subtype]; try reflexivity).
Qed.

Lemma handleMessage_frame onDelivery workspaces workspaceDir message :
  let out := handleMessage onDelivery workspaces workspaceDir message in
  delete workspaceDir out.1 = delete workspaceDir workspaces
  ∧ closing <$> (out.1 !! workspaceDir) = closing <$> (workspaces !! workspaceDir)
  ∧ (workspaces !! workspaceDir = None → out = (workspaces, [])).
Proof.
  cbv zeta. unfold handleMessage.
  destruct message as [[subtype|] ? ? data| | | |]; try done.
  rewrite match_scheduler_event.
  destruct (String.eqb subtype "scheduler_event"); [|done].
  destruct (workspaces !! workspaceDir) as [state|] eqn:Hws; [|by cbn [fst snd]; rewrite Hws].
  destruct (mjoin (parseSchedulerEventData data)) as [event|]; [|by cbn [fst snd]; rewrite Hws].
  destruct (ev_action event) as [action|]; [|by cbn [fst snd]; rewrite Hws].
  destruct (ev_jobId event) as [jobId|]; [|by cbn [fst snd]; rewrite Hws].
  destruct (negb (truthy action) || negb (truthy jobId)); [by cbn [fst snd]; rewrite Hws|].
  destruct (String.eqb action "added").
  { cbn [fst snd]. by rewrite delete_insert_eq, lookup_insert_eq. }
  destruct (String.eqb action "removed").
  { cbn [fst snd]. by rewrite delete_insert_eq, lookup_insert_eq. }
  destruct (negb (String.eqb action "finished")); [by cbn [fst snd]; rewrite Hws|].
  destruct (resolve jobId (routes state)); [|by cbn [fst snd]; rewrite Hws].
  destruct (onDelivery _ _); by cbn [fst snd]; rewrite Hws.
Qed.

Lemma consumeMessages_frame onDelivery workspaceDir ms : ∀ workspaces,
  let out := consumeMessages onDelivery workspaces workspaceDir ms in
  delete workspaceDir out.1 = delete workspaceDir workspaces
  ∧ closing <$> (out.1 !! workspaceDir) = closing <$> (workspaces !! workspaceDir)
  ∧ (workspaces !! workspaceDir = None → out = (workspaces, [])).
Proof.
  induction ms as [|m ms IH]; intros workspaces; [done|].
  cbv zeta. rewrite consumeMessages_cons. cbv zeta.
  destruct (handleMessage_frame onDelivery workspaces workspaceDir m) as (H1 & H2 & H3).
  destruct (IH (handleMessage onDelivery workspaces workspaceDir m).1) as (I1 & I2 & I3).
  cbn [fst snd]. split_and!.
  - by rewrite I1.
  - by rewrite I2.
  - intros Hnone. rewrite (H3 Hnone) in *. cbn [fst snd] in *. rewrite (I3 Hnone). done.
Qed.

(** X8. Handling the stream of one workspace never touches the entry of
    another workspace, nor the [closing] flag of its own; and the stream of a
    workspace that is not registered has no effect at all: no delivery, no
    log entry, no change. *)
Theorem scheduler_bridge_frame onDelivery workspaces workspaceDir ms :
  let out := consumeMessages onDelivery workspaces workspaceDir ms in
  delete workspaceDir out.1 = delete workspaceDir workspaces
  ∧ closing <$> (out.1 !! workspaceDir) = closing <$> (workspaces !! workspaceDir)
  ∧ consumeMessages onDelivery (delete workspaceDir workspaces) workspaceDir ms
    = (delete workspaceDir workspaces, []).
Proof.
  cbv zeta.
  destruct (consumeMessages_frame onDelivery workspaceDir ms workspaces) as (H1 & H2 & _).
  split_and!; [done..|].
  apply consumeMessages_frame, lookup_delete_eq.
Qed.

Lemma handleMessage_job onDelivery workspaces workspaceDir state action jobId :
  workspaces !! workspaceDir = Some state → jobId ≠ "" →
  handleMessage onDelivery workspaces workspaceDir (job_message action jobId)
  = if negb (truthy action) then (workspaces, [])
    else if String.eqb action "added" then
      (<[workspaceDir := {| routes := bindJob jobId (routes state);
                            closing := closing state |}]> workspaces, [])
    else if String.eqb action "removed" then
      (<[workspaceDir := {| routes := removeJob jobId (routes state);
                            closing := closing state |}]> workspaces, [])
    else handleMessage onDelivery workspaces workspaceDir (job_message action jobId).
Proof.
  intros Hws Hj. assert (Ht : truthy jobId = true) by (by destruct jobId).
  unfold handleMessage at 1, job_message at 1. cbn [mjoin option_join parseSchedulerEventData].
  rewrite Hws. cbn [ev_action ev_jobId]. rewrite Ht. cbn [negb orb]. rewrite orb_false_r.
  destruct (negb (truthy action)) eqn:Ha; [done|].
  destruct (String.eqb action "added") eqn:E1; [done|].
  destruct (String.eqb action "removed") eqn:E2; [done|].
  unfold handleMessage, job_message. cbn [mjoin option_join parseSchedulerEventData].
  rewrite Hws. cbn [ev_action ev_jobId]. rewrite Ht, Ha, E1, E2. done.
Qed.

Lemma handleMessage_finished onDelivery workspaces workspaceDir state session tools jobId
    status summary error route :
  workspaces !! workspaceDir = Some state → jobId ≠ "" →
  resolve jobId (routes state) = Some route →
  deliveries (handleMessage onDelivery workspaces workspaceDir
                (finished_message session tools jobId status summary error)).2
  = [(route, formatFinishedEventText
               {| ev_jobId := Some jobId; ev_action := Some "finished";
                  ev_status := status; ev_summary := summary; ev_error := error |})].
Proof.
  intros Hws Hj Hr. assert (Ht : truthy jobId = true) by (by destruct jobId).
  unfold handleMessage, finished_message. simpl. rewrite Hws. simpl. rewrite Ht. simpl.
  rewrite Hr. by destruct (onDelivery _ _).
Qed.

(** X9. For a registered workspace whose latest route is [R1]: once an
    [added] event has bound job [jobId] and a later [ensureWorkspace] has
    moved the latest route to [R2], a [finished] event of the job is
    delivered to [R1], with the text of [formatFinishedEventText]; after a
    [removed] event of the job, the same [finished] event is delivered to
    [R2]. *)
Theorem scheduler_bridge_job_lifecycle
    (onDelivery : SchedulerRoute → string → bool) (started : bool)
    (workspaces : gmap string WorkspaceSchedulerState) (workspaceDir : string)
    (state : WorkspaceSchedulerState) (jobId : string) (R1 R2 : SchedulerRoute)
    (session : string) (tools : option (list string)) (status summary error : option string)
    (Hws : workspaces !! workspaceDir = Some state)
    (Hlatest : latestRoute (routes state) = Some R1)
    (Hjob : jobId ≠ "") :
  let finished := finished_message session tools jobId status summary error in
  let text := formatFinishedEventText
                {| ev_jobId := Some jobId; ev_action := Some "finished";
                   ev_status := status; ev_summary := summary; ev_error := error |} in
  let added := (handleMessage onDelivery workspaces workspaceDir (job_message "added" jobId)).1 in
  ∃ moved,
    ensureWorkspace started added workspaceDir (Some R2) = Some moved
    ∧ deliveries (handleMessage onDelivery moved workspaceDir finished).2 = [(R1, text)]
    ∧ let removed :=
        (handleMessage onDelivery moved workspaceDir (job_message "removed" jobId)).1 in
      deliveries (handleMessage onDelivery removed workspaceDir finished).2 = [(R2, text)].
Proof.
  cbv zeta.
  rewrite (handleMessage_job onDelivery workspaces workspaceDir state "added" jobId Hws Hjob).
  cbn [truthy negb String.eqb Ascii.eqb Bool.eqb fst].
  unfold ensureWorkspace. rewrite lookup_insert_eq. cbn [routes closing].
  eexists. split; [reflexivity|]. split.
  - eapply handleMessage_finished; [apply lookup_insert_eq|done|].
    cbn [routes]. unfold resolve, setLatestRoute, bindJob. rewrite Hlatest. cbn.
    by rewrite lookup_insert_eq.
  - erewrite handleMessage_job; [|apply lookup_insert_eq|done].
    cbn [truthy negb String.eqb Ascii.eqb Bool.eqb fst].
    eapply handleMessage_finished; [apply lookup_insert_eq|done|].
    cbn [routes]. unfold resolve, removeJob, setLatestRoute. cbn.
    by rewrite lookup_delete_eq.
Qed.

(** X9 at a concrete job: bound under [route_a], it is notified there after the
    latest route has moved to [route_b]. *)
Lemma scheduler_bridge_job_lifecycle_witness :
  let workspaces : gmap string WorkspaceSchedulerState :=
    {[ "/data/ws/u1" := {| routes := setLatestRoute route_a newSchedulerRoutes;
                           closing := false |} ]} in
  let finished := finished_message "s1" None "job-7" (Some "ok") (Some "report sent") None in
  let added := (handleMessage (λ _ _, true) workspaces "/data/ws/u1"
                  (job_message "added" "job-7")).1 in
  ∃ moved,
    ensureWorkspace true added "/data/ws/u1" (Some route_b) = Some moved
    ∧ deliveries (handleMessage (λ _ _, true) moved "/data/ws/u1" finished).2
      = [(route_a, "Scheduled job job-7: report sent")].
Proof.
  intros workspaces finished added.
  destruct (scheduler_bridge_job_lifecycle (λ _ _, true) true workspaces "/data/ws/u1"
              {| routes := setLatestRoute route_a newSchedulerRoutes; closing := false |}
              "job-7" route_a route_b "s1" None (Some "ok") (Some "report sent") None)
    as (moved & Hm & Hd & _); [reflexivity | reflexivity | discriminate |].
  exists moved. split; [exact Hm | exact Hd].
Defined.

(** X10. When the stream of a workspace ends, the workspace is forgotten,
    and a warning is logged exactly when the workspace was registered and not
    closing: never during [stopAll], neither before nor after it has cleared
    the registry. Later events of that stream are ignored. A later
    [ensureWorkspace] registers nothing when the query cannot be started, and
    otherwise registers a fresh state, not closing, in which every job
    resolves to the route given, if any: the bindings of the former
    registration are gone. *)
Theorem scheduler_bridge_stream_end
    (onDelivery : SchedulerRoute → string → bool)
    (workspaces : gmap string WorkspaceSchedulerState) (workspaceDir : string)
    (ms : list SDKMessage) (route : option SchedulerRoute) (jobId : string) :
  let ended := (streamEnded workspaces workspaceDir).1 in
  ended = delete workspaceDir workspaces
  ∧ (streamEnded workspaces workspaceDir).2
    = match closing <$> workspaces !! workspaceDir with
      | Some false =>
        [LogWarn "Scheduler bridge stopped unexpectedly; clearing workspace session"]
      | _ => []
      end
  ∧ (streamEnded (stopAll_stopping workspaces) workspaceDir).2 = []
  ∧ (streamEnded (stopAll_cleared workspaces) workspaceDir).2 = []
  ∧ consumeMessages onDelivery ended workspaceDir ms = (ended, [])
  ∧ ensureWorkspace false ended workspaceDir route = None
  ∧ ∃ fresh, ensureWorkspace true ended workspaceDir route = Some (<[workspaceDir := fresh]> ended)
             ∧ closing fresh = false
             ∧ resolve jobId (routes fresh) = route.
Proof.
  cbv zeta. unfold streamEnded. cbn [fst snd]. split_and!.
  - done.
  - destruct (workspaces !! workspaceDir) as [[r []]|]; done.
  - unfold stopAll_stopping. rewrite lookup_fmap.
    by destruct (workspaces !! workspaceDir).
  - done.
  - apply consumeMessages_frame, lookup_delete_eq.
  - unfold ensureWorkspace. by rewrite lookup_delete_eq.
  - unfold ensureWorkspace. rewrite lookup_delete_eq.
    eexists. split; [reflexivity|]. split; [done|].
    cbn [routes]. by destruct route.
Qed.

(** ** The message loop of the runner *)

Lemma str_join_nonempty sep (x : string) (xs : list string) :
  x ≠ "" → str_join sep (x :: xs) ≠ "".
Proof.
  intros Hx. destruct x as [|c x]; [done|]. unfold str_join. simpl.
  destruct xs; [done|]. rewrite string_app_cons. done.
Qed.

(** What [extractAssistantText] returns: the trimmed non-blank texts of the
    text blocks of an assistant message, joined by line feeds. *)
Lemma extractAssistantText_nonblank message :
  match extractAssistantText message with
  | Some text => text ≠ ""
  | None => True
  end.
Proof.
  unfold extractAssistantText.
  destruct message as [| ? [|blocks|] | | |]; try done.
  destruct (filter _ _) as [|t ts] eqn:Ef; [done|].
  apply str_join_nonempty.
  assert (Hin : t ∈ t :: ts) by by left. rewrite <- Ef in Hin.
  apply list_elem_of_filter in Hin as [Ht _]. by destruct t.
Qed.

Lemma runMessages_snoc onMessage ms m :
  runMessages onMessage (ms ++ [m]) = runMessage onMessage (runMessages onMessage ms) m.
Proof. unfold runMessages. by rewrite foldl_app. Qed.

(** X11. Over a whole stream, [runAgent] calls [onMessage] once for each
    assistant message that has text, in stream order, with the text
    [extractAssistantText] gives, which is never empty; without [onMessage]
    there is no call. [messageSent] is set exactly when one of these calls
    succeeded. *)
Theorem run_incremental_delivery (onMessage : option (string → bool)) (ms : list SDKMessage) :
  let st := runMessages onMessage ms in
  let texts := omap extractAssistantText ms in
  Forall (λ text, text ≠ "") texts
  ∧ onMessageCalls st = match onMessage with Some _ => texts | None => [] end
  ∧ messageSent st = match onMessage with
                     | Some deliver => existsb deliver texts
                     | None => false
                     end.
Proof.
  cbv zeta. split.
  - apply Forall_forall. intros text Hin. apply list_elem_of_omap in Hin as (m & _ & Hm).
    pose proof (extractAssistantText_nonblank m) as Hnb. by rewrite Hm in Hnb.
  - induction ms as [|m ms IH] using rev_ind; [by destruct onMessage|].
    rewrite runMessages_snoc, omap_app. destruct IH as [IHc IHs].
    assert (Hone : omap extractAssistantText [m]
                   = match extractAssistantText m with Some y => [y] | None => [] end) by done.
    rewrite Hone. clear Hone.
    destruct m as [? ? tools ?|sid c|c|? [] []|?];
      try (cbn [runMessage extractAssistantText messageSent onMessageCalls];
           rewrite ?app_nil_r; done).
    cbv beta iota delta [runMessage].
    destruct (extractAssistantText (AssistantMessage sid c)) as [text|];
      rewrite ?app_nil_r.
    + destruct onMessage as [deliver|]; cbn [messageSent onMessageCalls]; [|done].
      rewrite IHc, IHs, existsb_app. cbn [existsb]. rewrite orb_false_r.
      split; [done|]. by destruct (deliver text), (existsb deliver _).
    + by destruct onMessage.
Qed.

(** ** The result of a run *)

Lemma run_pendingUploads_cases cwd fs queued observed userMessage absWorkspace :
  let P := λ paths, enforceUploadPolicy cwd fs paths userMessage absWorkspace in
  let result := run_pendingUploads cwd fs queued observed userMessage absWorkspace in
  result = P (uploads queued)
  ∨ result = P (inferFallbackUploads cwd fs userMessage absWorkspace)
  ∨ result = P (filterUploadsToRequestedFileNames
                  (unique (observed ≫= (λ text,
                     inferUploadsFromModelText cwd fs (Some text) absWorkspace)))
                  userMessage).
Proof.
  cbv zeta. unfold run_pendingUploads.
  set (P0 := enforceUploadPolicy cwd fs (uploads queued) userMessage absWorkspace).
  set (P1 := enforceUploadPolicy cwd fs (inferFallbackUploads cwd fs userMessage absWorkspace)
               userMessage absWorkspace).
  set (P2 := enforceUploadPolicy cwd fs (filterUploadsToRequestedFileNames _ _) _ _).
  destruct P0 as [|p0 l0]; cbn [length Nat.eqb]; [|left; done].
  destruct P1 as [|p1 l1]; cbn [length Nat.eqb Nat.ltb Nat.leb]; [|right; left; done].
  destruct P2 as [|p2 l2]; cbn [length Nat.eqb Nat.ltb Nat.leb]; [left; done|right; right; done].
Qed.

Lemma drain_messages_clean cwd JSON_parse now workspaceDir fs :
  let queued := (drainWorkspaceToolQueue cwd JSON_parse now workspaceDir fs).1 in
  NoDup (messages queued) ∧ Forall (λ m, m ≠ "" ∧ trim m = m) (messages queued)
  ∧ NoDup (uploads queued).
Proof.
  cbv zeta. unfold drainWorkspaceToolQueue. cbn [fst].
  assert (Hempty : NoDup (messages emptySnapshot)
                   ∧ Forall (λ m, m ≠ "" ∧ trim m = m) (messages emptySnapshot)
                   ∧ NoDup (uploads emptySnapshot)).
  { split_and!; constructor. }
  destruct (readFile fs _) as [raw|]; [|exact Hempty].
  destruct (JSON_parse raw) as [value|]; [|exact Hempty].
  unfold normalizeQueueSnapshot. destruct value; try exact Hempty.
  cbn [messages uploads]. split_and!; try apply NoDup_unique.
  apply Forall_forall. intros m Hm. apply (proj1 (elem_of_unique _ _)) in Hm.
  destruct (json_get "messages" _) as [[]|]; try (by apply elem_of_nil in Hm).
  apply list_elem_of_filter in Hm as [Ht Hm].
  apply list_elem_of_fmap in Hm as (x & -> & _).
  split; [by destruct (trim x)|apply trim_idemp].
Qed.

Lemma inferMessagesFromModelText_clean text :
  Forall (λ m, m ≠ "" ∧ trim m = m) (inferMessagesFromModelText text).
Proof.
  unfold inferMessagesFromModelText. destruct text as [text|]; [|constructor].
  destruct (negb (truthy text)); [constructor|].
  apply Forall_forall. intros m Hm. apply (proj1 (elem_of_unique _ _)) in Hm.
  apply list_elem_of_filter in Hm as [Ht Hm].
  apply list_elem_of_fmap in Hm as (x & -> & _).
  split; [by destruct (trim _)|apply trim_idemp].
Qed.

(** X12. Every path in the [pendingUploads] of the result of a run,
    whichever of the three sources it comes from (the tool queue, the files
    the user text names, the paths the model printed), lies inside the
    workspace, is not the workspace root, is neither a reserved directory nor
    below one, and is on disk when the run returns. *)
Theorem run_uploads_safe cwd JSON_parse now fs userMessage workspaceDir st querySessionId :
  let out := runAgent_result cwd JSON_parse now fs userMessage workspaceDir st querySessionId in
  let root := path_resolve cwd [workspaceDir] in
  Forall (λ abs, inside_workspace root abs = true
                 ∧ abs ≠ root
                 ∧ under_reserved_path root abs = false
                 ∧ existsSync out.2 abs = true)
         (res_pendingUploads out.1).
Proof.
  cbv zeta. unfold runAgent_result.
  destruct (drainWorkspaceToolQueue _ _ _ _ _) as [queued fs'].
  cbn [fst snd res_pendingUploads].
  apply Forall_forall. intros abs Hin.
  assert (Hp : ∃ paths, abs ∈ enforceUploadPolicy cwd fs' paths userMessage
                                 (path_resolve cwd [workspaceDir])).
  { destruct (run_pendingUploads_cases cwd fs' queued (observedText st) userMessage
                (path_resolve cwd [workspaceDir])) as [H|[H|H]];
      cbv zeta in H; rewrite H in Hin; eauto. }
  destruct Hp as [paths Hp].
  apply enforceUploadPolicy_checked in Hp. cbv zeta in Hp.
  rewrite path_resolve_idemp in Hp. tauto.
Qed.

(** X13. The [pendingMessages] of the result of a run, whether they come
    from the tool queue or from [MESSAGE:] lines of the observed text, are
    listed once each, trimmed and not empty. *)
Theorem run_messages_clean cwd JSON_parse now fs userMessage workspaceDir st querySessionId :
  let out := runAgent_result cwd JSON_parse now fs userMessage workspaceDir st querySessionId in
  NoDup (res_pendingMessages out.1)
  ∧ Forall (λ m, m ≠ "" ∧ trim m = m) (res_pendingMessages out.1).
Proof.
  cbv zeta. unfold runAgent_result.
  pose proof (drain_messages_clean cwd JSON_parse now (path_resolve cwd [workspaceDir]) fs)
    as (Hnd & Hcl & _). cbv zeta in Hnd, Hcl.
  destruct (drainWorkspaceToolQueue _ _ _ _ _) as [queued fs'].
  cbn [fst snd res_pendingMessages] in *.
  unfold run_pendingMessages.
  destruct (messages queued) as [|m ms]; cbn [length Nat.eqb]; [|done].
  destruct (0 <? length _); [|done]. rewrite app_nil_l. split; [apply NoDup_unique|].
  apply Forall_forall. intros m Hm. apply (proj1 (elem_of_unique _ _)) in Hm.
  apply list_elem_of_bind in Hm as (text & Hm & _).
  pose proof (inferMessagesFromModelText_clean (Some text)) as Hall.
  by apply (proj1 (Forall_forall _ _) Hall).
Qed.

Lemma enforceUploadPolicy_nil cwd fs userMessage workspaceDir :
  enforceUploadPolicy cwd fs [] userMessage workspaceDir = [].
Proof.
  destruct (enforceUploadPolicy cwd fs [] userMessage workspaceDir) as [|abs l] eqn:E; [done|].
  assert (Hin : abs ∈ enforceUploadPolicy cwd fs [] userMessage workspaceDir)
    by (rewrite E; by left).
  apply enforceUploadPolicy_valid in Hin as [Hv _].
  apply elem_of_valid_candidates in Hv as ((c & Hc & _) & _). by apply elem_of_nil in Hc.
Qed.

(** With no file named in the user text, the fallbacks contribute nothing:
    the uploads of a run are the tool queue under the policy; and without an
    upload verb either, there are none. *)
Lemma run_pendingUploads_no_names cwd fs queued observed userMessage absWorkspace :
  inferRequestedFileNames userMessage = [] →
  run_pendingUploads cwd fs queued observed userMessage absWorkspace
  = enforceUploadPolicy cwd fs (uploads queued) userMessage absWorkspace.
Proof.
  intros Hnames.
  unfold run_pendingUploads, inferFallbackUploads, filterUploadsToRequestedFileNames.
  rewrite Hnames. cbn [fmap list_fmap length Nat.eqb].
  destruct (negb (hasUploadIntent userMessage));
    rewrite !enforceUploadPolicy_nil; cbn [length Nat.ltb Nat.leb];
    by destruct (enforceUploadPolicy cwd fs (uploads queued) userMessage _).
Qed.

Lemma run_pendingUploads_no_request cwd fs queued observed userMessage absWorkspace :
  inferRequestedFileNames userMessage = [] → hasUploadIntent userMessage = false →
  run_pendingUploads cwd fs queued observed userMessage absWorkspace = [].
Proof.
  intros Hnames Hintent. rewrite run_pendingUploads_no_names by done.
  apply enforceUploadPolicy_no_request; [done|by left].
Qed.

(** X14. When the user text names no file, the fallbacks contribute
    nothing: the uploads of a run are the uploads of the tool queue under the
    policy, whatever the model printed; and when moreover the text holds no
    upload verb, the run returns no upload. *)
Theorem run_uploads_need_request cwd JSON_parse now fs userMessage workspaceDir st querySessionId
    (Hnames : inferRequestedFileNames userMessage = []) :
  let out := runAgent_result cwd JSON_parse now fs userMessage workspaceDir st querySessionId in
  let root := path_resolve cwd [workspaceDir] in
  let queued := (drainWorkspaceToolQueue cwd JSON_parse now root fs).1 in
  res_pendingUploads out.1 = enforceUploadPolicy cwd out.2 (uploads queued) userMessage root
  ∧ (hasUploadIntent userMessage = false → res_pendingUploads out.1 = []).
Proof.
  cbv zeta. unfold runAgent_result.
  destruct (drainWorkspaceToolQueue _ _ _ _ _) as [queued fs'].
  cbn [fst snd res_pendingUploads]. split.
  - by apply run_pendingUploads_no_names.
  - intros Hintent. by apply run_pendingUploads_no_request.
Qed.

(** X14 at a concrete run: the text names no file, the model printed a path, and
    the file returned is the one of the tool queue. *)
Lemma run_uploads_need_request_witness :
  let st := runMessages None
              [AssistantMessage "s1" (ContentString "MEDIA:/data/ws/elsewhere.txt");
               ResultMessage "s1" false (Some "here it is")] in
  let out := runAgent_result "/srv/app" read_json 100 fs_sample "send that file" "/data/ws"
               st "s0" in
  inferRequestedFileNames "send that file" = []
  ∧ res_pendingUploads out.1 = ["/data/ws/out/report.pdf"].
Proof.
  intros st out.
  assert (Hn : inferRequestedFileNames "send that file" = []) by (vm_compute; reflexivity).
  split; [exact Hn|].
  destruct (run_uploads_need_request "/srv/app" read_json 100 fs_sample "send that file"
              "/data/ws" st "s0" Hn) as [Heq _].
  fold out in Heq. rewrite Heq. vm_compute. reflexivity.
Defined.

(** ** The managed workspace tools *)

(** The workspace test of the policy and of the managed tools is complete
    for a workspace other than the file-system root: a path inside the
    workspace passes it. *)
Lemma inside_workspace_check cwd workspaceDir p :
  let root := path_resolve cwd [workspaceDir] in
  let abs := path_resolve cwd [p] in
  root ≠ "/" → inside_workspace root abs = true →
  startsWith abs (root +:+ "/") = true ∨ abs = root.
Proof.
  cbv zeta. intros Hroot [k Hk]%inside_workspace_segments.
  destruct (path_resolve_segments cwd [workspaceDir]) as [_ Hr].
  destruct (path_resolve_segments cwd [p]) as [_ Ha]. cbv zeta in Hr, Ha.
  rewrite Hk in Ha.
  set (sr := normalize_segments false (path_resolve cwd [workspaceDir])) in *. clearbody sr.
  destruct k as [|k1 ks].
  - right. rewrite app_nil_r in Ha. congruence.
  - left. destruct sr as [|r rs]; [by rewrite Hr in Hroot|].
    rewrite Ha, Hr. rewrite str_join_app by done.
    rewrite <- !string_app_assoc.
    change (String "/" (str_join "/" (k1 :: ks))) with ("/" +:+ str_join "/" (k1 :: ks)).
    rewrite <- string_app_assoc. apply startsWith_app.
Qed.

Lemma normalizeWorkspacePath_sound cwd inputPath workspaceRoot candidate :
  normalizeWorkspacePath cwd inputPath workspaceRoot = Some candidate →
  ∃ p, inputPath = Some p ∧ p ≠ ""
       ∧ candidate = path_resolve cwd [path_resolve cwd [workspaceRoot]; p]
       ∧ inside_workspace (path_resolve cwd [workspaceRoot]) candidate = true.
Proof.
  unfold normalizeWorkspacePath. destruct inputPath as [p|]; [|done].
  destruct (truthy p) eqn:Hp; [|done]. cbn [negb].
  set (root := path_resolve cwd [workspaceRoot]).
  set (cand := path_resolve cwd [root; p]).
  intros Hres. assert (Hc : candidate = cand ∧ (cand = root ∨ startsWith cand (root +:+ "/") = true)).
  { destruct (String.eqb_spec cand root) as [Heq|Hne]; [by injection Hres as <-; auto|].
    destruct (startsWith cand (root +:+ "/")); [|done]. by injection Hres as <-; auto. }
  destruct Hc as [-> Hc]. exists p. split_and!; [done|by destruct p|done|].
  unfold cand in *. rewrite <- (path_resolve_idemp cwd [root; p]) in *.
  apply policy_check_inside_workspace. tauto.
Qed.

(** X15. For a workspace other than the file-system root,
    [normalizeWorkspacePath] of the managed tools accepts an input exactly
    when it is a non-empty string whose resolution against the workspace root
    lies inside the workspace, segment-wise, and it returns that resolved
    path: a sibling directory whose name starts with the name of the
    workspace is refused. *)
Theorem managed_tool_path_check cwd inputPath workspaceRoot
    (Hroot : path_resolve cwd [workspaceRoot] ≠ "/") :
  let root := path_resolve cwd [workspaceRoot] in
  normalizeWorkspacePath cwd inputPath workspaceRoot
  = match inputPath with
    | Some p =>
      if truthy p && inside_workspace root (path_resolve cwd [root; p])
      then Some (path_resolve cwd [root; p]) else None
    | None => None
    end.
Proof.
  cbv zeta. destruct inputPath as [p|]; [|done].
  destruct (normalizeWorkspacePath cwd (Some p) workspaceRoot) as [candidate|] eqn:Hn.
  - apply normalizeWorkspacePath_sound in Hn as (p' & [= <-] & Hp & -> & Hin).
    rewrite Hin. by destruct p.
  - destruct (truthy p) eqn:Hp; [|done]. cbn [andb].
    destruct (inside_workspace _ _) eqn:Hin; [|done]. exfalso.
    rewrite <- (path_resolve_idemp cwd [_; p]) in Hin.
    apply inside_workspace_check in Hin; [|done].
    rewrite path_resolve_idemp in Hin.
    unfold normalizeWorkspacePath in Hn. rewrite Hp in Hn. cbn [negb] in Hn.
    destruct Hin as [Hs|Heq].
    + rewrite Hs in Hn. by destruct (String.eqb _ _).
    + rewrite Heq, String.eqb_refl in Hn. done.
Qed.

(** X15 at workspace [/data/ws]: a file of the sibling [/data/ws-old] is refused,
    a relative path is resolved inside the workspace. *)
Lemma managed_tool_path_check_witness :
  path_resolve "/tmp" ["/data/ws"] ≠ "/"
  ∧ normalizeWorkspacePath "/tmp" (Some "/data/ws-old/secrets.txt") "/data/ws" = None
  ∧ normalizeWorkspacePath "/tmp" (Some "out/../a.pdf") "/data/ws" = Some "/data/ws/a.pdf".
Proof.
  assert (Hroot : path_resolve "/tmp" ["/data/ws"] ≠ "/") by (vm_compute; discriminate).
  split; [exact Hroot|].
  rewrite !(managed_tool_path_check "/tmp" _ "/data/ws" Hroot).
  split; vm_compute; reflexivity.
Defined.

(** X16. The managed tools write to the tool-output queue only after their
    checks. A call of the send-file tool either answers with an error and
    leaves the file system as it was, or appends to the uploads of the queue
    file a path that lies inside the workspace and is on disk, and changes no
    other file. A call of the message tool, once its text is queued, either
    changes nothing more or appends such a path in the same way. *)
Theorem managed_tools_checked cwd JSON_parse now file_path message content media projectRoot fs :
  let root := path_resolve cwd [projectRoot] in
  let queueFile := queuePath cwd projectRoot in
  let appended (before after : gmap string FileNode) (absPath : string) :=
    inside_workspace root absPath = true
    ∧ existsSync before absPath = true
    ∧ delete queueFile after = delete queueFile before
    ∧ readFile after queueFile
      = Some (JSON_stringify_queue
                {| uploads := uploads (loadQueue cwd JSON_parse before projectRoot) ++ [absPath];
                   messages := messages (loadQueue cwd JSON_parse before projectRoot) |}) in
  (let out := sendFileTool_execute cwd JSON_parse now file_path projectRoot fs in
   (startsWith out.1 "Error:" = true ∧ out.2 = fs)
   ∨ ∃ absPath, out.1 = "Queued file for upload: " +:+ absPath ∧ appended fs out.2 absPath)
  ∧ (let out := messageTool_execute cwd JSON_parse now message content media projectRoot fs in
     let text := trim (match message with Some m => m | None => default "" content end) in
     let fs1 := if truthy text then queueMessage cwd JSON_parse now text projectRoot fs else fs in
     out.2 = fs1
     ∨ ∃ absPath, out.1 = "Message request captured for delivery." ∧ appended fs1 out.2 absPath).
Proof.
  cbv zeta. split.
  - unfold sendFileTool_execute.
    destruct (normalizeWorkspacePath cwd file_path projectRoot) as [absPath|] eqn:Hn; [|by left].
    destruct (existsSync fs absPath) eqn:Hex; cbn [negb]; [|by left].
    right. exists absPath.
    apply normalizeWorkspacePath_sound in Hn as (p & _ & _ & _ & Hin).
    cbn [fst snd]. split_and!; try done.
    + unfold queueUpload, saveQueue, writeFile. by rewrite delete_insert_eq.
    + unfold queueUpload, saveQueue, writeFile, readFile. by rewrite lookup_insert_eq.
  - unfold messageTool_execute.
    set (text := trim _).
    set (fs1 := if truthy text then _ else fs).
    destruct (extractMediaPath cwd media projectRoot) as [mediaPath|] eqn:Hm.
    2:{ left. by destruct (negb (truthy text)). }
    destruct (existsSync fs1 mediaPath) eqn:Hex; cbn [negb]; [|by left].
    right. exists mediaPath.
    assert (Hin : inside_workspace (path_resolve cwd [projectRoot]) mediaPath = true).
    { unfold extractMediaPath in Hm. destruct media as [m|]; [|done].
      destruct (negb (truthy m)); [done|].
      destruct (startsWith m "file://");
        by apply normalizeWorkspacePath_sound in Hm as (p & _ & _ & _ & Hin). }
    cbn [fst snd]. split_and!; try done.
    + unfold queueUpload, saveQueue, writeFile. by rewrite delete_insert_eq.
    + unfold queueUpload, saveQueue, writeFile, readFile. by rewrite lookup_insert_eq.
Qed.

Lemma json_strings_JString (l : list string) : json_strings (JString <$> l) = l.
Proof. unfold json_strings. induction l as [|x l IH]; [done|]. cbn. by rewrite IH. Qed.

Lemma existsSync_writeFile now p data fs q :
  existsSync fs q = true → existsSync (writeFile now p data fs) q = true.
Proof.
  unfold existsSync, writeFile. rewrite !bool_decide_eq_true.
  destruct (decide (p = q)) as [->|Hne].
  - rewrite lookup_insert_eq. by eexists.
  - by rewrite lookup_insert_ne.
Qed.

(** X17. Round trip of the tool-output queue. On a queue freshly reset by
    the runner, a call of the send-file tool for a file of the workspace that
    is on disk answers that the file is queued; the next drain of the runner
    then returns exactly that file and no message, and leaves the queue
    reset. [JSON.parse] is assumed to read back the two texts involved. *)
Theorem managed_tool_round_trip
    (tool_cwd cwd : string) (JSON_parse : string → option JSON) (now0 now1 now2 : Z)
    (fs : gmap string FileNode) (workspaceDir file_path : string) :
  let root := path_resolve cwd [workspaceDir] in
  let absPath := path_resolve tool_cwd [root; file_path] in
  let fs0 := resetWorkspaceToolQueue now0 root fs in
  let call := sendFileTool_execute tool_cwd JSON_parse now1 (Some file_path) root fs0 in
  let drained := drainWorkspaceToolQueue cwd JSON_parse now2 root call.2 in
  JSON_parse EMPTY_QUEUE_JSON = Some EMPTY_QUEUE_VALUE →
  JSON_parse (JSON_stringify_queue {| uploads := [absPath]; messages := [] |})
    = Some (queue_value {| uploads := [absPath]; messages := [] |}) →
  normalizeWorkspacePath tool_cwd (Some file_path) root = Some absPath →
  existsSync fs0 absPath = true →
  call.1 = "Queued file for upload: " +:+ absPath
  ∧ drained.1 = {| uploads := [absPath]; messages := [] |}
  ∧ readFile drained.2 (getWorkspaceToolQueuePath root) = Some EMPTY_QUEUE_JSON.
Proof.
  cbv zeta. intros Hempty Hparse Hnorm Hex.
  set (root := path_resolve cwd [workspaceDir]) in *.
  set (absPath := path_resolve tool_cwd [root; file_path]) in *.
  assert (Hq : queuePath tool_cwd root = getWorkspaceToolQueuePath root).
  { unfold queuePath, getWorkspaceToolQueuePath, root. by rewrite path_resolve_resolved. }
  unfold sendFileTool_execute. rewrite Hnorm, Hex. cbn [negb fst snd].
  split; [done|].
  assert (Hload : loadQueue tool_cwd JSON_parse (resetWorkspaceToolQueue now0 root fs) root
                  = emptySnapshot).
  { unfold loadQueue, resetWorkspaceToolQueue, writeFile, readFile.
    rewrite Hq, lookup_insert_eq. cbn. by rewrite Hempty. }
  unfold queueUpload. rewrite Hload. cbn [uploads messages emptySnapshot app].
  unfold saveQueue. rewrite Hq.
  unfold drainWorkspaceToolQueue. cbn [fst snd]. split.
  - unfold readFile at 1, writeFile at 1. rewrite lookup_insert_eq. cbn [fmap option_fmap option_map content].
    rewrite Hparse. unfold normalizeQueueSnapshot, queue_value.
    cbn [json_get foldl fst snd String.eqb Ascii.eqb Bool.eqb uploads messages fmap list_fmap
         json_strings omap list_omap].
    apply normalizeWorkspacePath_sound in Hnorm as (p & _ & _ & _ & Hin).
    fold root in Hin.
    assert (Hres : path_resolve cwd [path_resolve cwd [root]; absPath] = absPath)
      by apply (path_resolve_last_resolved cwd [path_resolve cwd [root]]).
    rewrite Hres.
    assert (Hroot : ∀ c, path_resolve c [root] = root)
      by (intros c; apply path_resolve_resolved).
    assert (Habs : ∀ c, path_resolve c [absPath] = absPath)
      by (intros c; apply path_resolve_resolved).
    rewrite Hroot in Hin.
    assert (Hsw : startsWith absPath (path_resolve cwd [root]) = true).
    { rewrite <- (Habs cwd). apply inside_workspace_startsWith. by rewrite Hroot, Habs. }
    rewrite filter_cons, decide_True.
    + done.
    + rewrite Hsw. cbn [andb]. by apply existsSync_writeFile.
  - unfold resetWorkspaceToolQueue, readFile, writeFile. by rewrite lookup_insert_eq.
Qed.

(** X17 with the JSON reader of this file: the file a tool call queues is the
    one the next drain returns. *)
Lemma managed_tool_round_trip_witness :
  let fs : gmap string FileNode := {[ "/data/ws/out/report.pdf" := file_at 5 ]} in
  let fs0 := resetWorkspaceToolQueue 1 "/data/ws" fs in
  let call := sendFileTool_execute "/data/ws" read_json 2 (Some "out/report.pdf") "/data/ws" fs0 in
  call.1 = "Queued file for upload: /data/ws/out/report.pdf"
  ∧ (drainWorkspaceToolQueue "/srv/app" read_json 3 "/data/ws" call.2).1
    = {| uploads := ["/data/ws/out/report.pdf"]; messages := [] |}.
Proof.
  intros fs fs0 call.
  destruct (managed_tool_round_trip "/data/ws" "/srv/app" read_json 1 2 3 fs "/data/ws"
              "out/report.pdf") as (H1 & H2 & _);
    [vm_compute; reflexivity..|].
  split; [exact H1 | exact H2].
Defined.

(** ** Provisioning of the managed tools *)

Lemma includesb_includes s sub : includesb s sub = true ↔ includes s sub.
Proof.
  split.
  - induction s as [|c s IH]; cbn [includesb].
    + rewrite orb_false_r. intros [x Hx]%startsWith_inv. exists "", x. by rewrite string_app_nil_l.
    + intros [[x Hx]%startsWith_inv|H]%orb_true_iff.
      * exists "", x. by rewrite string_app_nil_l.
      * destruct (IH H) as (pre & post & ->). exists (String c pre), post. done.
  - intros (pre & post & ->). induction pre as [|c pre IH].
    + rewrite string_app_nil_l. destruct sub as [|d sub]; [by destruct post|].
      rewrite string_app_cons. cbn [includesb]. rewrite <- string_app_cons.
      by rewrite startsWith_app.
    + rewrite string_app_cons. cbn [includesb]. rewrite IH. apply orb_true_r.
Qed.

Lemma endsWith_slash_free_false (n : string) :
  slash_free n = true → n ≠ "" → endsWith n "/" = false.
Proof.
  induction n as [|c n IH]; [done|]. intros [Hc Hn]%andb_true_iff _.
  apply negb_true_iff in Hc. cbn [endsWith].
  destruct n as [|d n].
  - cbn. rewrite Hc. done.
  - rewrite IH by done. rewrite orb_false_r.
    cbn. destruct (Ascii.eqb c "/"); done.
Qed.

Lemma endsWith_app_slash (d n : string) :
  slash_free n = true → n ≠ "" → endsWith (d +:+ String "/" n) "/" = false.
Proof.
  intros Hn Hne. induction d as [|c d IH].
  - rewrite string_app_nil_l. cbn [endsWith]. rewrite endsWith_slash_free_false by done.
    rewrite orb_false_r. destruct n; [done|]. cbn. done.
  - rewrite string_app_cons. cbn [endsWith]. rewrite IH, orb_false_r.
    destruct (d +:+ String "/" n) as [|e s] eqn:E.
    + by destruct d.
    + cbn. by destruct (Ascii.eqb c "/").
Qed.

Lemma str_join_last_nonempty (segs : list string) (n : string) :
  n ≠ "" → str_join "/" (segs ++ [n]) ≠ "".
Proof.
  intros Hn. destruct segs as [|x xs]; [by destruct n|].
  change ((x :: xs) ++ [n]) with (x :: (xs ++ [n])).
  rewrite str_join_cons by (by destruct xs). by destruct x.
Qed.

(** [path.join] of a resolved path and clean segments. *)
Lemma path_join_resolved cwd paths (names : list string) :
  Forall clean_segment names → names ≠ [] →
  path_join (path_resolve cwd paths :: names)
  = "/" +:+ str_join "/" (normalize_segments false (path_resolve cwd paths) ++ names).
Proof.
  intros Hclean Hne.
  destruct (path_resolve_segments cwd paths) as [Hsegs Hroot]. cbv zeta in Hsegs, Hroot.
  set (segs := normalize_segments false (path_resolve cwd paths)) in *.
  set (root := path_resolve cwd paths) in *. clearbody segs root. subst root.
  assert (Hsf : Forall (λ seg, slash_free seg = true) names)
    by (eapply Forall_impl; [exact Hclean|by intros ? []]).
  unfold path_join.
  rewrite filter_all.
  2:{ constructor; [done|]. eapply Forall_impl; [exact Hclean|].
      intros s (_ & Hs & _). by destruct s. }
  rewrite str_join_cons by done.
  assert (Hnorm : normalize_segments false
                    (("/" +:+ str_join "/" segs) +:+ String "/" (str_join "/" names))
                  = segs ++ names).
  { unfold normalize_segments. rewrite split_on_app, foldl_app.
    fold (normalize_segments false ("/" +:+ str_join "/" segs)).
    rewrite normalize_segments_join by done.
    rewrite split_join by done. by apply normalize_fold_on_clean. }
  destruct names as [|n0 ns] using rev_ind; [done|]. clear IHns.
  assert (Hn0 : clean_segment n0) by (apply Forall_app in Hclean as [_ H]; by inversion H).
  destruct Hn0 as (Hn0s & Hn0e & _).
  assert (Htrail : endsWith (("/" +:+ str_join "/" segs) +:+ String "/" (str_join "/" (ns ++ [n0])))
                            "/" = false).
  { destruct ns as [|n1 ns'].
    - by apply endsWith_app_slash.
    - rewrite str_join_app by done. rewrite <- string_app_cons.
      rewrite <- (string_app_assoc _ _ (String "/" n0)).
      by apply endsWith_app_slash. }
  unfold path_normalize.
  change (("/" +:+ str_join "/" segs) +:+ String "/" (str_join "/" (ns ++ [n0])))
    with (String "/" (str_join "/" segs +:+ String "/" (str_join "/" (ns ++ [n0])))) in *.
  cbv beta iota zeta. change (Ascii.eqb "/" "/") with true. cbn [negb].
  rewrite Hnorm, Htrail. cbv iota.
  rewrite app_assoc.
  pose proof (str_join_last_nonempty (segs ++ ns) n0 Hn0e) as Hbody.
  destruct (str_join "/" ((segs ++ ns) ++ [n0])); done.
Qed.


(** The path of a tool file in a resolved workspace. *)
Lemma tool_file_path cwd w (name : string) :
  clean_segment name →
  let root := path_resolve cwd [w] in
  path_join [path_join [root; ".papert"; "tools"]; name]
  = "/" +:+ str_join "/" (normalize_segments false root ++ [".papert"; "tools"; name]).
Proof.
  intros Hname. cbv zeta.
  assert (Hc2 : Forall clean_segment [".papert"; "tools"]).
  { repeat constructor; done. }
  rewrite (path_join_resolved cwd [w] [".papert"; "tools"]) by done.
  set (segs := normalize_segments false (path_resolve cwd [w])).
  assert (Hsegs : Forall clean_segment (segs ++ [".papert"; "tools"])).
  { apply Forall_app. split; [apply normalize_segments_clean|done]. }
  pose proof (path_resolve_clean cwd [] _ Hsegs) as Hres. cbn [app] in Hres.
  rewrite <- Hres.
  rewrite (path_join_resolved cwd _ [name]); [|by constructor|done].
  rewrite Hres.
  rewrite normalize_segments_join by done. by rewrite <- app_assoc.
Qed.

Lemma tool_file_path_inj cwd w (n1 n2 : string) :
  clean_segment n1 → clean_segment n2 →
  let toolsDir := path_join [path_resolve cwd [w]; ".papert"; "tools"] in
  path_join [toolsDir; n1] = path_join [toolsDir; n2] → n1 = n2.
Proof.
  intros H1 H2. cbv zeta. rewrite !tool_file_path by done. cbv zeta.
  set (segs := normalize_segments false (path_resolve cwd [w])).
  intros Heq. apply (f_equal (normalize_segments false)) in Heq.
  assert (Hc : ∀ n, clean_segment n → Forall clean_segment (segs ++ [".papert"; "tools"; n])).
  { intros n Hn. apply Forall_app. split; [apply normalize_segments_clean|].
    constructor; [done|]. constructor; [done|]. by constructor. }
  rewrite !normalize_segments_join in Heq by auto.
  apply app_inv_head in Heq. congruence.
Qed.


Lemma provision_step_lookup now step acc p :
  (provision_step now step acc).1 !! p
  = if decide (p = step_path step) then step_at now step (acc.1 !! p) else acc.1 !! p.
Proof.
  unfold provision_step. cbn [fst].
  destruct step as [q|q c]; cbn [step_path step_at];
    unfold deleteManagedToolFile, writeManagedToolFile, readFile, writeFile.
  - case_decide as Hp; [subst q|].
    + destruct (acc.1 !! p) as [f|] eqn:Hf; cbn; [|by rewrite Hf].
      destruct (includesb (content f) MANAGED_TOOL_MARKER); cbn; [by rewrite lookup_delete_eq|done].
    + destruct (acc.1 !! q) as [f|]; cbn; [|done].
      destruct (includesb (content f) MANAGED_TOOL_MARKER); cbn; [by rewrite lookup_delete_ne|done].
  - case_decide as Hp; [subst q|].
    + destruct (acc.1 !! p) as [f|] eqn:Hf; cbn; [|by rewrite lookup_insert_eq].
      destruct (includesb (content f) MANAGED_TOOL_MARKER);
        destruct (String.eqb (content f) c); cbn; rewrite ?lookup_insert_eq; done.
    + destruct (acc.1 !! q) as [f|]; cbn; [|by rewrite lookup_insert_ne].
      destruct (includesb (content f) MANAGED_TOOL_MARKER);
        destruct (String.eqb (content f) c); cbn; rewrite ?lookup_insert_ne; done.
Qed.

Lemma provision_steps_lookup now (steps : list ProvisionStep) p : ∀ acc,
  p ∉ step_path <$> steps →
  (foldl (λ acc step, provision_step now step acc) acc steps).1 !! p = acc.1 !! p.
Proof.
  induction steps as [|s steps IH]; intros acc Hp; [done|]. cbn [foldl].
  rewrite fmap_cons, not_elem_of_cons in Hp. destruct Hp as [Hne Hp].
  rewrite IH by done. rewrite provision_step_lookup. by rewrite decide_False.
Qed.

Lemma provision_steps_lookup_at now (before after : list ProvisionStep) step : ∀ acc,
  step_path step ∉ step_path <$> before → step_path step ∉ step_path <$> after →
  (foldl (λ acc step, provision_step now step acc) acc (before ++ step :: after)).1
    !! step_path step
  = step_at now step (acc.1 !! step_path step).
Proof.
  intros acc Hb Ha. rewrite foldl_app. cbn [foldl].
  rewrite provision_steps_lookup by done.
  rewrite provision_step_lookup, decide_True by done.
  by rewrite provision_steps_lookup.
Qed.

Lemma step_at_unmanaged now step (f : FileNode) :
  includesb (content f) MANAGED_TOOL_MARKER = false → step_at now step (Some f) = Some f.
Proof. intros Hf. destruct step; cbn; by rewrite Hf. Qed.

Lemma step_at_idemp now now' step o :
  step_at now' step (step_at now step o) = step_at now step o.
Proof.
  destruct step as [q|q c], o as [f|]; cbn.
  - destruct (includesb (content f) MANAGED_TOOL_MARKER) eqn:Hf; cbn; [done|by rewrite Hf].
  - done.
  - destruct (includesb (content f) MANAGED_TOOL_MARKER) eqn:Hf; cbn; [|by rewrite Hf].
    destruct (String.eqb (content f) c) eqn:Hc; cbn.
    + by rewrite Hf, Hc.
    + by rewrite String.eqb_refl, andb_false_r.
  - by rewrite String.eqb_refl, andb_false_r.
Qed.

Lemma provision_steps_split (steps : list ProvisionStep) p :
  NoDup (step_path <$> steps) → p ∈ step_path <$> steps →
  ∃ before step after, steps = before ++ step :: after ∧ p = step_path step
    ∧ (step_path step ∉ step_path <$> before) ∧ (step_path step ∉ step_path <$> after).
Proof.
  intros Hnd Hin. apply list_elem_of_fmap in Hin as (s & -> & Hs).
  apply list_elem_of_split in Hs as (l1 & l2 & ->).
  exists l1, s, l2. split; [done|]. split; [done|].
  rewrite fmap_app, fmap_cons in Hnd.
  apply NoDup_app in Hnd as (_ & Hdis & Hnd2). apply NoDup_cons in Hnd2 as [Hnot _].
  split; [|done]. intros Hin. apply (Hdis _ Hin). by left.
Qed.

Lemma provision_steps_idemp now now' (steps : list ProvisionStep) fs :
  NoDup (step_path <$> steps) →
  let run t fs := (foldl (λ acc step, provision_step t step acc) (fs, []) steps).1 in
  run now' (run now fs) = run now fs.
Proof.
  intros Hnd. cbv zeta. apply map_eq. intros p.
  destruct (decide (p ∈ step_path <$> steps)) as [Hin|Hnot].
  - destruct (provision_steps_split steps p Hnd Hin) as (l1 & s & l2 & -> & -> & H1 & H2).
    rewrite (provision_steps_lookup_at now' l1 l2 s _ H1 H2). cbn [fst].
    rewrite (provision_steps_lookup_at now l1 l2 s _ H1 H2). apply step_at_idemp.
  - rewrite (provision_steps_lookup now' steps p _ Hnot). cbn [fst]. done.
Qed.

(** X18. Provisioning never changes or removes a file that does not carry
    the managed marker: such a file is the same after
    [ensureWorkspaceSendFileTools], whatever its path. *)
Theorem provisioning_keeps_unmanaged_files
    (SEND_FILE_TOOL_REST MESSAGE_TOOL_REST SLACK_TOOL_REST : string) (now : Z)
    (workspaceDir : string) (fs : gmap string FileNode) (p : string) (f : FileNode)
    (Hfile : fs !! p = Some f)
    (Hunmanaged : includesb (content f) MANAGED_TOOL_MARKER = false) :
  (ensureWorkspaceSendFileTools SEND_FILE_TOOL_REST MESSAGE_TOOL_REST SLACK_TOOL_REST
     now workspaceDir fs).1 !! p = Some f.
Proof.
  unfold ensureWorkspaceSendFileTools.
  set (steps := provision_steps _ _ _ _). clearbody steps.
  assert (H : ∀ acc, acc.1 !! p = Some f →
            (foldl (λ acc step, provision_step now step acc) acc steps).1 !! p = Some f).
  { induction steps as [|s steps IH]; intros acc Hacc; [done|]. cbn [foldl].
    apply IH. rewrite provision_step_lookup. case_decide; [|done].
    rewrite Hacc. by apply step_at_unmanaged. }
  by apply H.
Qed.

(** X18 at a tool file of the user's own: provisioning leaves it alone. *)
Lemma provisioning_keeps_unmanaged_files_witness :
  let fs : gmap string FileNode :=
    {[ "/data/ws/.papert/tools/message.mjs" :=
         {| content := "export default { description: 'mine' }"; mtimeMs := 3 |} ]} in
  (ensureWorkspaceSendFileTools "a" "b" "c" 9 "/data/ws" fs).1
    !! "/data/ws/.papert/tools/message.mjs"
  = Some {| content := "export default { description: 'mine' }"; mtimeMs := 3 |}.
Proof.
  intros fs.
  apply (provisioning_keeps_unmanaged_files "a" "b" "c" 9 "/data/ws" fs); reflexivity.
Defined.

Lemma clean_segment_intro (s : string) :
  slash_free s && negb (String.eqb s "") && negb (String.eqb s ".") && negb (String.eqb s "..")
  = true → clean_segment s.
Proof.
  rewrite !andb_true_iff, !negb_true_iff, !String.eqb_neq. unfold clean_segment. tauto.
Qed.

(** The eight files of the provisioning are different files. *)
Lemma provision_steps_NoDup S M L cwd w :
  NoDup (step_path <$> provision_steps S M L (path_resolve cwd [w])).
Proof.
  unfold provision_steps. cbv zeta. cbn [fmap list_fmap step_path].
  set (toolsDir := path_join [path_resolve cwd [w]; ".papert"; "tools"]).
  assert (Hinj : ∀ n1 n2, clean_segment n1 → clean_segment n2 →
                   path_join [toolsDir; n1] = path_join [toolsDir; n2] → n1 = n2)
    by (intros n1 n2; apply tool_file_path_inj).
  repeat (apply NoDup_cons; split;
          [intros Hin;
           repeat (apply elem_of_cons in Hin as [Hin|Hin];
                   [apply Hinj in Hin; [discriminate Hin| |];
                    apply clean_segment_intro; reflexivity|]);
           by apply elem_of_nil in Hin|]).
  constructor.
Qed.

Lemma managed_source_marked rest :
  includesb (managed_source rest) MANAGED_TOOL_MARKER = true.
Proof. apply includesb_includes. by exists "// ", (String "010" rest). Qed.

(** X19. In a resolved workspace, after [ensureWorkspaceSendFileTools]:
    each of the four tool files holds the current source when it was absent
    or carried the managed marker, and is left as it was otherwise; each of
    the four legacy files is gone when it carried the marker, and is left as
    it was otherwise; provisioning again, at any later time, changes
    nothing; and the three sources carry the marker. *)
Theorem provisioning_result
    (SEND_FILE_TOOL_REST MESSAGE_TOOL_REST SLACK_TOOL_REST : string) (now now' : Z)
    (cwd workspaceDir : string) (fs : gmap string FileNode) :
  let root := path_resolve cwd [workspaceDir] in
  let toolsDir := path_join [root; ".papert"; "tools"] in
  let provision t fs :=
    (ensureWorkspaceSendFileTools SEND_FILE_TOOL_REST MESSAGE_TOOL_REST SLACK_TOOL_REST
       t root fs).1 in
  let installed (name source : string) :=
    readFile (provision now fs) (path_join [toolsDir; name])
    = match readFile fs (path_join [toolsDir; name]) with
      | Some existing =>
        if includesb existing MANAGED_TOOL_MARKER then Some source else Some existing
      | None => Some source
      end in
  let removed (name : string) :=
    readFile (provision now fs) (path_join [toolsDir; name])
    = match readFile fs (path_join [toolsDir; name]) with
      | Some existing => if includesb existing MANAGED_TOOL_MARKER then None else Some existing
      | None => None
      end in
  installed "SendFileToChat.mjs" (SEND_FILE_TOOL_SOURCE SEND_FILE_TOOL_REST)
  ∧ installed "send_file_to_chat.mjs" (SEND_FILE_TOOL_SOURCE SEND_FILE_TOOL_REST)
  ∧ installed "message.mjs" (MESSAGE_TOOL_SOURCE MESSAGE_TOOL_REST)
  ∧ installed "slack.mjs" (SLACK_TOOL_SOURCE SLACK_TOOL_REST)
  ∧ removed "SendFileToChat.js" ∧ removed "send_file_to_chat.js"
  ∧ removed "message.js" ∧ removed "slack.js"
  ∧ provision now' (provision now fs) = provision now fs
  ∧ Forall (λ source, includesb source MANAGED_TOOL_MARKER = true)
           [SEND_FILE_TOOL_SOURCE SEND_FILE_TOOL_REST; MESSAGE_TOOL_SOURCE MESSAGE_TOOL_REST;
            SLACK_TOOL_SOURCE SLACK_TOOL_REST].
Proof.
  cbv zeta.
  pose proof (provision_steps_NoDup SEND_FILE_TOOL_REST MESSAGE_TOOL_REST SLACK_TOOL_REST
                cwd workspaceDir) as Hnd.
  unfold ensureWorkspaceSendFileTools.
  assert (Hat : ∀ i step,
            provision_steps SEND_FILE_TOOL_REST MESSAGE_TOOL_REST SLACK_TOOL_REST
              (path_resolve cwd [workspaceDir]) !! i = Some step →
            readFile (foldl (λ acc step, provision_step now step acc) (fs, [])
                        (provision_steps SEND_FILE_TOOL_REST MESSAGE_TOOL_REST SLACK_TOOL_REST
                           (path_resolve cwd [workspaceDir]))).1 (step_path step)
            = content <$> step_at now step (fs !! step_path step)).
  { intros i step Hi. apply take_drop_middle in Hi. rewrite <- Hi in Hnd |- *.
    rewrite fmap_app, fmap_cons in Hnd.
    apply NoDup_app in Hnd as (_ & Hdis & Hnd2). apply NoDup_cons in Hnd2 as [Hnot _].
    unfold readFile. rewrite provision_steps_lookup_at; [done| |done].
    intros Hin. apply (Hdis _ Hin). by left. }
  assert (Hw : ∀ q c, content <$> step_at now (WriteManaged q c) (fs !! q)
                      = match readFile fs q with
                        | Some existing =>
                          if includesb existing MANAGED_TOOL_MARKER then Some c else Some existing
                        | None => Some c
                        end).
  { intros q c. unfold readFile. destruct (fs !! q) as [[cf mt]|]; [|done].
    cbn [step_at content fmap option_fmap option_map].
    destruct (includesb cf MANAGED_TOOL_MARKER); cbn [andb]; [|done].
    destruct (String.eqb_spec cf c) as [->|]; done. }
  assert (Hd : ∀ q, content <$> step_at now (DeleteManaged q) (fs !! q)
                    = match readFile fs q with
                      | Some existing =>
                        if includesb existing MANAGED_TOOL_MARKER then None else Some existing
                      | None => None
                      end).
  { intros q. unfold readFile. destruct (fs !! q) as [[cf mt]|]; [|done].
    cbn [step_at content fmap option_fmap option_map].
    by destruct (includesb cf MANAGED_TOOL_MARKER). }
  split_and!.
  - rewrite <- Hw. by apply (Hat 4 (WriteManaged _ _)).
  - rewrite <- Hw. by apply (Hat 5 (WriteManaged _ _)).
  - rewrite <- Hw. by apply (Hat 6 (WriteManaged _ _)).
  - rewrite <- Hw. by apply (Hat 7 (WriteManaged _ _)).
  - rewrite <- Hd. by apply (Hat 0 (DeleteManaged _)).
  - rewrite <- Hd. by apply (Hat 1 (DeleteManaged _)).
  - rewrite <- Hd. by apply (Hat 2 (DeleteManaged _)).
  - rewrite <- Hd. by apply (Hat 3 (DeleteManaged _)).
  - by apply (provision_steps_idemp now now').
  - repeat constructor; apply managed_source_marked.
Qed.

(** ** The LLM environment *)

Lemma unsetEnv_lookup keys env (k : string) :
  unsetEnv keys env !! k = if bool_decide (k ∈ keys) then None else env !! k.
Proof.
  unfold unsetEnv. revert env. induction keys as [|key keys IH]; intros env; [done|].
  cbn [foldl]. rewrite IH.
  destruct (decide (k = key)) as [->|Hne].
  - rewrite lookup_delete_eq. rewrite (bool_decide_eq_true_2 (key ∈ key :: keys)) by by left.
    by case_bool_decide.
  - rewrite lookup_delete_ne by done.
    case_bool_decide as H1; case_bool_decide as H2; try done.
    + exfalso. apply H2. by right.
    + exfalso. apply elem_of_cons in H2 as [?|?]; done.
Qed.

(** The cases of [applyLlmEnvFromSettings], read off its log entry: the
    environment is configured only for settings of provider [openai] with a
    non-empty key, base URL and model, and is left as it was otherwise. *)
Lemma applyLlmEnvFromSettings_cases (settings : option LlmSettings) (env : gmap string string)
    (k : string) :
  let out := applyLlmEnvFromSettings settings env in
  match out.2 with
  | ConfiguredFromDb =>
    ∃ key url model,
      settings = Some {| llm_provider := Some "openai"; openai_api_key := Some key;
                         openai_base_url := Some url; openai_model := Some model |}
      ∧ key ≠ "" ∧ url ≠ "" ∧ model ≠ ""
      ∧ out.1 !! "OPENAI_API_KEY" = Some key
      ∧ out.1 !! "OPENAI_BASE_URL" = Some url
      ∧ out.1 !! "OPENAI_MODEL" = Some model
      ∧ out.1 !! "PAPERT_MODEL" = Some model
      ∧ (if bool_decide (k ∈ OTHER_PROVIDER_ENV) then out.1 !! k = None
         else if bool_decide (k ∈ OPENAI_ENV) then True
         else out.1 !! k = env !! k)
      ∧ applyLlmEnvFromSettings settings out.1 = out
  | _ => out.1 = env
  end.
Proof.
  cbv zeta. unfold applyLlmEnvFromSettings.
  destruct settings as [[provider key url model]|]; [|done]. cbn [llm_provider openai_api_key openai_base_url openai_model].
  destruct provider as [provider|]; [|done].
  destruct (truthy provider) eqn:Hp; [|done]. cbn [negb].
  destruct (String.eqb_spec provider "openai") as [->|Hne]; [|done]. cbn [negb].
  destruct key as [key|], url as [url|], model as [model|]; try done.
  destruct (truthy key) eqn:Hk; [|done].
  destruct (truthy url) eqn:Hu; [|done].
  destruct (truthy model) eqn:Hm; [|done].
  cbn [negb orb snd fst].
  exists key, url, model. split; [done|].
  split; [by destruct key|]. split; [by destruct url|]. split; [by destruct model|].
  split_and!.
  - rewrite !lookup_insert_ne by done. by rewrite lookup_insert_eq.
  - rewrite !lookup_insert_ne by done. by rewrite lookup_insert_eq.
  - rewrite !lookup_insert_ne by done. by rewrite lookup_insert_eq.
  - by rewrite lookup_insert_eq.
  - unfold OTHER_PROVIDER_ENV, OPENAI_ENV, clearProviderRoutingEnv.
    case_bool_decide as H1.
    + repeat (apply elem_of_cons in H1 as [->|H1];
              [rewrite !lookup_insert_ne by done; rewrite !unsetEnv_lookup;
               repeat (case_bool_decide; [done|]);
               exfalso; set_unfold; tauto|]).
      by apply elem_of_nil in H1.
    + case_bool_decide as H2; [done|].
      rewrite !lookup_insert_ne by (intros <-; apply H2; set_unfold; tauto).
      rewrite !unsetEnv_lookup.
      repeat (case_bool_decide as H3; [exfalso; set_unfold; tauto|clear H3]). done.
  - f_equal. apply map_eq. intros j. unfold clearProviderRoutingEnv.
    repeat first [rewrite lookup_insert | rewrite unsetEnv_lookup].
    repeat case_decide; try done.
Qed.

(** Complete [openai] settings are applied. *)
Lemma applyLlmEnvFromSettings_configured (key url model : string) (env : gmap string string) :
  key ≠ "" → url ≠ "" → model ≠ "" →
  (applyLlmEnvFromSettings
     (Some {| llm_provider := Some "openai"; openai_api_key := Some key;
              openai_base_url := Some url; openai_model := Some model |}) env).2
  = ConfiguredFromDb.
Proof.
  intros Hk Hu Hm. unfold applyLlmEnvFromSettings.
  cbn [llm_provider openai_api_key openai_base_url openai_model].
  change (truthy "openai") with true. change ("openai" =? "openai")%string with true.
  cbn [negb].
  assert (truthy key = true) as -> by (by destruct key).
  assert (truthy url = true) as -> by (by destruct url).
  assert (truthy model = true) as -> by (by destruct model).
  done.
Qed.

(** X20. For settings of provider [openai] with a non-empty key, base URL
    and model, [applyLlmEnvFromSettings] configures the environment: it
    reports the configuration, the four OpenAI variables hold the values of
    the settings, the variables that select another provider are unset,
    every other variable is left alone, and applying the same settings again
    changes nothing. These are the only settings for which it reports a
    configuration; for all other settings the environment is left as it
    was. *)
Theorem llm_env_from_settings (settings : option LlmSettings) (env : gmap string string)
    (key url model k : string) :
  let openai := Some {| llm_provider := Some "openai"; openai_api_key := Some key;
                        openai_base_url := Some url; openai_model := Some model |} in
  (key ≠ "" → url ≠ "" → model ≠ "" →
   let out := applyLlmEnvFromSettings openai env in
   out.2 = ConfiguredFromDb
   ∧ out.1 !! "OPENAI_API_KEY" = Some key
   ∧ out.1 !! "OPENAI_BASE_URL" = Some url
   ∧ out.1 !! "OPENAI_MODEL" = Some model
   ∧ out.1 !! "PAPERT_MODEL" = Some model
   ∧ (k ∈ OTHER_PROVIDER_ENV → out.1 !! k = None)
   ∧ (k ∉ OTHER_PROVIDER_ENV → k ∉ OPENAI_ENV → out.1 !! k = env !! k)
   ∧ applyLlmEnvFromSettings openai out.1 = out)
  ∧ (let out := applyLlmEnvFromSettings settings env in
     (out.2 = ConfiguredFromDb
      ↔ ∃ key url model,
          settings = Some {| llm_provider := Some "openai"; openai_api_key := Some key;
                             openai_base_url := Some url; openai_model := Some model |}
          ∧ key ≠ "" ∧ url ≠ "" ∧ model ≠ "")
     ∧ (out.2 ≠ ConfiguredFromDb → out.1 = env)).
Proof.
  intros openai. split.
  - intros Hk Hu Hm out.
    pose proof (applyLlmEnvFromSettings_configured key url model env Hk Hu Hm) as Htag.
    pose proof (applyLlmEnvFromSettings_cases openai env k) as Hc. cbv zeta in Hc.
    fold openai in Htag. fold out in Htag, Hc. rewrite Htag in Hc.
    destruct Hc as (key' & url' & model' & Heq & _ & _ & _ & H1 & H2 & H3 & H4 & Hk' & Hidem).
    injection Heq as <- <- <-.
    split_and!; try done.
    + intros Hin. by rewrite bool_decide_eq_true_2 in Hk'.
    + intros Hn1 Hn2. by rewrite !bool_decide_eq_false_2 in Hk'.
  - intros out.
    pose proof (applyLlmEnvFromSettings_cases settings env k) as Hc. cbv zeta in Hc.
    fold out in Hc. split.
    + split.
      * intros Htag. rewrite Htag in Hc.
        destruct Hc as (key' & url' & model' & Heq & ? & ? & ? & _). by exists key', url', model'.
      * intros (key' & url' & model' & -> & ? & ? & ?).
        by apply applyLlmEnvFromSettings_configured.
    + intros Hne. by destruct out.2.
Qed.

(** X20 at concrete settings: the key of another provider is unset, the
    former model is replaced, and a variable of no provider is kept. *)
Lemma llm_env_from_settings_witness :
  let env : gmap string string :=
    {[ "ANTHROPIC_API_KEY" := "sk-ant"; "OPENAI_MODEL" := "old"; "HOME" := "/root" ]} in
  let out := applyLlmEnvFromSettings
               (Some {| llm_provider := Some "openai"; openai_api_key := Some "sk-1";
                        openai_base_url := Some "https://llm.example/v1";
                        openai_model := Some "gpt-x" |}) env in
  out.2 = ConfiguredFromDb
  ∧ out.1 !! "OPENAI_API_KEY" = Some "sk-1"
  ∧ out.1 !! "OPENAI_MODEL" = Some "gpt-x"
  ∧ out.1 !! "ANTHROPIC_API_KEY" = None
  ∧ out.1 !! "HOME" = Some "/root".
Proof.
  intros env out.
  destruct (llm_env_from_settings None env "sk-1" "https://llm.example/v1" "gpt-x"
              "ANTHROPIC_API_KEY") as [Hother _].
  destruct (Hother ltac:(discriminate) ltac:(discriminate) ltac:(discriminate))
    as (Htag & Hkey & _ & Hmodel & _ & Hunset & _).
  destruct (llm_env_from_settings None env "sk-1" "https://llm.example/v1" "gpt-x" "HOME")
    as [Hhome _].
  destruct (Hhome ltac:(discriminate) ltac:(discriminate) ltac:(discriminate))
    as (_ & _ & _ & _ & _ & _ & Hkept & _).
  assert (Hin : bool_decide ("ANTHROPIC_API_KEY" ∈ OTHER_PROVIDER_ENV) = true)
    by (vm_compute; reflexivity).
  assert (H1 : bool_decide ("HOME" ∈ OTHER_PROVIDER_ENV) = false) by (vm_compute; reflexivity).
  assert (H2 : bool_decide ("HOME" ∈ OPENAI_ENV) = false) by (vm_compute; reflexivity).
  split_and!; [exact Htag | exact Hkey | exact Hmodel | |].
  - exact (Hunset (bool_decide_eq_true_1 _ Hin)).
  - exact (eq_trans (Hkept (bool_decide_eq_false_1 _ H1) (bool_decide_eq_false_1 _ H2)) eq_refl).
Defined.

(** ** The reply after a run *)

(** X21. For a message whose text names no file and holds no upload verb,
    the run returns no upload, whatever was queued or printed, and the
    handlers post the captured messages and then the result text unchanged:
    as an update of the placeholder when no assistant text was delivered
    during the run, and not at all otherwise. *)
Theorem plain_message_reply_untouched
    (uploadFile : string → bool) (cwd : string) (JSON_parse : string → option JSON) (now : Z)
    (fs : gmap string FileNode) (text : option string) (workspaceDir : string) (st : RunState)
    (querySessionId : string)
    (Hnames : inferRequestedFileNames (default "" text) = [])
    (Hintent : hasUploadIntent (default "" text) = false) :
  let result := (runAgent_result cwd JSON_parse now fs (run_userMessage text) workspaceDir st
                   querySessionId).1 in
  res_pendingUploads result = []
  ∧ deliverResult uploadFile result text
    = (PostReply <$> res_pendingMessages result)
      ++ (if res_messageSent result then []
          else [UpdateThinking (default "_No response_" (res_text result))]).
Proof.
  cbv zeta.
  assert (Hrun : inferRequestedFileNames (run_userMessage text) = []
                 ∧ hasUploadIntent (run_userMessage text) = false).
  { unfold run_userMessage. destruct (truthy_opt text); [done|].
    split; vm_compute; reflexivity. }
  destruct Hrun as [Hn Hi].
  assert (Hup : res_pendingUploads
                  (runAgent_result cwd JSON_parse now fs (run_userMessage text) workspaceDir st
                     querySessionId).1 = []).
  { unfold runAgent_result.
    destruct (drainWorkspaceToolQueue _ _ _ _ _) as [queued fs'].
    cbn [fst res_pendingUploads]. by apply run_pendingUploads_no_request. }
  split; [exact Hup|].
  unfold deliverResult. rewrite Hup. cbn [filter list_filter length fmap list_fmap app].
  assert (Hasked : regex_test true RE_UPLOAD_INTENT (if truthy_opt text then default "" text else "")
                   = false).
  { destruct (truthy_opt text); [exact Hintent|]. vm_compute. reflexivity. }
  unfold normalizeUploadResponseText. rewrite Hasked.
  cbn [Nat.ltb Nat.leb Nat.eqb andb]. rewrite String.eqb_refl. cbn [negb].
  by destruct (res_messageSent _).
Qed.

(** X21 at a plain question: a file waits in the tool queue, none is returned,
    and the reply is the result text. *)
Lemma plain_message_reply_untouched_witness :
  let st := runMessages None [ResultMessage "s1" false (Some "It has 12 pages.")] in
  let result := (runAgent_result "/srv/app" read_json 100 fs_sample
                   (run_userMessage (Some "how long is the report?")) "/data/ws" st "s0").1 in
  res_pendingUploads result = []
  ∧ deliverResult (λ _, true) result (Some "how long is the report?")
    = [PostReply "done"; UpdateThinking "It has 12 pages."].
Proof.
  intros st result.
  destruct (plain_message_reply_untouched (λ _, true) "/srv/app" read_json 100 fs_sample
              (Some "how long is the report?") "/data/ws" st "s0") as [H1 H2];
    [vm_compute; reflexivity..|].
  split; [exact H1|]. fold result in H2. rewrite H2. vm_compute. reflexivity.
Defined.

(** ** The words that ask for a file *)

(** The matcher only ever succeeds through its continuation, on a suffix of
    its input. *)
Lemma rmatch_suffix ic r : ∀ prev s k rest,
  rmatch ic r prev s k = Some rest →
  ∃ m s' prev', s = m +:+ s' ∧ k prev' s' = Some rest.
Proof.
  induction r as [|p|f|a IHa b IHb|a IHa b IHb|a IHa| | |]; intros prev s k rest H; cbn [rmatch] in H.
  - by exists "", s, prev.
  - destruct s as [|c s]; [done|]. destruct (chr_matches ic p c); [|done].
    by exists (String c ""), s, (Some c).
  - destruct s as [|c s]; [done|]. destruct (f c); [|done].
    by exists (String c ""), s, (Some c).
  - apply IHa in H as (m1 & s1 & p1 & -> & H).
    apply IHb in H as (m2 & s2 & p2 & -> & H).
    exists (m1 +:+ m2), s2, p2. by rewrite string_app_assoc.
  - destruct (rmatch ic a prev s k) eqn:Ha.
    + injection H as <-. by apply IHa in Ha.
    + by apply IHb in H.
  - revert H. generalize (String.length s) at 1. intros fuel. revert prev s.
    induction fuel as [|fuel IHf]; intros prev s H.
    + by exists "", s, prev.
    + match type of H with
      | match ?X with _ => _ end = _ => destruct X eqn:Hstep
      end.
      * injection H as <-. apply IHa in Hstep as (m1 & s1 & p1 & -> & Hstep).
        destruct (String.length s1 <? String.length (m1 +:+ s1)); [|done].
        apply IHf in Hstep as (m2 & s2 & p2 & -> & Hstep).
        exists (m1 +:+ m2), s2, p2. by rewrite string_app_assoc.
      * by exists "", s, prev.
  - destruct (xorb _ _); [|done]. by exists "", s, prev.
  - destruct prev; [done|]. by exists "", s, None.
  - destruct s; [|done]. by exists "", "", prev.
Qed.

(** A search that succeeds has found a match of the pattern at the start of
    a suffix of the input. *)
Lemma regex_search_found ic r : ∀ s prev before matched rest,
  regex_search ic r prev s = Some (before, matched, rest) →
  ∃ prev' s', s = before +:+ s' ∧ rmatch ic r prev' s' (λ _ rest, Some rest) = Some rest.
Proof.
  induction s as [|c s IH]; intros prev before matched rest H; cbn [regex_search] in H.
  - destruct (rmatch ic r prev "" _) eqn:Hm; [|done].
    injection H as <- <- <-. by exists prev, "".
  - destruct (rmatch ic r prev (String c s) _) eqn:Hm.
    + injection H as <- <- <-. by exists prev, (String c s).
    + destruct (regex_search ic r (Some c) s) as [[[b m] r']|] eqn:Hs; [|done].
      injection H as <- <- <-.
      apply IH in Hs as (prev' & s' & -> & Hs). by exists prev', s'.
Qed.

Lemma In_all_ascii (c : ascii) : In c (map ascii_of_nat (seq 0 256)).
Proof.
  apply in_map_iff. exists (nat_of_ascii c). split; [apply ascii_nat_embedding|].
  apply in_seq. pose proof (nat_ascii_bounded c). lia.
Qed.

(** Under the [i] flag a lower-case letter of a pattern matches that letter
    in either case, and nothing else. *)
Lemma lower_char_matches (p c : ascii) :
  (97 <=? code p) && (code p <=? 122) = true →
  chr_matches true p c = true → lower_char c = p.
Proof.
  intros Hp Hc.
  assert (Hall : forallb (λ p, forallb (λ c,
                    implb ((97 <=? code p) && (code p <=? 122) && chr_matches true p c)
                          (Ascii.eqb (lower_char c) p))
                    (map ascii_of_nat (seq 0 256))) (map ascii_of_nat (seq 0 256)) = true)
    by (vm_compute; reflexivity).
  rewrite forallb_forall in Hall. specialize (Hall p (In_all_ascii p)).
  rewrite forallb_forall in Hall. specialize (Hall c (In_all_ascii c)).
  rewrite Hp, Hc in Hall. by apply Ascii.eqb_eq in Hall.
Qed.

Lemma toLowerCase_app (a b : string) : toLowerCase (a +:+ b) = toLowerCase a +:+ toLowerCase b.
Proof.
  induction a as [|c a IH]; [done|]. rewrite string_app_cons. cbn [toLowerCase].
  by rewrite IH.
Qed.

(** A literal of lower-case letters, matched under the [i] flag, consumes
    a text that is the literal up to case. *)
Lemma rmatch_Lit_lower (l : string) : ∀ prev s k rest,
  forallb (λ p, (97 <=? code p) && (code p <=? 122)) (list_ascii_of_string l) = true →
  rmatch true (Lit l) prev s k = Some rest →
  ∃ m s' prev', s = m +:+ s' ∧ toLowerCase m = l ∧ k prev' s' = Some rest.
Proof.
  induction l as [|p l IH]; intros prev s k rest Hl H.
  - exists "", s, prev. done.
  - cbn [list_ascii_of_string forallb] in Hl. apply andb_true_iff in Hl as [Hp Hl].
    cbn [Lit rmatch] in H. destruct s as [|c s]; [done|].
    destruct (chr_matches true p c) eqn:Hc; [|done].
    apply IH in H as (m & s' & prev' & -> & Hm & H); [|done].
    exists (String c m), s', prev'. split; [done|]. split; [|done].
    cbn [toLowerCase]. by rewrite Hm, (lower_char_matches p c Hp Hc).
Qed.

Lemma hasUploadIntent_verb userMessage :
  hasUploadIntent userMessage = true → mentions_upload_verb userMessage = true.
Proof.
  unfold hasUploadIntent, regex_test. intros H. apply bool_decide_eq_true in H as [[[b m] r] H].
  apply regex_search_found in H as (prev & s' & -> & H).
  unfold RE_UPLOAD_INTENT in H. cbn [Seqs rmatch] in H.
  destruct (xorb _ _); [|done].
  assert (Hverb : ∃ verb m s'' , verb ∈ UPLOAD_VERBS ∧ s' = m +:+ s'' ∧ toLowerCase m = verb).
  { unfold RE_VERB in H. cbn [Alts] in H.
    cbn [rmatch] in H.
    repeat match type of H with
           | match ?X with _ => _ end = _ => destruct X eqn:?Hm; [clear H|]
           end.
    all: match goal with
         | Hm : rmatch true (Lit ?v) _ _ _ = Some _ |- _ =>
           apply rmatch_Lit_lower in Hm as (m' & s'' & _ & -> & Hlow & _); [|reflexivity];
           exists v, m', s''; split; [|done]
         end.
    all: unfold UPLOAD_VERBS; set_solver. }
  destruct Hverb as (verb & m' & s'' & Hin & -> & Hlow).
  unfold mentions_upload_verb. apply existsb_exists. exists verb.
  split; [by apply list_elem_of_In|].
  apply includesb_includes. exists (toLowerCase b), (toLowerCase s'').
  by rewrite !toLowerCase_app, Hlow.
Qed.

Lemma inferRequestedFileNames_dot userMessage :
  includesb userMessage "." = false → inferRequestedFileNames userMessage = [].
Proof.
  intros Hdot.
  assert (Hnone : regex_search false RE_FILE_NAME None userMessage = None).
  { destruct (regex_search false RE_FILE_NAME None userMessage) as [[[b m] r]|] eqn:Hs; [|done].
    exfalso. apply regex_search_found in Hs as (prev & s' & -> & H).
    unfold RE_FILE_NAME in H. cbn [Seqs] in H.
    change (rmatch false (Seq ?A ?B) prev s' ?k)
      with (rmatch false A prev s' (λ prev' s1, rmatch false B prev' s1 k)) in H.
    apply rmatch_suffix in H as (m1 & s1 & p1 & -> & H).
    cbn [rmatch] in H. destruct s1 as [|c s2]; [done|].
    destruct (chr_matches false "." c) eqn:Hc; [|done].
    apply Ascii.eqb_eq in Hc as <-.
    assert (Hinc : includes (b +:+ m1 +:+ String "." s2) ".").
    { exists (b +:+ m1), s2. by rewrite string_app_assoc. }
    apply includesb_includes in Hinc. congruence. }
  unfold inferRequestedFileNames, regex_match_all. cbn [regex_scan]. by rewrite Hnone.
Qed.

(** X22. A user text that contains none of the words attach, upload, send
    and share, in any case, and no dot, has no upload intent and names no
    file; the policy then returns nothing and the run returns no upload. *)
Theorem request_needs_words
    (cwd : string) (JSON_parse : string → option JSON) (now : Z) (fs : gmap string FileNode)
    (uploadPaths : list string) (userMessage workspaceDir : string) (st : RunState)
    (querySessionId : string)
    (Hverb : mentions_upload_verb userMessage = false)
    (Hdot : includesb userMessage "." = false) :
  hasUploadIntent userMessage = false
  ∧ inferRequestedFileNames userMessage = []
  ∧ enforceUploadPolicy cwd fs uploadPaths userMessage workspaceDir = []
  ∧ res_pendingUploads
      (runAgent_result cwd JSON_parse now fs userMessage workspaceDir st querySessionId).1 = [].
Proof.
  assert (Hi : hasUploadIntent userMessage = false).
  { destruct (hasUploadIntent userMessage) eqn:E; [|done].
    apply hasUploadIntent_verb in E. congruence. }
  pose proof (inferRequestedFileNames_dot userMessage Hdot) as Hn.
  split_and!; [done|done| |].
  - apply enforceUploadPolicy_no_request; [done|by left].
  - unfold runAgent_result. destruct (drainWorkspaceToolQueue _ _ _ _ _) as [queued fs'].
    cbn [fst res_pendingUploads]. by apply run_pendingUploads_no_request.
Qed.

(** X22 at a plain question without verb or dot. *)
Lemma request_needs_words_witness :
  mentions_upload_verb "What is in the quarterly report" = false
  ∧ includesb "What is in the quarterly report" "." = false
  ∧ enforceUploadPolicy "/srv/app" fs_workspace ["/data/ws/report.pdf"]
      "What is in the quarterly report" "/data/ws" = [].
Proof.
  assert (Hv : mentions_upload_verb "What is in the quarterly report" = false)
    by (vm_compute; reflexivity).
  assert (Hd : includesb "What is in the quarterly report" "." = false)
    by (vm_compute; reflexivity).
  split; [exact Hv|]. split; [exact Hd|].
  apply (request_needs_words "/srv/app" read_json 0 fs_workspace ["/data/ws/report.pdf"]
           "What is in the quarterly report" "/data/ws" initialRunState "" Hv Hd).
Defined.

(** ** Rejected work and failed deliveries *)

Lemma settle_all_errors os : ∀ ws q,
  queue_inv ws q →
  length os = length (running q ++ queue q) →
  errors (settle_all os q) = errors q ++ rejected (running q ++ queue q) os.
Proof.
  induction os as [|o os IH]; intros ws q Hinv Hlen.
  - unfold rejected. rewrite zip_with_nil_r. cbn. by rewrite app_nil_r.
  - change (settle_all (o :: os) q) with (settle_all os (settle 0 o q)).
    destruct (settle_starts_next ws q o Hinv) as [Hr Hq].
    pose proof (queue_inv_settle ws q 0 o Hinv) as Hinv'.
    pose proof Hinv as (completed & _ & _ & Hl & _ & Hidle).
    pose proof (settle_reports_rejection ws q o) as Hrep.
    destruct (running q) as [|w [|w' ru]] eqn:Hrun; cbn [length] in Hl; [| |lia].
    + rewrite Hidle in Hlen by done. done.
    + assert (Hlen' : length os = length (running (settle 0 o q) ++ queue (settle 0 o q))).
      { rewrite Hr, Hq, take_drop. cbn in Hlen. lia. }
      rewrite (IH ws _ Hinv' Hlen').
      rewrite Hr, Hq, take_drop.
      rewrite (Hrep w Hinv eq_refl).
      unfold rejected. cbn [app zip zip_with omap list_omap snd fst].
      destruct o; cbn; by rewrite <- ?app_assoc.
Qed.

(** X23. From any reachable state of the queue of a channel, once every
    started or waiting item has settled, the errors the [catch] block has
    reported since are, in order, exactly the items whose promise
    rejected. *)
Theorem channel_queue_reports_rejections
    (acts : list (string * QueueAction)) (c : string) (os : nat → Outcome) :
  let q := queue_of c (manager_run acts ∅) in
  let waiting := running q ++ queue q in
  let outcomes := os <$> seq 0 (length waiting) in
  errors (settle_all outcomes q) = errors q ++ rejected waiting outcomes.
Proof.
  cbv zeta. eapply settle_all_errors.
  - rewrite queue_of_manager_run. apply queue_inv_run.
  - by rewrite length_fmap, length_seq.
Qed.

Lemma handleMessage_delivery_outcome d1 d2 workspaces workspaceDir message :
  let out1 := handleMessage d1 workspaces workspaceDir message in
  let out2 := handleMessage d2 workspaces workspaceDir message in
  out1.1 = out2.1
  ∧ deliveries out1.2 = deliveries out2.2
  ∧ warnings out1.2 = warnings out2.2
  ∧ length (errorLogs out1.2)
    = length (filter (λ rt, d1 rt.1 rt.2 = false) (deliveries out1.2)).
Proof.
  cbv zeta. unfold handleMessage.
  destruct message as [[subtype|] ? ? data| | | |]; try done.
  rewrite !match_scheduler_event.
  destruct (String.eqb subtype "scheduler_event"); [|done].
  destruct (workspaces !! workspaceDir) as [state|]; [|done].
  destruct (mjoin (parseSchedulerEventData data)) as [event|]; [|done].
  destruct (ev_action event) as [action|]; [|done].
  destruct (ev_jobId event) as [jobId|]; [|done].
  destruct (negb (truthy action) || negb (truthy jobId)); [done|].
  destruct (String.eqb action "added"); [done|].
  destruct (String.eqb action "removed"); [done|].
  destruct (negb (String.eqb action "finished")); [done|].
  destruct (resolve jobId (routes state)) as [route|]; [|done].
  destruct (d1 route _) eqn:H1; destruct (d2 route _) eqn:H2; cbn;
    rewrite ?filter_cons; cbn [fst snd]; rewrite H1; done.
Qed.

(** X24. The outcome of the delivery callback has no influence on the
    bridge: whether its promise resolves or rejects, the routing state after
    a stream, the deliveries attempted and the warnings are the same; each
    rejection adds one error log entry. *)
Theorem scheduler_bridge_delivery_failures
    (d1 d2 : SchedulerRoute → string → bool)
    (workspaces : gmap string WorkspaceSchedulerState) (workspaceDir : string)
    (ms : list SDKMessage) :
  let out1 := consumeMessages d1 workspaces workspaceDir ms in
  let out2 := consumeMessages d2 workspaces workspaceDir ms in
  out1.1 = out2.1
  ∧ deliveries out1.2 = deliveries out2.2
  ∧ warnings out1.2 = warnings out2.2
  ∧ length (errorLogs out1.2)
    = length (filter (λ rt, d1 rt.1 rt.2 = false) (deliveries out1.2)).
Proof.
  cbv zeta. revert workspaces.
  induction ms as [|m ms IH]; intros workspaces; [done|].
  rewrite !consumeMessages_cons. cbv zeta. cbn [fst snd].
  destruct (handleMessage_delivery_outcome d1 d2 workspaces workspaceDir m)
    as (H1 & H2 & H3 & H4). cbv zeta in H1, H2, H3, H4.
  rewrite <- H1.
  destruct (IH (handleMessage d1 workspaces workspaceDir m).1) as (I1 & I2 & I3 & I4).
  unfold deliveries, warnings, errorLogs in *.
  rewrite !omap_app, filter_app, !length_app.
  split_and!; congruence.
Qed.
